(** * etyper: the wrap/cursor engine, the key dispatcher and the document
      operations of [typewriter.py], embedded in Rocq.

    Python values are modelled as the program has them: an [int] is a [Z],
    a [str] is the list of its code points, [None] is an [option], a [dict]
    is a [gmap], and the files of the document directory are a finite map
    from path to content.  Statements that may raise return an [option]. *)

From Stdlib Require Import ZArith NArith Ascii String Bool Lia.
From stdpp Require Import base option list gmap sorting.

Local Open Scope Z_scope.

(** ** Python strings and integers *)

(** A [str] is a sequence of code points. *)
Abbreviation str := (list N).

(** Reading a Rocq string literal as a Python [str]. *)
Definition py (s : string) : str := map N_of_ascii (list_ascii_of_string s).

(** [len(s)] *)
Definition len {A} (s : list A) : Z := Z.of_nat (length s).

(** The position a slice bound [i] denotes in [s]: negative bounds count
    from the end, and every bound is clipped to [0 .. len(s)]. *)
Definition slice_bound {A} (s : list A) (i : Z) : nat :=
  if i <? 0 then Z.to_nat (Z.max 0 (len s + i)) else Z.to_nat (Z.min i (len s)).

(** [s[:i]] and [s[i:]] *)
Definition slice_to {A} (s : list A) (i : Z) : list A := take (slice_bound s i) s.
Definition slice_from {A} (s : list A) (i : Z) : list A := drop (slice_bound s i) s.

(** [s[i]]; [None] stands for [IndexError]. *)
Definition index {A} (s : list A) (i : Z) : option A :=
  if i <? 0 then (if len s + i <? 0 then None else s !! Z.to_nat (len s + i))
  else s !! Z.to_nat i.

Definition NL : N := 10%N.
Definition SPACE : N := 32%N.
Definition TAB : N := 9%N.
Definition CR : N := 13%N.

(** [text.split("\n")]: always at least one piece. *)
Fixpoint split_nl (t : str) : list str :=
  match t with
  | [] => [[]]
  | c :: t' =>
      if (c =? NL)%N then [] :: split_nl t'
      else match split_nl t' with
           | p :: ps => (c :: p) :: ps
           | [] => [[c]]
           end
  end.

(** [str.isspace] on one code point (the whitespace [str.strip()] removes). *)
Definition isspace (c : N) : bool :=
  ((9 <=? c) && (c <=? 13) || (28 <=? c) && (c <=? 32) || (c =? 133) || (c =? 160)
   || (c =? 5760) || (8192 <=? c) && (c <=? 8202) || (c =? 8232) || (c =? 8233)
   || (c =? 8239) || (c =? 8287) || (c =? 12288))%N.

(** [s.strip() == ''] *)
Definition strip_is_empty (s : str) : bool := forallb isspace s.

(** ** The standard library's [textwrap.wrap], for the options the program
    passes: [width=cpl, break_long_words=True, break_on_hyphens=False], all
    others at their defaults ([expand_tabs], [replace_whitespace],
    [drop_whitespace] on, [tabsize=8], no indent, no [max_lines]). *)
Module textwrap.

(** [_whitespace = '\t\n\x0b\x0c\r '] *)
Definition in_whitespace (c : N) : bool := ((9 <=? c) && (c <=? 13) || (c =? 32))%N.

(** [str.expandtabs(tabsize)], started at column [col]. *)
Fixpoint expandtabs_from (tabsize col : Z) (s : str) : str :=
  match s with
  | [] => []
  | c :: s' =>
      if (c =? TAB)%N then
        if 0 <? tabsize then
          let incr := tabsize - col mod tabsize in
          replicate (Z.to_nat incr) SPACE ++ expandtabs_from tabsize (col + incr) s'
        else expandtabs_from tabsize col s'
      else if ((c =? NL) || (c =? CR))%N then c :: expandtabs_from tabsize 0 s'
      else c :: expandtabs_from tabsize (col + 1) s'
  end.

Definition expandtabs (tabsize : Z) (s : str) : str := expandtabs_from tabsize 0 s.

(** [text.translate(unicode_whitespace_trans)] *)
Definition translate_whitespace (s : str) : str :=
  map (fun c => if in_whitespace c then SPACE else c) s.

Definition _munge_whitespace (text : str) : str :=
  translate_whitespace (expandtabs 8 text).

(** [wordsep_simple_re.split(text)] without the empty pieces: the maximal
    runs of whitespace and of non-whitespace, in order. *)
Fixpoint _split (text : str) : list str :=
  match text with
  | [] => []
  | c :: text' =>
      match _split text' with
      | (d :: r) :: chunks =>
          if Bool.eqb (in_whitespace c) (in_whitespace d) then (c :: d :: r) :: chunks
          else [c] :: (d :: r) :: chunks
      | chunks => [c] :: chunks
      end
  end.

Definition _split_chunks (text : str) : list str := _split (_munge_whitespace text).

(** The inner [while chunks:] loop of [_wrap_chunks]: pop chunks onto the
    current line while they fit.  The stack of chunks has its top first. *)
Fixpoint fill_line (width : Z) (chunks cur_line : list str) (cur_len : Z)
  : list str * list str * Z :=
  match chunks with
  | [] => (chunks, cur_line, cur_len)
  | chunk :: rest =>
      let l := len chunk in
      if cur_len + l <=? width then fill_line width rest (cur_line ++ [chunk]) (cur_len + l)
      else (chunks, cur_line, cur_len)
  end.

(** [_handle_long_word] with [break_long_words=True] and
    [break_on_hyphens=False]; it is called with a non-empty stack. *)
Definition _handle_long_word (reversed_chunks cur_line : list str) (cur_len width : Z)
  : list str * list str :=
  let space_left := if width <? 1 then 1 else width - cur_len in
  match reversed_chunks with
  | chunk :: rest => (slice_from chunk space_left :: rest, cur_line ++ [slice_to chunk space_left])
  | [] => (reversed_chunks, cur_line)
  end.

(** One pass of the outer [while chunks:] loop builds one line. *)
Definition wrap_line (width : Z) (chunks lines : list str) : list str * list str :=
  let chunks1 :=
    match chunks with
    | top :: rest => if strip_is_empty top && negb (bool_decide (lines = [])) then rest else chunks
    | [] => chunks
    end in
  let '(chunks2, cur_line, cur_len) := fill_line width chunks1 [] 0 in
  let '(chunks3, cur_line2) :=
    match chunks2 with
    | top :: _ => if width <? len top then _handle_long_word chunks2 cur_line cur_len width
                  else (chunks2, cur_line)
    | [] => (chunks2, cur_line)
    end in
  let cur_line3 :=
    match last cur_line2 with
    | Some c => if strip_is_empty c then removelast cur_line2 else cur_line2
    | None => cur_line2
    end in
  (chunks3, if bool_decide (cur_line3 = []) then lines else lines ++ [concat cur_line3]).

(** The outer loop; [None] when the fuel runs out before the stack is
    empty (shown below not to happen from [_wrap_chunks]). *)
Fixpoint wrap_loop (fuel : nat) (width : Z) (chunks lines : list str) : option (list str) :=
  match chunks with
  | [] => Some lines
  | _ :: _ =>
      match fuel with
      | O => None
      | S fuel' =>
          let '(chunks', lines') := wrap_line width chunks lines in
          wrap_loop fuel' width chunks' lines'
      end
  end.

(** Characters plus chunks left on the stack: every pass lowers it. *)
Definition weight (chunks : list str) : nat := length (concat chunks) + length chunks.

(** [_wrap_chunks]; [None] is the [ValueError] for [width <= 0]. *)
Definition _wrap_chunks (width : Z) (chunks : list str) : option (list str) :=
  if width <=? 0 then None else wrap_loop (weight chunks) width chunks [].

(** [textwrap.wrap(text, width=width, break_long_words=True,
    break_on_hyphens=False)] *)
Definition wrap (text : str) (width : Z) : option (list str) :=
  _wrap_chunks width (_split_chunks text).

End textwrap.

(** ** The application state *)

(** The fields of [EtyperApp] the editing core reads and writes.  The
    display, keyboard and font handles belong to the collaborators; what the
    program does to them is recorded in the [World] below. *)
Record EtyperApp := mkApp {
  text : str;
  cursor : Z;
  doc_path : option str;
  running : bool;
  dirty : bool;
  last_save_time : Z;
  shift_held : bool;
  ctrl_held : bool;
  chars_per_line : Z;
  lines_per_page : Z;
  needs_display_update : bool;
  scroll_offset : Z
}.

Definition set_text (v : str) (a : EtyperApp) : EtyperApp :=
  mkApp v (cursor a) (doc_path a) (running a) (dirty a) (last_save_time a) (shift_held a)
        (ctrl_held a) (chars_per_line a) (lines_per_page a) (needs_display_update a)
        (scroll_offset a).
Definition set_cursor (v : Z) (a : EtyperApp) : EtyperApp :=
  mkApp (text a) v (doc_path a) (running a) (dirty a) (last_save_time a) (shift_held a)
        (ctrl_held a) (chars_per_line a) (lines_per_page a) (needs_display_update a)
        (scroll_offset a).
Definition set_doc_path (v : option str) (a : EtyperApp) : EtyperApp :=
  mkApp (text a) (cursor a) v (running a) (dirty a) (last_save_time a) (shift_held a)
        (ctrl_held a) (chars_per_line a) (lines_per_page a) (needs_display_update a)
        (scroll_offset a).
Definition set_dirty (v : bool) (a : EtyperApp) : EtyperApp :=
  mkApp (text a) (cursor a) (doc_path a) (running a) v (last_save_time a) (shift_held a)
        (ctrl_held a) (chars_per_line a) (lines_per_page a) (needs_display_update a)
        (scroll_offset a).
Definition set_last_save_time (v : Z) (a : EtyperApp) : EtyperApp :=
  mkApp (text a) (cursor a) (doc_path a) (running a) (dirty a) v (shift_held a)
        (ctrl_held a) (chars_per_line a) (lines_per_page a) (needs_display_update a)
        (scroll_offset a).
Definition set_shift_held (v : bool) (a : EtyperApp) : EtyperApp :=
  mkApp (text a) (cursor a) (doc_path a) (running a) (dirty a) (last_save_time a) v
        (ctrl_held a) (chars_per_line a) (lines_per_page a) (needs_display_update a)
        (scroll_offset a).
Definition set_ctrl_held (v : bool) (a : EtyperApp) : EtyperApp :=
  mkApp (text a) (cursor a) (doc_path a) (running a) (dirty a) (last_save_time a) (shift_held a)
        v (chars_per_line a) (lines_per_page a) (needs_display_update a)
        (scroll_offset a).
Definition set_needs_display_update (v : bool) (a : EtyperApp) : EtyperApp :=
  mkApp (text a) (cursor a) (doc_path a) (running a) (dirty a) (last_save_time a) (shift_held a)
        (ctrl_held a) (chars_per_line a) (lines_per_page a) v
        (scroll_offset a).
Definition set_scroll_offset (v : Z) (a : EtyperApp) : EtyperApp :=
  mkApp (text a) (cursor a) (doc_path a) (running a) (dirty a) (last_save_time a) (shift_held a)
        (ctrl_held a) (chars_per_line a) (lines_per_page a) (needs_display_update a)
        v.

(** ** Text wrapping with cursor tracking *)

(** [for col, ch in enumerate(w_line)]: record the cell of every character of
    a wrapped line.  Returns [char_to_pos] and [para_char]. *)
Fixpoint map_columns (w_line : str) (para_start line_idx col para_char : Z)
    (char_to_pos : gmap Z (Z * Z)) : gmap Z (Z * Z) * Z :=
  match w_line with
  | [] => (char_to_pos, para_char)
  | _ :: rest =>
      map_columns rest para_start line_idx (col + 1) (para_char + 1)
                  (<[para_start + para_char := (line_idx, col)]> char_to_pos)
  end.

(** The test [para_char < len(para) and para[para_char] == " "]. *)
Definition space_consumed (para : str) (para_char : Z) : bool :=
  (para_char <? len para) && bool_decide (index para para_char = Some SPACE).

(** [for w_line in wrapped]; returns [lines], [char_to_pos], [line_idx]. *)
Fixpoint map_wrapped (para : str) (para_start : Z) (wrapped lines : list str)
    (char_to_pos : gmap Z (Z * Z)) (line_idx para_char : Z)
    : list str * gmap Z (Z * Z) * Z :=
  match wrapped with
  | [] => (lines, char_to_pos, line_idx)
  | w_line :: rest =>
      let '(m1, pc1) := map_columns w_line para_start line_idx 0 para_char char_to_pos in
      let '(m2, pc2) :=
        if space_consumed para pc1
        then (<[para_start + pc1 := (line_idx, len w_line)]> m1, pc1 + 1)
        else (m1, pc1) in
      map_wrapped para para_start rest (lines ++ [w_line]) m2 (line_idx + 1) pc2
  end.

(** The loop state of [_wrap_with_cursor]. *)
Record wrap_state := mkWrap {
  w_lines : list str;
  w_char_to_pos : gmap Z (Z * Z);
  w_line_idx : Z;
  w_para_start : Z
}.

(** [wrapped = textwrap.wrap(...)], then [if not wrapped: wrapped = [""]]. *)
Definition wrap_para (para : str) (cpl : Z) : option (list str) :=
  wrapped ← textwrap.wrap para cpl;
  Some (if bool_decide (wrapped = []) then [[]] else wrapped).

(** The body of [for p_idx, para in enumerate(paragraphs)]; [n] is
    [len(paragraphs)]. *)
Definition wrap_paragraph (cpl n : Z) (st : wrap_state) (p_idx : Z) (para : str)
    : option wrap_state :=
  if bool_decide (para = []) then
    Some (mkWrap (w_lines st ++ [[]])
                 (if p_idx <? n - 1
                  then <[w_para_start st := (w_line_idx st, 0)]> (w_char_to_pos st)
                  else w_char_to_pos st)
                 (w_line_idx st + 1)
                 (w_para_start st + 1))
  else
    wrapped ← wrap_para para cpl;
    let '(lines, m, line_idx) :=
      map_wrapped para (w_para_start st) wrapped (w_lines st) (w_char_to_pos st)
                  (w_line_idx st) 0 in
    if p_idx <? n - 1 then
      last_line ← index lines (-1);
      Some (mkWrap lines
                   (<[w_para_start st + len para := (line_idx - 1, len last_line)]> m)
                   line_idx
                   (w_para_start st + len para + 1))
    else
      Some (mkWrap lines m line_idx (w_para_start st + len para + 1)).

Fixpoint wrap_paragraphs (cpl n : Z) (paragraphs : list str) (p_idx : Z) (st : wrap_state)
    : option wrap_state :=
  match paragraphs with
  | [] => Some st
  | para :: rest =>
      st' ← wrap_paragraph cpl n st p_idx para;
      wrap_paragraphs cpl n rest (p_idx + 1) st'
  end.

(** The layout part of [_wrap_with_cursor]: [lines] and [char_to_pos]. *)
Definition wrap_layout (cpl : Z) (t : str) : option (list str * gmap Z (Z * Z)) :=
  let paragraphs := split_nl t in
  st ← wrap_paragraphs cpl (len paragraphs) paragraphs 0 (mkWrap [] ∅ 0 0);
  Some (if bool_decide (w_lines st = []) then [[]] else w_lines st, w_char_to_pos st).

(** The cursor part of [_wrap_with_cursor]. *)
Definition find_cursor (t : str) (c : Z) (lines : list str) (char_to_pos : gmap Z (Z * Z))
    : option (Z * Z) :=
  if len t <=? c then
    if bool_decide (lines = []) then Some (0, 0)
    else last_line ← index lines (-1); Some (len lines - 1, len last_line)
  else
    match char_to_pos !! c with
    | Some pos => Some pos
    | None => last_line ← index lines (-1); Some (len lines - 1, len last_line)
    end.

(** [_wrap_with_cursor]: [(lines, cursor_line, cursor_col)]. *)
Definition _wrap_with_cursor (self : EtyperApp) : option (list str * Z * Z) :=
  '(lines, char_to_pos) ← wrap_layout (chars_per_line self) (text self);
  '(cursor_line, cursor_col) ← find_cursor (text self) (cursor self) lines char_to_pos;
  Some (lines, cursor_line, cursor_col).

(** ** From a visual position back to an offset *)

(** A loop that may [return] from inside. *)
Inductive flow (R S : Type) : Type :=
  | Return (r : R)
  | Continue (s : S).
Arguments Return {R S} r.
Arguments Continue {R S} s.

(** [for w_line in wrapped] of [_pos_from_line_col]; continues with
    [line_idx]. *)
Fixpoint pos_in_wrapped (para : str) (wrapped : list str)
    (target_line target_col text_pos line_idx para_char : Z) : flow Z Z :=
  match wrapped with
  | [] => Continue line_idx
  | w_line :: rest =>
      if bool_decide (line_idx = target_line) then
        let col := Z.min target_col (len w_line) in
        Return (text_pos + para_char + col)
      else
        let pc1 := para_char + len w_line in
        let pc2 := if space_consumed para pc1 then pc1 + 1 else pc1 in
        pos_in_wrapped para rest target_line target_col text_pos (line_idx + 1) pc2
  end.

(** [for para in text.split("\n")] of [_pos_from_line_col]. *)
Fixpoint pos_in_paragraphs (cpl : Z) (paragraphs : list str)
    (target_line target_col line_idx text_pos : Z) : option (flow Z (Z * Z)) :=
  match paragraphs with
  | [] => Some (Continue (line_idx, text_pos))
  | para :: rest =>
      if bool_decide (para = []) then
        if bool_decide (line_idx = target_line) then Some (Return (text_pos + Z.min target_col 0))
        else pos_in_paragraphs cpl rest target_line target_col (line_idx + 1) (text_pos + 1)
      else
        wrapped ← wrap_para para cpl;
        match pos_in_wrapped para wrapped target_line target_col text_pos line_idx 0 with
        | Return r => Some (Return r)
        | Continue line_idx' =>
            pos_in_paragraphs cpl rest target_line target_col line_idx' (text_pos + len para + 1)
        end
  end.

(** [_pos_from_line_col]; the [lines] argument is not used by the source. *)
Definition _pos_from_line_col (self : EtyperApp) (lines : list str)
    (target_line target_col : Z) : option Z :=
  r ← pos_in_paragraphs (chars_per_line self) (split_nl (text self)) target_line target_col 0 0;
  match r with
  | Return pos => Some pos
  | Continue _ => Some (len (text self))
  end.

(** ** Rendering and the viewport *)

(** [lines[a:b]] *)
Definition slice {A} (s : list A) (a b : Z) : list A :=
  take (slice_bound s b - slice_bound s a)%nat (drop (slice_bound s a) s).

(** [os.path.basename] *)
Fixpoint basename (p : str) : str :=
  match p with
  | [] => []
  | c :: p' => if bool_decide (47%N ∈ p) then basename p' else p
  end.

(** What [render] draws, up to the pixels: the visible lines, the cell of
    the cursor when its line is inside the window - row in the window and
    column - and the fields of the status line (unsaved marker, document
    name, line, column, character count).  The cursor block itself needs
    the width of a character, which [_calc_text_metrics] takes from the
    font: at that cell [render] draws the rectangle [cursor_rectangle]
    gives, below, and none when the block would pass the right margin. *)
Record page := mkPage {
  display_lines : list str;
  cursor_cell : option (Z * Z);
  status : bool * str * Z * Z * Z
}.

Inductive image : Type :=
  | Page (p : page)
  | Goodbye (resume_hint : bool).

(** "Auto-scroll to keep cursor visible": the new [scroll_offset]. *)
Definition auto_scroll (cursor_line scroll_offset visible : Z) : Z :=
  if cursor_line <? scroll_offset then cursor_line
  else if scroll_offset + visible <=? cursor_line then cursor_line - visible + 1
  else scroll_offset.

(** [render]: the image, and the application with its new [scroll_offset]. *)
Definition render (self : EtyperApp) : option (image * EtyperApp) :=
  '(lines, cursor_line, cursor_col) ← _wrap_with_cursor self;
  let visible := lines_per_page self in
  let so := auto_scroll cursor_line (scroll_offset self) visible in
  let self' := set_scroll_offset so self in
  let vis_cursor_line := cursor_line - so in
  let doc_name := match doc_path self with
                  | Some (c :: p) => basename (c :: p)
                  | _ => py "untitled"
                  end in
  Some (Page (mkPage (slice lines so (so + visible))
                     (if (0 <=? vis_cursor_line) && (vis_cursor_line <? visible)
                      then Some (vis_cursor_line, cursor_col) else None)
                     (dirty self, doc_name, cursor_line + 1, cursor_col + 1, len (text self))),
        self').

(** ** Cursor movement helpers *)

Definition _cursor_up (self : EtyperApp) : option EtyperApp :=
  '(lines, cur_line, cur_col) ← _wrap_with_cursor self;
  if bool_decide (cur_line = 0) then Some self
  else
    let target_line := cur_line - 1 in
    tl ← index lines target_line;
    let target_col := Z.min cur_col (len tl) in
    pos ← _pos_from_line_col self lines target_line target_col;
    Some (set_cursor pos self).

Definition _cursor_down (self : EtyperApp) : option EtyperApp :=
  '(lines, cur_line, cur_col) ← _wrap_with_cursor self;
  if len lines - 1 <=? cur_line then Some self
  else
    let target_line := cur_line + 1 in
    tl ← index lines target_line;
    let target_col := Z.min cur_col (len tl) in
    pos ← _pos_from_line_col self lines target_line target_col;
    Some (set_cursor pos self).

(** ** The collaborators: storage, clock and display *)

Inductive epd_call : Type :=
  | epd_init
  | epd_init_partial
  | epd_display (img : image)
  | epd_full_refresh (img : image)
  | epd_display_image_partial (img : image)
  | epd_sleep.

(** The regular files of the storage by path, each with the text it holds,
    the clock reading of [time.time()], the stamp
    [datetime.now().strftime("%Y%m%d_%H%M%S")], the expansion of
    ["~/etyper_docs"], and the calls made to the display so far.  A world
    describes a storage in which the paths the program looks at are regular
    text files or do not exist: a directory in place of a document, or a
    file that does not decode, is outside of it. *)
Record World := mkWorld {
  DOCS_DIR : str;
  files : gmap str str;
  clock : Z;
  timestamp : str;
  epd_log : list epd_call
}.

Definition set_files (v : gmap str str) (w : World) : World :=
  mkWorld (DOCS_DIR w) v (clock w) (timestamp w) (epd_log w).
Definition epd (c : epd_call) (w : World) : World :=
  mkWorld (DOCS_DIR w) (files w) (clock w) (timestamp w) (epd_log w ++ [c]).

Definition SLASH : N := 47%N.

(** [os.path.join(a, b)] *)
Definition dir_prefix (a : str) : str :=
  match last a with
  | None => a
  | Some c => if (c =? SLASH)%N then a else a ++ [SLASH]
  end.
Definition path_join (a b : str) : str :=
  match b with
  | c :: _ => if (c =? SLASH)%N then b else dir_prefix a ++ b
  | [] => dir_prefix a ++ b
  end.

Definition LAST_DOC_FILE (w : World) : str := path_join (DOCS_DIR w) (py ".last_doc").
Definition AUTOSAVE_INTERVAL : Z := 10.

(** [os.path.exists], asked of the regular files of the storage: the
    directories that hold them are not part of [files]. *)
Definition exists_ (w : World) (p : str) : bool := bool_decide (is_Some (files w !! p)).

(** The name of [p] inside [dir] when [p] is a file directly in it. *)
Definition child_name (dir p : str) : option str :=
  let pre := dir_prefix dir in
  if bool_decide (pre `prefix_of` p) then
    let f := drop (length pre) p in
    if bool_decide (f = []) || bool_decide (SLASH ∈ f) then None else Some f
  else None.

(** [os.listdir(dir)], for a directory that holds regular files only: the
    names of the files in [dir], in some order. *)
Definition listdir (w : World) (dir : str) : list str :=
  omap (child_name dir) (elements (dom (files w))).

(** [a <= b] on [str]: by code points, a proper prefix first. *)
Fixpoint str_leb (a b : str) : bool :=
  match a, b with
  | [], _ => true
  | _ :: _, [] => false
  | x :: a', y :: b' => if (x <? y)%N then true else if (y <? x)%N then false else str_leb a' b'
  end.

(** [sorted(...)] *)
Fixpoint insert_sorted (x : str) (l : list str) : list str :=
  match l with
  | [] => [x]
  | y :: l' => if str_leb x y then x :: l else y :: insert_sorted x l'
  end.
Definition sorted (l : list str) : list str := foldr insert_sorted [] l.

(** [str.strip()] *)
Fixpoint lstrip (s : str) : str :=
  match s with
  | c :: s' => if isspace c then lstrip s' else s
  | [] => []
  end.
Definition strip (s : str) : str := reverse (lstrip (reverse (lstrip s))).

(** Truth value of a path that may be [None] or empty. *)
Definition truthy (p : option str) : bool :=
  match p with Some (_ :: _) => true | _ => false end.

(** ** Document management *)

(** What [open(path).read()] returns for the characters stored: the file is
    opened in text mode, which gives every line ending - "\r\n" and a lone
    "\r" as well as "\n" - as "\n".  Writing in text mode stores the
    characters as they are ("\n" is the line separator of the system the
    program runs on). *)
Fixpoint universal_newlines (s : str) : str :=
  match s with
  | [] => []
  | c :: s' =>
      if (c =? CR)%N then
        NL :: match s' with
              | d :: s'' => if (d =? NL)%N then universal_newlines s'' else universal_newlines s'
              | [] => []
              end
      else c :: universal_newlines s'
  end.

Definition _get_last_doc_path (w : World) : option str :=
  match files w !! LAST_DOC_FILE w with
  | Some content =>
      let path := strip (universal_newlines content) in
      if exists_ w path then Some path else None
  | None => None
  end.

Definition _set_last_doc (path : str) (w : World) : World :=
  set_files (<[LAST_DOC_FILE w := path]> (files w)) w.

Definition _new_doc_path (w : World) : str :=
  path_join (DOCS_DIR w) (py "doc_" ++ timestamp w ++ py ".txt").

Definition load_document (path : option str) (self : EtyperApp) (w : World)
    : EtyperApp * World :=
  let doc_path1 :=
    match path with
    | Some p => if truthy path && exists_ w p then Some p else _get_last_doc_path w
    | None => _get_last_doc_path w
    end in
  let '(doc_path2, text2) :=
    match doc_path1 with
    | Some p => match files w !! p with
                | Some content =>
                    if truthy doc_path1 then (p, universal_newlines content)
                    else (_new_doc_path w, [])
                | None => (_new_doc_path w, [])
                end
    | None => (_new_doc_path w, [])
    end in
  (set_dirty false (set_cursor (len text2) (set_text text2 (set_doc_path (Some doc_path2) self))),
   _set_last_doc doc_path2 w).

Definition save_document (self : EtyperApp) (w : World) : EtyperApp * World :=
  match doc_path self with
  | Some (c :: p) =>
      (set_last_save_time (clock w) (set_dirty false self),
       set_files (<[c :: p := text self]> (files w)) w)
  | _ => (self, w)
  end.

Definition new_document (self : EtyperApp) (w : World) : EtyperApp * World :=
  let '(self1, w1) := save_document self w in
  let p := _new_doc_path w1 in
  (set_needs_display_update true
     (set_dirty false
        (set_scroll_offset 0 (set_cursor 0 (set_text [] (set_doc_path (Some p) self1))))),
   _set_last_doc p w1).

(** "Return sorted list of all .txt document paths in the docs directory." *)
Definition _list_docs (w : World) : list str :=
  let docs := sorted (filter (fun f => py ".txt" `suffix_of` f ∧ py "doc_" `prefix_of` f)
                             (listdir w (DOCS_DIR w))) in
  map (path_join (DOCS_DIR w)) docs.

(** [docs.index(x)]; [None] stands for [ValueError]. *)
Fixpoint list_index (x : option str) (docs : list str) : option Z :=
  match docs with
  | [] => None
  | d :: docs' => if bool_decide (x = Some d) then Some 0 else Z.succ <$> list_index x docs'
  end.

Definition _switch_document (direction : Z) (self : EtyperApp) (w : World)
    : option (EtyperApp * World) :=
  let '(self1, w1) := save_document self w in
  let docs := _list_docs w1 in
  if bool_decide (docs = []) then Some (self1, w1)
  else
    let idx := match list_index (doc_path self1) docs with
               | Some i => i
               | None => len docs - 1
               end in
    let new_idx := idx + direction in
    if (new_idx <? 0) || (len docs <=? new_idx) then Some (self1, w1)
    else
      target ← index docs new_idx;
      let '(self2, w2) := load_document (Some target) self1 w1 in
      Some (set_needs_display_update true self2, w2).

(** ** Keyboard input *)

(** The key codes of [evdev.ecodes] the program names (Linux input event
    codes). *)
Module ecodes.
Definition EV_KEY : Z := 1.
Definition KEY_1 : Z := 2.
Definition KEY_2 : Z := 3.
Definition KEY_3 : Z := 4.
Definition KEY_4 : Z := 5.
Definition KEY_5 : Z := 6.
Definition KEY_6 : Z := 7.
Definition KEY_7 : Z := 8.
Definition KEY_8 : Z := 9.
Definition KEY_9 : Z := 10.
Definition KEY_0 : Z := 11.
Definition KEY_MINUS : Z := 12.
Definition KEY_EQUAL : Z := 13.
Definition KEY_BACKSPACE : Z := 14.
Definition KEY_TAB : Z := 15.
Definition KEY_Q : Z := 16.
Definition KEY_W : Z := 17.
Definition KEY_E : Z := 18.
Definition KEY_R : Z := 19.
Definition KEY_T : Z := 20.
Definition KEY_Y : Z := 21.
Definition KEY_U : Z := 22.
Definition KEY_I : Z := 23.
Definition KEY_O : Z := 24.
Definition KEY_P : Z := 25.
Definition KEY_LEFTBRACE : Z := 26.
Definition KEY_RIGHTBRACE : Z := 27.
Definition KEY_ENTER : Z := 28.
Definition KEY_LEFTCTRL : Z := 29.
Definition KEY_A : Z := 30.
Definition KEY_S : Z := 31.
Definition KEY_D : Z := 32.
Definition KEY_F : Z := 33.
Definition KEY_G : Z := 34.
Definition KEY_H : Z := 35.
Definition KEY_J : Z := 36.
Definition KEY_K : Z := 37.
Definition KEY_L : Z := 38.
Definition KEY_SEMICOLON : Z := 39.
Definition KEY_APOSTROPHE : Z := 40.
Definition KEY_GRAVE : Z := 41.
Definition KEY_LEFTSHIFT : Z := 42.
Definition KEY_BACKSLASH : Z := 43.
Definition KEY_Z : Z := 44.
Definition KEY_X : Z := 45.
Definition KEY_C : Z := 46.
Definition KEY_V : Z := 47.
Definition KEY_B : Z := 48.
Definition KEY_N : Z := 49.
Definition KEY_M : Z := 50.
Definition KEY_COMMA : Z := 51.
Definition KEY_DOT : Z := 52.
Definition KEY_SLASH : Z := 53.
Definition KEY_RIGHTSHIFT : Z := 54.
Definition KEY_SPACE : Z := 57.
Definition KEY_RIGHTCTRL : Z := 97.
Definition KEY_HOME : Z := 102.
Definition KEY_UP : Z := 103.
Definition KEY_LEFT : Z := 105.
Definition KEY_RIGHT : Z := 106.
Definition KEY_END : Z := 107.
Definition KEY_DOWN : Z := 108.
Definition KEY_DELETE : Z := 111.
End ecodes.

(** "Basic US QWERTY keymap: keycode -> (normal, shifted)" *)
Definition key (code : Z) (normal shifted : string) : Z * (str * str) :=
  (code, (py normal, py shifted)).

Definition KEYMAP : list (Z * (str * str)) :=
  [ key ecodes.KEY_A "a" "A"; key ecodes.KEY_B "b" "B"; key ecodes.KEY_C "c" "C";
    key ecodes.KEY_D "d" "D"; key ecodes.KEY_E "e" "E"; key ecodes.KEY_F "f" "F";
    key ecodes.KEY_G "g" "G"; key ecodes.KEY_H "h" "H"; key ecodes.KEY_I "i" "I";
    key ecodes.KEY_J "j" "J"; key ecodes.KEY_K "k" "K"; key ecodes.KEY_L "l" "L";
    key ecodes.KEY_M "m" "M"; key ecodes.KEY_N "n" "N"; key ecodes.KEY_O "o" "O";
    key ecodes.KEY_P "p" "P"; key ecodes.KEY_Q "q" "Q"; key ecodes.KEY_R "r" "R";
    key ecodes.KEY_S "s" "S"; key ecodes.KEY_T "t" "T"; key ecodes.KEY_U "u" "U";
    key ecodes.KEY_V "v" "V"; key ecodes.KEY_W "w" "W"; key ecodes.KEY_X "x" "X";
    key ecodes.KEY_Y "y" "Y"; key ecodes.KEY_Z "z" "Z";
    key ecodes.KEY_1 "1" "!"; key ecodes.KEY_2 "2" "@"; key ecodes.KEY_3 "3" "#";
    key ecodes.KEY_4 "4" "$"; key ecodes.KEY_5 "5" "%"; key ecodes.KEY_6 "6" "^";
    key ecodes.KEY_7 "7" "&"; key ecodes.KEY_8 "8" "*"; key ecodes.KEY_9 "9" "(";
    key ecodes.KEY_0 "0" ")";
    key ecodes.KEY_MINUS "-" "_"; key ecodes.KEY_EQUAL "=" "+";
    key ecodes.KEY_LEFTBRACE "[" "{"; key ecodes.KEY_RIGHTBRACE "]" "}";
    key ecodes.KEY_SEMICOLON ";" ":";
    (ecodes.KEY_APOSTROPHE, (py "'", [34%N]));
    key ecodes.KEY_GRAVE "`" "~"; key ecodes.KEY_BACKSLASH "\" "|";
    key ecodes.KEY_COMMA "," "<"; key ecodes.KEY_DOT "." ">";
    key ecodes.KEY_SLASH "/" "?";
    key ecodes.KEY_SPACE " " " "; key ecodes.KEY_TAB "    " "    " ].

(** [KEYMAP[keycode]] when [keycode in KEYMAP]. *)
Fixpoint lookup_key (keycode : Z) (m : list (Z * (str * str))) : option (str * str) :=
  match m with
  | [] => None
  | (code, chars) :: m' => if bool_decide (code = keycode) then Some chars else lookup_key keycode m'
  end.
Definition keymap_get (keycode : Z) : option (str * str) := lookup_key keycode KEYMAP.

(** ** Sleep / wake *)

(** [_sleep_mode], for a call whose wait for the wake key comes back.
    [_wait_for_wake] only polls the keyboard: it changes none of the fields
    above and makes no display call. *)
Definition _sleep_mode (self : EtyperApp) (w : World) : option (EtyperApp * World) :=
  let w1 := epd epd_sleep (epd (epd_display (Goodbye true)) (epd epd_init w)) in
  let w2 := epd epd_init w1 in
  '(img, self1) ← render self;
  let w3 := epd epd_init_partial (epd (epd_display img) w2) in
  Some (set_needs_display_update false self1, w3).

(** The editing keys of [_handle_key], reached when no modifier key and no
    Ctrl shortcut took the event. *)
Definition edit_key (keycode : Z) (self : EtyperApp) : option EtyperApp :=
  if bool_decide (keycode = ecodes.KEY_LEFT) then
    if 0 <? cursor self
    then Some (set_needs_display_update true (set_cursor (cursor self - 1) self))
    else Some self
  else if bool_decide (keycode = ecodes.KEY_RIGHT) then
    if cursor self <? len (text self)
    then Some (set_needs_display_update true (set_cursor (cursor self + 1) self))
    else Some self
  else if bool_decide (keycode = ecodes.KEY_UP) then
    self1 ← _cursor_up self; Some (set_needs_display_update true self1)
  else if bool_decide (keycode = ecodes.KEY_DOWN) then
    self1 ← _cursor_down self; Some (set_needs_display_update true self1)
  else if bool_decide (keycode = ecodes.KEY_HOME) then
    '(lines, cur_line, _) ← _wrap_with_cursor self;
    pos ← _pos_from_line_col self lines cur_line 0;
    Some (set_needs_display_update true (set_cursor pos self))
  else if bool_decide (keycode = ecodes.KEY_END) then
    '(lines, cur_line, _) ← _wrap_with_cursor self;
    line ← index lines cur_line;
    pos ← _pos_from_line_col self lines cur_line (len line);
    Some (set_needs_display_update true (set_cursor pos self))
  else if bool_decide (keycode = ecodes.KEY_ENTER) then
    let t := slice_to (text self) (cursor self) ++ [NL] ++ slice_from (text self) (cursor self) in
    Some (set_needs_display_update true
            (set_dirty true (set_cursor (cursor self + 1) (set_text t self))))
  else if bool_decide (keycode = ecodes.KEY_BACKSPACE) then
    if 0 <? cursor self then
      let t := slice_to (text self) (cursor self - 1) ++ slice_from (text self) (cursor self) in
      Some (set_needs_display_update true
              (set_dirty true (set_cursor (cursor self - 1) (set_text t self))))
    else Some self
  else if bool_decide (keycode = ecodes.KEY_DELETE) then
    if cursor self <? len (text self) then
      let t := slice_to (text self) (cursor self) ++ slice_from (text self) (cursor self + 1) in
      Some (set_needs_display_update true (set_dirty true (set_text t self)))
    else Some self
  else
    match keymap_get keycode with
    | Some (normal, shifted) =>
        let char := if shift_held self then shifted else normal in
        let t := slice_to (text self) (cursor self) ++ char ++ slice_from (text self) (cursor self) in
        Some (set_needs_display_update true
                (set_dirty true (set_cursor (cursor self + len char) (set_text t self))))
    | None => Some self
    end.

(** [_handle_key(keycode, value)] *)
Definition _handle_key (keycode value : Z) (self : EtyperApp) (w : World)
    : option (EtyperApp * World) :=
  if bool_decide (keycode = ecodes.KEY_LEFTSHIFT) || bool_decide (keycode = ecodes.KEY_RIGHTSHIFT)
  then Some (set_shift_held (negb (value =? 0)) self, w)
  else if bool_decide (keycode = ecodes.KEY_LEFTCTRL) || bool_decide (keycode = ecodes.KEY_RIGHTCTRL)
  then Some (set_ctrl_held (negb (value =? 0)) self, w)
  else if value =? 0 then Some (self, w)
  else if ctrl_held self && bool_decide (keycode = ecodes.KEY_Q) then
    let '(self1, w1) := save_document self w in _sleep_mode self1 w1
  else if ctrl_held self && bool_decide (keycode = ecodes.KEY_S) then
    let '(self1, w1) := save_document self w in
    Some (set_needs_display_update true self1, w1)
  else if ctrl_held self && bool_decide (keycode = ecodes.KEY_N) then
    Some (new_document self w)
  else if ctrl_held self && bool_decide (keycode = ecodes.KEY_R) then
    '(img, self1) ← render self;
    Some (set_needs_display_update false self1, epd (epd_full_refresh img) w)
  else if ctrl_held self && bool_decide (keycode = ecodes.KEY_LEFT) then
    _switch_document (-1) self w
  else if ctrl_held self && bool_decide (keycode = ecodes.KEY_RIGHT) then
    _switch_document 1 self w
  else
    self1 ← edit_key keycode self; Some (self1, w).

(** ** Main loop *)

Definition _check_autosave (self : EtyperApp) (w : World) : EtyperApp * World :=
  if dirty self && (AUTOSAVE_INTERVAL <=? clock w - last_save_time self)
  then save_document self w
  else (self, w).

(** What the keyboard gives one pass of the loop: no device found, a
    [select] that came back with the events read (none on a timeout), or an
    [OSError] from the device, taken to come before any event of the pass is
    handled. *)
Inductive poll : Type :=
  | NoKeyboard
  | Ready (events : list (Z * Z * Z))
  | Disconnected.

(** [for event in self.keyboard.read()], events as [(type, code, value)]. *)
Fixpoint handle_events (events : list (Z * Z * Z)) (self : EtyperApp) (w : World)
    : option (EtyperApp * World) :=
  match events with
  | [] => Some (self, w)
  | (type, code, value) :: rest =>
      if bool_decide (type = ecodes.EV_KEY) then
        '(self1, w1) ← _handle_key code value self w;
        handle_events rest self1 w1
      else handle_events rest self w
  end.

(** One pass of [while self.running] in [_main_loop]. *)
Definition main_loop_pass (p : poll) (self : EtyperApp) (w : World)
    : option (EtyperApp * World) :=
  match p with
  | NoKeyboard => Some (_check_autosave self w)
  | Disconnected => Some (self, w)
  | Ready events =>
      '(self1, w1) ← handle_events events self w;
      '(self2, w2) ←
        (if needs_display_update self1 then
           '(img, s) ← render self1;
           Some (set_needs_display_update false s, epd (epd_display_image_partial img) w1)
         else Some (self1, w1));
      Some (_check_autosave self2 w2)
  end.

(** The clock moves between passes. *)
Definition set_clock (now : Z) (w : World) : World :=
  mkWorld (DOCS_DIR w) (files w) now (timestamp w) (epd_log w).

(** [_main_loop] over the passes the environment drives: each pass comes with
    the clock reading at its start. *)
Fixpoint _main_loop (passes : list (Z * poll)) (self : EtyperApp) (w : World)
    : option (EtyperApp * World) :=
  match passes with
  | [] => Some (self, w)
  | (now, p) :: rest =>
      if running self then
        '(self1, w1) ← main_loop_pass p self (set_clock now w);
        _main_loop rest self1 w1
      else Some (self, w)
  end.

(** A pass in which no Ctrl key event arrives, and a display call that is a
    partial refresh. *)
Definition no_ctrl_key (event : Z * Z * Z) : bool :=
  negb (bool_decide (event.1.2 = ecodes.KEY_LEFTCTRL))
  && negb (bool_decide (event.1.2 = ecodes.KEY_RIGHTCTRL)).

Definition pass_without_ctrl (pass : Z * poll) : bool :=
  match pass.2 with
  | Ready events => forallb no_ctrl_key events
  | _ => true
  end.

Definition is_partial (c : epd_call) : bool :=
  match c with
  | epd_display_image_partial _ => true
  | _ => false
  end.

(** ** The layout both mappings walk

    [_wrap_with_cursor] and [_pos_from_line_col] walk the same decomposition:
    the paragraphs of the text, the lines [textwrap] makes of each, and after
    each line the space the walk takes as consumed by the wrap.  The layout
    lists the visual lines in order, each with the offset at which the walk
    puts its column 0 and with what the walk counts after it. *)

Record vline := mkVline {
  v_text : str;          (* the line as drawn *)
  v_start : Z;           (* text offset of its column 0 *)
  v_space : bool;        (* the walk found a consumed space after it *)
  v_newline : bool       (* the newline ending its paragraph follows *)
}.

(** The offset where the walk ends a line: its start plus its length. *)
Definition v_end (v : vline) : Z := v_start v + len (v_text v).

(** After a wrapped line: step over the consumed space, if any. *)
Definition next_char (para : str) (para_char : Z) : Z :=
  if space_consumed para para_char then para_char + 1 else para_char.

Fixpoint para_layout (para : str) (wrapped : list str) (text_pos para_char : Z)
    (newline : bool) : list vline :=
  match wrapped with
  | [] => []
  | w_line :: rest =>
      let pc1 := para_char + len w_line in
      mkVline w_line (text_pos + para_char) (space_consumed para pc1)
              (if bool_decide (rest = []) then newline else false)
      :: para_layout para rest text_pos (next_char para pc1) newline
  end.

(** The lines of one paragraph: an empty paragraph is one empty line. *)
Definition here_layout (cpl : Z) (para : str) (text_pos : Z) (newline : bool)
    : option (list vline) :=
  if bool_decide (para = []) then Some [mkVline [] text_pos false newline]
  else wrapped ← wrap_para para cpl; Some (para_layout para wrapped text_pos 0 newline).

Fixpoint layout (cpl : Z) (paragraphs : list str) (text_pos : Z) : option (list vline) :=
  match paragraphs with
  | [] => Some []
  | para :: rest =>
      here ← here_layout cpl para text_pos (negb (bool_decide (rest = [])));
      later ← layout cpl rest (text_pos + len para + 1);
      Some (here ++ later)
  end.

(** Re-joining the lines: every line, the space consumed after it, the
    newline of its paragraph. *)
Definition rejoin (lay : list vline) : str :=
  concat (map (fun v => v_text v ++ (if v_space v then [SPACE] else [])
                               ++ (if v_newline v then [NL] else [])) lay).

(** A cell of the forward mapping that points into the layout at the offset
    [k] it is the image of: line [li + i], column [k - v_start]. *)
Definition cell_at (lay : list vline) (li k : Z) (cell : Z * Z) : Prop :=
  ∃ (i : nat) v, cell = (li + Z.of_nat i, k - v_start v) ∧ lay !! i = Some v ∧
                 v_start v ≤ k ≤ v_end v.

(** The paragraphs put back together, and the offsets they span with the
    newline after each. *)
Fixpoint join_nl (paragraphs : list str) : str :=
  match paragraphs with
  | [] => []
  | [para] => para
  | para :: rest => para ++ NL :: join_nl rest
  end.

Fixpoint span (paragraphs : list str) : Z :=
  match paragraphs with
  | [] => 0
  | para :: rest => len para + 1 + span rest
  end.

(** The forward mapping, offset to cell, and the inverse mapping, cell to
    offset with the column clamped to the length of the line, at the text
    and width of the application. *)
Definition forward (self : EtyperApp) (offset : Z) : option (Z * Z) :=
  '(_, cursor_line, cursor_col) ← _wrap_with_cursor (set_cursor offset self);
  Some (cursor_line, cursor_col).

Definition inverse (self : EtyperApp) (cell : Z * Z) : option Z :=
  '(lines, _, _) ← _wrap_with_cursor self;
  line ← index lines cell.1;
  _pos_from_line_col self lines cell.1 (Z.min cell.2 (len line)).

(** ** Plain texts

    A paragraph of words separated by single spaces: no whitespace but the
    space, and every space between two word characters. *)
Fixpoint spaced_words (p : str) (in_word : bool) : bool :=
  match p with
  | [] => in_word
  | c :: p' =>
      if isspace c then (c =? SPACE)%N && in_word && spaced_words p' false
      else spaced_words p' true
  end.

(** A text whose paragraphs are each empty or such words. *)
Definition plain_text (t : str) : bool :=
  forallb (fun para => bool_decide (para = []) || spaced_words para false) (split_nl t).

(** A word: not empty, no whitespace. *)
Definition is_word (w : str) : Prop := w ≠ [] ∧ Forall (fun c => isspace c = false) w.

(** A stack of chunks that starts with a word and alternates words and
    single spaces. *)
Inductive words_first : list str → Prop :=
  | words_one w : is_word w → words_first [w]
  | words_more w chunks :
      is_word w → words_first chunks → words_first (w :: [SPACE] :: chunks).

(** [rejoins lines para]: the lines, in order, with one space or nothing
    between consecutive ones, make up the paragraph; where nothing is put
    the next line does not begin with a space. *)
Inductive rejoins : list str → str → Prop :=
  | rejoins_last w : rejoins [w] w
  | rejoins_space w ws tail : rejoins ws tail → rejoins (w :: ws) (w ++ SPACE :: tail)
  | rejoins_break w ws tail :
      rejoins ws tail → head tail ≠ Some SPACE → rejoins (w :: ws) (w ++ tail).

(** A paragraph is well wrapped when it is empty or its lines, with a space
    or nothing between them, make it up. *)
Definition well_wrapped (cpl : Z) (para : str) : Prop :=
  para = [] ∨ ∃ wrapped, wrap_para para cpl = Some wrapped ∧ rejoins wrapped para.

(** ** Sample states *)

(** Scenario A of the specification: "hello world" at a width of 5. *)
Definition hello_world : EtyperApp :=
  mkApp (py "hello world") 0 None true false 0 false false 5 19 false 0.

(** "hello  world", with two spaces, at a width of 5. *)
Definition two_spaces : EtyperApp :=
  mkApp (py "hello  world") 0 None true false 0 false false 5 19 false 0.

(** "hello  world foo": the same two spaces, and a wrap point after them. *)
Definition two_spaces_three_words : EtyperApp :=
  mkApp (py "hello  world foo") 0 None true false 0 false false 5 19 false 0.

(** "a " - a letter and a space - with the cursor at the end. *)
Definition trailing_space : EtyperApp :=
  mkApp (py "a ") 2 None true false 0 false false 30 19 false 0.

(** A document read from storage that holds a tab: "a<TAB>b". *)
Definition tab_document : EtyperApp :=
  mkApp [97%N; TAB; 98%N] 0 None true false 0 false false 30 19 false 0.

(** A world with no files and nothing displayed yet. *)
Definition empty_world : World :=
  mkWorld (py "/home/user/etyper_docs") ∅ 0 (py "20260101_120000") [].

(** Two documents on storage, and each of them open: the second with
    unsaved edits, the first as loaded. *)
Definition two_docs : World :=
  mkWorld (py "/home/user/etyper_docs")
          (list_to_map [ (py "/home/user/etyper_docs/doc_20260101_090000.txt", py "first");
                         (py "/home/user/etyper_docs/doc_20260102_090000.txt", py "second");
                         (py "/home/user/etyper_docs/.last_doc",
                          py "/home/user/etyper_docs/doc_20260102_090000.txt") ])
          100 (py "20260103_090000") [].

Definition second_doc_edited : EtyperApp :=
  mkApp (py "second!") 7 (Some (py "/home/user/etyper_docs/doc_20260102_090000.txt"))
        true true 0 false false 30 19 false 0.

Definition first_doc_open : EtyperApp :=
  mkApp (py "first") 5 (Some (py "/home/user/etyper_docs/doc_20260101_090000.txt"))
        true false 0 false false 30 19 false 0.

(** Six minutes of the main loop: the key A is pressed and released in the
    first pass, then the keyboard is idle, one pass a minute. *)
Definition six_minutes : list (Z * poll) :=
  [ (0, Ready [(ecodes.EV_KEY, ecodes.KEY_A, 1); (ecodes.EV_KEY, ecodes.KEY_A, 0)]);
    (60, Ready []); (120, Ready []); (180, Ready []); (240, Ready []);
    (300, Ready []); (360, Ready []) ].

(** ** Bounds on what the walks return *)

(** A cell that lies on a line of the layout: line [li + i], a column from 0
    to the length of that line. *)
Definition in_layout (lay : list vline) (li : Z) (cell : Z * Z) : Prop :=
  ∃ (i : nat) v, cell.1 = li + Z.of_nat i ∧ lay !! i = Some v ∧
                 0 ≤ cell.2 ≤ len (v_text v).

(** The walk over the lines of a paragraph stays inside the paragraph: no
    line ends past its end. *)
Fixpoint fits_para (para : str) (lines : list str) (para_char : Z) : Prop :=
  match lines with
  | [] => True
  | line :: rest =>
      para_char + len line ≤ len para ∧
      fits_para para rest (next_char para (para_char + len line))
  end.

(** Where the walk stands after the lines. *)
Fixpoint walk_end (para : str) (lines : list str) (para_char : Z) : Z :=
  match lines with
  | [] => para_char
  | line :: rest => walk_end para rest (next_char para (para_char + len line))
  end.

(** A chunk that is all spaces or has none. *)
Definition uniform (chunk : str) : Prop :=
  Forall (fun c => c = SPACE) chunk ∨ Forall (fun c => c ≠ SPACE) chunk.

(** The characters of a string that are not whitespace: what is left of a
    piece of text when the spaces and newlines between its words go. *)
Definition ink (s : str) : str := filter (fun c => isspace c = false) s.

(** The cursor is an offset of the text. *)
Definition cursor_in_text (self : EtyperApp) : Prop := 0 ≤ cursor self ≤ len (text self).

(** ** More sample states *)

(** A width of no column at all, as before [_calc_text_metrics] has run with
    a font, and one letter of text. *)
Definition zero_width : EtyperApp :=
  mkApp (py "a") 0 None true false 0 false false 0 19 false 0.

(** ** Text metrics and the cursor block *)

Definition PORTRAIT_W : Z := 300.
Definition PORTRAIT_H : Z := 400.
Definition MARGIN_X : Z := 10.
Definition MARGIN_Y : Z := 8.
Definition FONT_SIZE : Z := 16.

(** The attributes [_calc_text_metrics] sets beside [chars_per_line] and
    [lines_per_page]. *)
Record metrics := mkMetrics {
  char_w : Z;
  cell_h : Z;
  line_h : Z
}.

Definition set_chars_per_line (v : Z) (a : EtyperApp) : EtyperApp :=
  mkApp (text a) (cursor a) (doc_path a) (running a) (dirty a) (last_save_time a)
        (shift_held a) (ctrl_held a) v (lines_per_page a) (needs_display_update a)
        (scroll_offset a).
Definition set_lines_per_page (v : Z) (a : EtyperApp) : EtyperApp :=
  mkApp (text a) (cursor a) (doc_path a) (running a) (dirty a) (last_save_time a)
        (shift_held a) (ctrl_held a) (chars_per_line a) v (needs_display_update a)
        (scroll_offset a).
Definition set_running (v : bool) (a : EtyperApp) : EtyperApp :=
  mkApp (text a) (cursor a) (doc_path a) v (dirty a) (last_save_time a)
        (shift_held a) (ctrl_held a) (chars_per_line a) (lines_per_page a)
        (needs_display_update a) (scroll_offset a).

(** [a // b]; [None] stands for [ZeroDivisionError]. *)
Definition floordiv (a b : Z) : option Z := if b =? 0 then None else Some (a / b).

(** [_calc_text_metrics], for a font whose [getmetrics()] is
    [(ascent, descent)] and whose [int(getlength("M"))] is [advance].
    [int(FONT_SIZE * 1.5)] is [FONT_SIZE * 3 // 2]: the product is exact. *)
Definition _calc_text_metrics (ascent descent advance : Z) (self : EtyperApp)
    : option (metrics * EtyperApp) :=
  let usable_w := PORTRAIT_W - 2 * MARGIN_X in
  let usable_h := PORTRAIT_H - 2 * MARGIN_Y in
  let m := mkMetrics advance (ascent + descent) (FONT_SIZE * 3 / 2) in
  cols ← floordiv usable_w (char_w m);
  let self1 := set_chars_per_line (Z.max 1 cols) self in
  rows ← floordiv usable_h (line_h m);
  Some (m, set_lines_per_page (Z.max 1 rows - 1) self1).

(** The cursor block of [render]: the rectangle [[x0, y0, x1, y1]] drawn for
    the cursor, if any. *)
Definition cursor_rectangle (m : metrics) (cursor_col vis_cursor_line visible : Z)
    : option (Z * Z * Z * Z) :=
  if (0 <=? vis_cursor_line) && (vis_cursor_line <? visible) then
    let cx := MARGIN_X + cursor_col * char_w m in
    let cy := MARGIN_Y + vis_cursor_line * line_h m in
    if cx + char_w m <=? PORTRAIT_W - MARGIN_X
    then Some (cx, cy, cx + char_w m - 1, cy + cell_h m - 1)
    else None
  else None.

(** ** Waiting for the wake key *)

(** [for event in self.keyboard.read()] of [_wait_for_wake]: [Return] when
    the wake key comes, else the Ctrl state the batch leaves. *)
Fixpoint wake_events (events : list (Z * Z * Z)) (ctrl_held : bool) : flow unit bool :=
  match events with
  | [] => Continue ctrl_held
  | (type, code, value) :: rest =>
      if negb (bool_decide (type = ecodes.EV_KEY)) then wake_events rest ctrl_held
      else if bool_decide (code = ecodes.KEY_LEFTCTRL) || bool_decide (code = ecodes.KEY_RIGHTCTRL)
      then wake_events rest (negb (value =? 0))
      else if bool_decide (code = ecodes.KEY_Q) && (value =? 1) && ctrl_held then Return tt
      else wake_events rest ctrl_held
  end.

(** [_wait_for_wake] from its loop on, over the polls the environment gives,
    with [self.running] as it stands: the polls left when it returns, [None]
    when they run out with the typewriter still asleep.  The events that
    follow the wake key in its batch are read and dropped. *)
Fixpoint wait_loop (running : bool) (polls : list poll) (ctrl_held : bool)
    : option (list poll) :=
  if negb running then Some polls
  else match polls with
       | [] => None
       | NoKeyboard :: rest => wait_loop running rest ctrl_held
       | Disconnected :: rest => wait_loop running rest ctrl_held
       | Ready events :: rest =>
           match wake_events events ctrl_held with
           | Return _ => Some rest
           | Continue ctrl_held' => wait_loop running rest ctrl_held'
           end
       end.

(** [_wait_for_wake]: [ctrl_held = False], then the loop. *)
Definition _wait_for_wake (self : EtyperApp) (polls : list poll) : option (list poll) :=
  wait_loop (running self) polls false.

(** The events of the polls, in the order read. *)
Definition events_of (polls : list poll) : list (Z * Z * Z) :=
  concat (map (fun p => match p with Ready events => events | _ => [] end) polls).

(** A Ctrl key event, and one that releases it. *)
Definition is_ctrl_event (e : Z * Z * Z) : Prop :=
  e.1.1 = ecodes.EV_KEY ∧ (e.1.2 = ecodes.KEY_LEFTCTRL ∨ e.1.2 = ecodes.KEY_RIGHTCTRL).
Definition is_ctrl_release (e : Z * Z * Z) : Prop := is_ctrl_event e ∧ e.2 = 0.

(** ** Shutdown and the whole run *)

(** [_shutdown]: the dirty document is saved, the display shows the goodbye
    frame and is put to sleep.  The last call, [self.epd.close()], releases
    the device: the boolean returned beside the application and the world.
    The display has no failing call here, so the [except] is never taken. *)
Definition _shutdown (self : EtyperApp) (w : World) : EtyperApp * World * bool :=
  let '(self1, w1) := if dirty self then save_document self w else (self, w) in
  (self1, epd epd_sleep (epd (epd_display (Goodbye false)) (epd epd_init w1)), true).

(** [EtyperApp()], at the clock reading [now]. *)
Definition __init__ (now : Z) : EtyperApp :=
  mkApp [] 0 None false false now false false 30 20 true 0.

(** [run] up to the main loop, for the font of [_calc_text_metrics]. *)
Definition startup (ascent descent advance : Z) (self : EtyperApp) (w : World)
    : option (metrics * EtyperApp * World) :=
  '(m, self1) ← _calc_text_metrics ascent descent advance self;
  let '(self2, w2) := load_document None self1 w in
  let w3 := epd epd_init w2 in
  '(img, self3) ← render self2;
  let w4 := epd epd_init_partial (epd (epd_display img) w3) in
  Some (m,
        set_needs_display_update false
          (set_last_save_time (clock w4) (set_running true self3)),
        w4).

(** [run]: the start, the main loop over the passes the environment drives,
    and [_shutdown].  An exception of the loop is [None]: the [finally]
    still runs [_shutdown] in the source, and the exception goes on. *)
Definition run (ascent descent advance : Z) (passes : list (Z * poll))
    (self : EtyperApp) (w : World) : option (EtyperApp * World * bool) :=
  '(_, self1, w1) ← startup ascent descent advance self w;
  '(self2, w2) ← _main_loop passes self1 w1;
  Some (_shutdown self2 w2).

(** ** The test patterns of [examples/test_patterns.py] *)

(** [[x] * n] *)
Definition times {A} (l : list A) (n : Z) : list A := concat (replicate (Z.to_nat n) l).

(** The list [tests] of [main], for a display of [W] by [H] pixels. *)
Definition tests (W H : Z) : list (str * list Z) :=
  let row_bytes := W / 8 in
  [ (py "ALL WHITE", times [255] (row_bytes * H));
    (py "ALL BLACK", times [0] (row_bytes * H));
    (py "TOP BLACK / BOTTOM WHITE",
     times [0] (row_bytes * (H / 2)) ++ times [255] (row_bytes * (H / 2)));
    (py "LEFT BLACK / RIGHT WHITE",
     concat (replicate (Z.to_nat H)
               (times [0] (row_bytes / 2) ++ times [255] (row_bytes / 2)))) ].


(** * Properties *)

(** ** Python lists and slices *)

Lemma len_nil {A} : len (@nil A) = 0.
Proof. reflexivity. Qed.

Lemma len_cons {A} (x : A) l : len (x :: l) = 1 + len l.
Proof. unfold len. simpl. lia. Qed.

Lemma len_app {A} (l1 l2 : list A) : len (l1 ++ l2) = len l1 + len l2.
Proof. unfold len. rewrite length_app. lia. Qed.

Lemma len_nonneg {A} (l : list A) : 0 ≤ len l.
Proof. unfold len. lia. Qed.

Lemma slice_bound_inside {A} (s : list A) i : 0 ≤ i → slice_bound s i = Nat.min (Z.to_nat i) (length s).
Proof. intros Hi. unfold slice_bound, len. destruct (Z.ltb_spec i 0); lia. Qed.

Lemma slice_to_take {A} (s : list A) i : 0 ≤ i → slice_to s i = take (Z.to_nat i) s.
Proof.
  intros Hi. unfold slice_to. rewrite slice_bound_inside by done.
  destruct (Nat.le_ge_cases (Z.to_nat i) (length s)).
  - by rewrite Nat.min_l.
  - rewrite Nat.min_r by done. by rewrite !take_ge by lia.
Qed.

Lemma slice_from_drop {A} (s : list A) i : 0 ≤ i → slice_from s i = drop (Z.to_nat i) s.
Proof.
  intros Hi. unfold slice_from. rewrite slice_bound_inside by done.
  destruct (Nat.le_ge_cases (Z.to_nat i) (length s)).
  - by rewrite Nat.min_l.
  - rewrite Nat.min_r by done. by rewrite !drop_ge by lia.
Qed.

(** ** [textwrap.wrap] returns, and its lines fit the width *)

Lemma fill_line_spec width chunks cur_line cur_len chunks2 cur_line2 cur_len2 :
  textwrap.fill_line width chunks cur_line cur_len = (chunks2, cur_line2, cur_len2) →
  ∃ popped, chunks = popped ++ chunks2 ∧ cur_line2 = cur_line ++ popped ∧
    cur_len2 = cur_len + len (concat popped) ∧
    (cur_len ≤ width → cur_len2 ≤ width) ∧
    match chunks2 with [] => True | top :: _ => width < cur_len2 + len top end.
Proof.
  revert cur_line cur_len. induction chunks as [|c chunks IH]; intros cur_line cur_len; simpl.
  - intros [= <- <- <-]. exists []. simpl. rewrite app_nil_r, len_nil.
    split_and!; auto; lia.
  - destruct (Z.leb_spec (cur_len + len c) width) as [Hfit|Hno].
    + intros H. apply IH in H as (popped & -> & -> & -> & Hle & Htop).
      exists (c :: popped). simpl. rewrite <- app_assoc. simpl. rewrite len_app.
      split_and!; auto; try lia.
    + intros [= <- <- <-]. exists []. simpl. rewrite app_nil_r, len_nil.
      split_and!; auto; lia.
Qed.

Lemma weight_cons c chunks : textwrap.weight (c :: chunks) = (length c + textwrap.weight chunks + 1)%nat.
Proof. unfold textwrap.weight. simpl. rewrite length_app. lia. Qed.

Lemma weight_app a b : textwrap.weight (a ++ b) = (textwrap.weight a + textwrap.weight b)%nat.
Proof. unfold textwrap.weight. rewrite concat_app, !length_app. lia. Qed.

Lemma strip_last_concat (cur_line : list str) :
  ∃ dropped,
    concat cur_line =
      concat (match last cur_line with
              | Some c => if strip_is_empty c then removelast cur_line else cur_line
              | None => cur_line
              end) ++ dropped.
Proof.
  destruct (last cur_line) as [c|] eqn:Hlast.
  - apply last_Some in Hlast as [l' ->]. destruct (strip_is_empty c).
    + exists c. rewrite removelast_last, concat_app. simpl. by rewrite app_nil_r.
    + exists []. by rewrite app_nil_r.
  - exists []. by rewrite app_nil_r.
Qed.

(** One pass takes something off the stack and adds at most one line, which
    fits the width. *)
Lemma wrap_line_progress width chunks lines chunks' lines' :
  1 ≤ width → chunks ≠ [] →
  textwrap.wrap_line width chunks lines = (chunks', lines') →
  (textwrap.weight chunks' < textwrap.weight chunks)%nat ∧
  (lines' = lines ∨ ∃ l, lines' = lines ++ [l] ∧ len l ≤ width).
Proof.
  intros Hw Hne. unfold textwrap.wrap_line.
  set (chunks1 := match chunks with [] => chunks | top :: rest => _ end).
  assert (H1 : (textwrap.weight chunks1 ≤ textwrap.weight chunks)%nat ∧
               (chunks1 = [] → textwrap.weight chunks1 < textwrap.weight chunks)%nat).
  { subst chunks1. destruct chunks as [|top rest]; [done|].
    destruct (_ && _).
    - rewrite weight_cons. split; intros; lia.
    - split; [lia|done]. }
  clearbody chunks1. destruct H1 as [H1 H1'].
  destruct (textwrap.fill_line width chunks1 [] 0) as [[chunks2 cur_line] cur_len] eqn:Hfill.
  apply fill_line_spec in Hfill as (popped & -> & Hcl & -> & Hle & Htop).
  simpl in Hcl. subst cur_line. specialize (Hle ltac:(lia)).
  rewrite weight_app in H1.
  pose proof (len_nonneg (concat popped)) as Hp0.
  destruct chunks2 as [|top rest2].
  - destruct (strip_last_concat popped) as [dropped Hd].
    intros [= <- <-]. split.
    + rewrite app_nil_r in H1'. destruct popped; [specialize (H1' eq_refl)|]; simpl in *;
        unfold textwrap.weight in *; simpl in *; lia.
    + case_bool_decide; [by left|right]. eexists; split; [done|].
      apply (f_equal len) in Hd. rewrite len_app in Hd.
      pose proof (len_nonneg dropped). rewrite Z.add_0_l in Hle. lia.
  - rewrite Z.add_0_l in *.
    destruct (Z.ltb_spec width (len top)) as [Hlong|Hshort].
    + unfold textwrap._handle_long_word.
      destruct (Z.ltb_spec width 1); [lia|].
      rewrite slice_from_drop, slice_to_take by lia.
      destruct (strip_last_concat (popped ++ [take (Z.to_nat (width - len (concat popped))) top]))
        as [dropped Hd].
      intros [= <- <-]. split.
      * rewrite !weight_cons in *. rewrite length_drop.
        destruct popped as [|p popped]; simpl in *.
        -- rewrite len_nil in *. unfold len in *. lia.
        -- rewrite weight_cons in H1. lia.
      * case_bool_decide; [by left|right]. eexists; split; [done|].
        apply (f_equal len) in Hd. rewrite concat_app, !len_app in Hd. simpl in Hd.
        rewrite app_nil_r in Hd. pose proof (len_nonneg dropped).
        assert (len (take (Z.to_nat (width - len (concat popped))) top)
                ≤ width - len (concat popped)).
        { unfold len. rewrite length_take. unfold len in *. lia. }
        lia.
    + destruct (strip_last_concat popped) as [dropped Hd].
      intros [= <- <-]. split.
      * destruct popped as [|p popped]; simpl in *.
        -- rewrite len_nil in *. lia.
        -- rewrite weight_cons in H1. lia.
      * case_bool_decide; [by left|right]. eexists; split; [done|].
        apply (f_equal len) in Hd. rewrite len_app in Hd.
        pose proof (len_nonneg dropped). lia.
Qed.

Lemma wrap_loop_total fuel width chunks lines :
  1 ≤ width → (textwrap.weight chunks ≤ fuel)%nat →
  ∃ ls, textwrap.wrap_loop fuel width chunks lines = Some (lines ++ ls) ∧
        Forall (λ l, len l ≤ width) ls.
Proof.
  intros Hw. revert chunks lines. induction fuel as [|fuel IH]; intros chunks lines Hfuel.
  - destruct chunks as [|c chunks]; [|rewrite weight_cons in Hfuel; lia].
    exists []. by rewrite app_nil_r.
  - destruct chunks as [|c chunks]; [exists []; by rewrite app_nil_r|].
    cbn [textwrap.wrap_loop].
    destruct (textwrap.wrap_line width (c :: chunks) lines) as [chunks' lines'] eqn:Hline.
    apply wrap_line_progress in Hline as [Hlt Hlines]; [|done..].
    destruct (IH chunks' lines' ltac:(lia)) as (ls & -> & Hls).
    destruct Hlines as [->|(l & -> & Hl)].
    + by exists ls.
    + exists (l :: ls). rewrite <- app_assoc. split; [done|]. by constructor.
Qed.

(** [textwrap.wrap] never fails for a width of at least 1, and no line it
    returns is longer than the width. *)
Lemma textwrap_wrap_total text width :
  1 ≤ width →
  ∃ ls, textwrap.wrap text width = Some ls ∧ Forall (λ l, len l ≤ width) ls.
Proof.
  intros Hw. unfold textwrap.wrap, textwrap._wrap_chunks.
  destruct (Z.leb_spec width 0); [lia|].
  destruct (wrap_loop_total (textwrap.weight (textwrap._split_chunks text)) width
              (textwrap._split_chunks text) [] Hw ltac:(lia)) as (ls & -> & Hls).
  by exists ls.
Qed.

Lemma wrap_para_total para cpl :
  1 ≤ cpl →
  ∃ wrapped, wrap_para para cpl = Some wrapped ∧ wrapped ≠ [] ∧
             Forall (λ l, len l ≤ cpl) wrapped.
Proof.
  intros Hw. unfold wrap_para.
  destruct (textwrap_wrap_total para cpl Hw) as (ls & -> & Hls). simpl.
  case_bool_decide.
  - exists [[]]. split_and!; [done|done|]. repeat constructor. rewrite len_nil. lia.
  - by exists ls.
Qed.

Lemma wrap_para_nonempty para cpl wrapped :
  wrap_para para cpl = Some wrapped → wrapped ≠ [].
Proof.
  unfold wrap_para. destruct (textwrap.wrap para cpl); simpl; [|done].
  intros [= <-]. by case_bool_decide.
Qed.


(** ** Indexing *)

Lemma index_nonneg {A} (s : list A) i : 0 ≤ i → index s i = s !! Z.to_nat i.
Proof. intros Hi. unfold index. destruct (Z.ltb_spec i 0); [lia|done]. Qed.

Lemma index_of_nat {A} (s : list A) (i : nat) : index s (Z.of_nat i) = s !! i.
Proof. rewrite index_nonneg by lia. by rewrite Nat2Z.id. Qed.

Lemma index_last {A} (s : list A) x : index (s ++ [x]) (-1) = Some x.
Proof.
  unfold index. simpl. rewrite len_app, len_cons, len_nil.
  pose proof (len_nonneg s). destruct (Z.ltb_spec (len s + (1 + 0) + -1) 0); [lia|].
  replace (Z.to_nat (len s + (1 + 0) + -1)) with (length s) by (unfold len; lia).
  by rewrite list_lookup_middle.
Qed.

Lemma index_last_is_last {A} (s : list A) : s ≠ [] → index s (-1) = last s.
Proof.
  intros Hne. destruct (exists_last Hne) as (s' & x & ->).
  by rewrite index_last, last_snoc.
Qed.

Lemma index_Some_lt {A} (s : list A) i x : 0 ≤ i → index s i = Some x → i < len s.
Proof.
  intros Hi. rewrite index_nonneg by done. intros H%lookup_lt_Some. unfold len. lia.
Qed.

Lemma index_app_r {A} (s1 s2 : list A) j : 0 ≤ j → index (s1 ++ s2) (len s1 + j) = index s2 j.
Proof.
  intros Hj. pose proof (len_nonneg s1). rewrite !index_nonneg by lia.
  rewrite lookup_app_r by (unfold len; lia). f_equal. unfold len. lia.
Qed.

Lemma index_app_l {A} (s1 s2 : list A) j : 0 ≤ j < len s1 → index (s1 ++ s2) j = index s1 j.
Proof.
  intros Hj. rewrite !index_nonneg by lia. apply lookup_app_l. unfold len in Hj. lia.
Qed.

(** ** The forward walk writes what the layout lists *)

Lemma map_columns_spec w ps li col pc (m : gmap Z (Z * Z)) m' pc' :
  map_columns w ps li col pc m = (m', pc') →
  pc' = pc + len w ∧
  (∀ k, k < ps + pc ∨ ps + pc + len w ≤ k → m' !! k = m !! k) ∧
  (∀ j, 0 ≤ j < len w → m' !! (ps + pc + j) = Some (li, col + j)).
Proof.
  revert col pc m. induction w as [|c w IH]; intros col pc m; simpl.
  - intros [= <- <-]. rewrite len_nil. split_and!; [lia|done|intros; lia].
  - intros H. apply IH in H as (-> & Hout & Hin). rewrite len_cons.
    pose proof (len_nonneg w). split_and!; [lia|..].
    + intros k Hk. rewrite Hout by lia. apply lookup_insert_ne. lia.
    + intros j Hj. destruct (decide (j = 0)) as [->|Hj0].
      * rewrite Z.add_0_r, Hout by lia. rewrite Z.add_0_r. apply lookup_insert_eq.
      * replace (ps + pc + j) with (ps + (pc + 1) + (j - 1)) by lia.
        rewrite Hin by lia. do 2 f_equal. lia.
Qed.

Lemma map_wrapped_shape para ps wrapped lines (m : gmap Z (Z * Z)) li pc lines' m' li' :
  map_wrapped para ps wrapped lines m li pc = (lines', m', li') →
  lines' = lines ++ wrapped ∧ li' = li + len wrapped.
Proof.
  revert lines m li pc. induction wrapped as [|w wrapped IH]; intros lines m li pc; simpl.
  - intros [= <- <- <-]. rewrite app_nil_r, len_nil. split; [done|lia].
  - destruct (map_columns w ps li 0 pc m) as [m1 pc1].
    destruct (space_consumed para pc1); intros H; apply IH in H as [-> ->];
      rewrite <- app_assoc, len_cons; split; [done|lia|done|lia].
Qed.

Lemma map_wrapped_below para ps wrapped lines (m : gmap Z (Z * Z)) li pc lines' m' li' :
  map_wrapped para ps wrapped lines m li pc = (lines', m', li') →
  ∀ k, k < ps + pc → m' !! k = m !! k.
Proof.
  revert lines m li pc. induction wrapped as [|w wrapped IH]; intros lines m li pc; simpl.
  - by intros [= <- <- <-].
  - destruct (map_columns w ps li 0 pc m) as [m1 pc1] eqn:Hcols.
    apply map_columns_spec in Hcols as (-> & Hout & _).
    pose proof (len_nonneg w) as Hw.
    destruct (space_consumed para (pc + len w)); intros H k Hk;
      rewrite (IH _ _ _ _ H) by lia.
    + rewrite lookup_insert_ne by lia. apply Hout. lia.
    + apply Hout. lia.
Qed.

Lemma space_consumed_inside para pc :
  space_consumed para pc = true → pc < len para ∧ index para pc = Some SPACE.
Proof.
  unfold space_consumed. intros [H1 H2]%andb_prop. apply Z.ltb_lt in H1.
  by apply bool_decide_eq_true in H2.
Qed.

(** A line after which the walk finds a consumed space ends inside the
    paragraph, at that space. *)
Lemma para_layout_space para wrapped ps pc nl i v :
  0 ≤ pc →
  para_layout para wrapped ps pc nl !! i = Some v → v_space v = true →
  ps ≤ v_end v < ps + len para ∧ index para (v_end v - ps) = Some SPACE.
Proof.
  revert pc i. induction wrapped as [|w wrapped IH]; intros pc i Hpc; simpl; [done|].
  pose proof (len_nonneg w) as Hw.
  destruct i as [|i]; simpl.
  - intros [= <-]. unfold v_end. simpl. intros [H1 H2]%space_consumed_inside.
    replace (ps + pc + len w - ps) with (pc + len w) by lia. split; [lia|done].
  - apply IH. unfold next_char. destruct (space_consumed _ _); lia.
Qed.

Lemma para_layout_length para wrapped ps pc nl :
  length (para_layout para wrapped ps pc nl) = length wrapped.
Proof.
  revert pc. induction wrapped as [|w wrapped IH]; intros pc; simpl; [done|].
  by rewrite IH.
Qed.

Lemma len_para_layout para wrapped ps pc nl :
  len (para_layout para wrapped ps pc nl) = len wrapped.
Proof. unfold len. by rewrite para_layout_length. Qed.

Lemma para_layout_text para wrapped ps pc nl :
  map v_text (para_layout para wrapped ps pc nl) = wrapped.
Proof.
  revert pc. induction wrapped as [|w wrapped IH]; intros pc; simpl; [done|].
  by rewrite IH.
Qed.

(** The space the walk takes as consumed after a line is mapped to the end
    of that line. *)
Lemma map_wrapped_space para ps wrapped lines (m : gmap Z (Z * Z)) li pc nl lines' m' li' :
  map_wrapped para ps wrapped lines m li pc = (lines', m', li') →
  ∀ (i : nat) v, para_layout para wrapped ps pc nl !! i = Some v → v_space v = true →
    m' !! v_end v = Some (li + Z.of_nat i, len (v_text v)).
Proof.
  revert lines m li pc. induction wrapped as [|w wrapped IH]; intros lines m li pc; simpl.
  - by intros _ i v.
  - destruct (map_columns w ps li 0 pc m) as [m1 pc1] eqn:Hcols.
    apply map_columns_spec in Hcols as (-> & Hout & _).
    intros H [|i] v; simpl.
    + intros [= <-]. unfold v_end. simpl. intros Hsp. rewrite Hsp in H.
      rewrite (map_wrapped_below _ _ _ _ _ _ _ _ _ _ H) by lia.
      replace (ps + pc + len w) with (ps + (pc + len w)) by lia.
      rewrite lookup_insert_eq. do 2 f_equal. lia.
    + intros Hv Hsp. unfold next_char in Hv.
      destruct (space_consumed para (pc + len w));
        rewrite (IH _ _ _ _ H i v Hv Hsp); do 2 f_equal; lia.
Qed.

(** ** Paragraphs *)

Lemma split_nl_nonempty t : split_nl t ≠ [].
Proof. destruct t as [|c t]; simpl; [done|]. destruct (c =? NL)%N; [done|]. by destruct (split_nl t). Qed.

Lemma join_nl_cons para rest : rest ≠ [] → join_nl (para :: rest) = para ++ NL :: join_nl rest.
Proof. by destruct rest. Qed.

Lemma join_split_nl t : join_nl (split_nl t) = t.
Proof.
  induction t as [|c t IH]; simpl; [done|].
  pose proof (split_nl_nonempty t) as Hne.
  destruct (N.eqb_spec c NL) as [->|Hc].
  - rewrite join_nl_cons by done. simpl. by rewrite IH.
  - destruct (split_nl t) as [|p ps]; [done|].
    destruct ps as [|q ps]; simpl in *; by rewrite <- IH.
Qed.

Lemma span_join paragraphs : paragraphs ≠ [] → span paragraphs = len (join_nl paragraphs) + 1.
Proof.
  induction paragraphs as [|para rest IH]; [done|]. intros _.
  destruct rest as [|q rest]; [simpl; lia|].
  rewrite join_nl_cons by done. cbn [span] in *. rewrite len_app, len_cons, IH by done. lia.
Qed.

Lemma span_split_nl t : span (split_nl t) = len t + 1.
Proof. rewrite span_join by apply split_nl_nonempty. by rewrite join_split_nl. Qed.

Lemma span_nonneg paragraphs : 0 ≤ span paragraphs.
Proof. induction paragraphs as [|p ps IH]; simpl; [done|]. pose proof (len_nonneg p). lia. Qed.

(** The layout of a paragraph list, one paragraph at a time. *)
Lemma layout_cons cpl para rest text_pos lay :
  layout cpl (para :: rest) text_pos = Some lay ↔
  ∃ here later, here_layout cpl para text_pos (negb (bool_decide (rest = []))) = Some here ∧
                layout cpl rest (text_pos + len para + 1) = Some later ∧ lay = here ++ later.
Proof.
  cbn [layout].
  destruct (here_layout _ _ _ _) as [here|]; simpl.
  - destruct (layout cpl rest _) as [later|]; simpl.
    + split; [intros [= <-]; eauto|]. by intros (? & ? & [= <-] & [= <-] & ->).
    + split; [done|]. by intros (? & ? & _ & [=] & _).
  - split; [done|]. by intros (? & ? & [=] & _).
Qed.

Lemma here_layout_nonempty cpl para text_pos nl here :
  here_layout cpl para text_pos nl = Some here → here ≠ [].
Proof.
  unfold here_layout. case_bool_decide.
  - by intros [= <-].
  - destruct (wrap_para para cpl) as [wrapped|] eqn:Hw; simpl; [|done].
    intros [= <-]. apply wrap_para_nonempty in Hw.
    intros Heq%(f_equal length). rewrite para_layout_length in Heq. by destruct wrapped.
Qed.

(** With a width of at least 1 every text has a layout. *)
Lemma layout_total cpl paragraphs text_pos :
  1 ≤ cpl → ∃ lay, layout cpl paragraphs text_pos = Some lay.
Proof.
  intros Hcpl. revert text_pos. induction paragraphs as [|para rest IH]; intros text_pos.
  - by exists [].
  - destruct (IH (text_pos + len para + 1)) as [later Hlater].
    assert (∃ here, here_layout cpl para text_pos (negb (bool_decide (rest = []))) = Some here)
      as [here Hhere].
    { unfold here_layout. case_bool_decide; [eauto|].
      destruct (wrap_para_total para cpl Hcpl) as (wrapped & -> & _). simpl. eauto. }
    exists (here ++ later). apply layout_cons. eauto.
Qed.

Lemma layout_nonempty cpl paragraphs text_pos lay :
  paragraphs ≠ [] → layout cpl paragraphs text_pos = Some lay → lay ≠ [].
Proof.
  destruct paragraphs as [|para rest]; [done|]. intros _.
  intros (here & later & Hhere & _ & ->)%layout_cons.
  apply here_layout_nonempty in Hhere. by destruct here.
Qed.

(** What one paragraph does to the state of the forward walk. *)
Lemma wrap_paragraph_spec cpl n st p_idx para nl here :
  nl = (p_idx <? n - 1) →
  here_layout cpl para (w_para_start st) nl = Some here →
  ∃ m', wrap_paragraph cpl n st p_idx para =
          Some (mkWrap (w_lines st ++ map v_text here) m'
                       (w_line_idx st + len here) (w_para_start st + len para + 1)) ∧
        (∀ k, k < w_para_start st → m' !! k = w_char_to_pos st !! k) ∧
        (∀ (i : nat) v, here !! i = Some v → v_space v = true →
           v_end v < w_para_start st + len para ∧
           m' !! v_end v = Some (w_line_idx st + Z.of_nat i, len (v_text v))).
Proof.
  intros Hnl. unfold here_layout, wrap_paragraph. case_bool_decide as Hpara.
  - intros [= <-]. subst para. eexists. split; [|split].
    + unfold len. simpl. repeat f_equal; lia.
    + intros k Hk. destruct (p_idx <? n - 1); [|done]. apply lookup_insert_ne. lia.
    + intros [|[|i]] v; simpl; [|done..]. by intros [= <-].
  - destruct (wrap_para para cpl) as [wrapped|] eqn:Hw; simpl; [|done].
    intros [= <-].
    destruct (map_wrapped para (w_para_start st) wrapped (w_lines st) (w_char_to_pos st)
                (w_line_idx st) 0) as [[lines m] line_idx] eqn:Hmw.
    destruct (map_wrapped_shape _ _ _ _ _ _ _ _ _ _ Hmw) as [-> ->].
    pose proof (map_wrapped_below _ _ _ _ _ _ _ _ _ _ Hmw) as Hbelow.
    pose proof (map_wrapped_space _ _ _ _ _ _ _ nl _ _ _ Hmw) as Hspace.
    apply wrap_para_nonempty in Hw.
    rewrite para_layout_text, len_para_layout.
    pose proof (len_nonneg para) as Hp.
    destruct (p_idx <? n - 1).
    + destruct (exists_last Hw) as (wrapped' & w & ->).
      rewrite (app_assoc (w_lines st)), index_last. simpl. eexists. split; [done|]. split.
      * intros k Hk. rewrite lookup_insert_ne by lia. apply Hbelow. lia.
      * intros i v Hv Hsp.
        destruct (para_layout_space _ _ _ _ _ _ _ (Z.le_refl 0) Hv Hsp) as [Hin _].
        split; [lia|]. rewrite lookup_insert_ne by lia. by apply Hspace.
    + eexists. split; [done|]. split.
      * intros k Hk. apply Hbelow. lia.
      * intros i v Hv Hsp.
        destruct (para_layout_space _ _ _ _ _ _ _ (Z.le_refl 0) Hv Hsp) as [Hin _].
        split; [lia|]. by apply Hspace.
Qed.

(** What the paragraph loop does to the state of the forward walk. *)
Lemma wrap_paragraphs_spec cpl n paragraphs p_idx st lay :
  p_idx + len paragraphs = n →
  layout cpl paragraphs (w_para_start st) = Some lay →
  ∃ m', wrap_paragraphs cpl n paragraphs p_idx st =
          Some (mkWrap (w_lines st ++ map v_text lay) m'
                       (w_line_idx st + len lay) (w_para_start st + span paragraphs)) ∧
        (∀ k, k < w_para_start st → m' !! k = w_char_to_pos st !! k) ∧
        (∀ (i : nat) v, lay !! i = Some v → v_space v = true →
           m' !! v_end v = Some (w_line_idx st + Z.of_nat i, len (v_text v))).
Proof.
  revert p_idx st lay. induction paragraphs as [|para rest IH]; intros p_idx st lay Hn.
  - intros [= <-]. exists (w_char_to_pos st). simpl.
    rewrite app_nil_r, len_nil, !Z.add_0_r. by destruct st.
  - intros (here & later & Hhere & Hlater & ->)%layout_cons.
    rewrite len_cons in Hn.
    destruct (wrap_paragraph_spec cpl n st p_idx para _ here eq_refl) as (m1 & Hstep & Hb1 & Hs1).
    { rewrite <- Hhere. f_equal.
      destruct (Z.ltb_spec p_idx (n - 1)); case_bool_decide as Hrest; simpl; try done.
      - subst rest. rewrite len_nil in Hn. lia.
      - destruct rest; [done|]. rewrite len_cons in Hn. pose proof (len_nonneg rest). lia. }
    cbn [wrap_paragraphs]. rewrite Hstep. simpl.
    set (st1 := mkWrap _ _ _ _).
    destruct (IH (p_idx + 1) st1 later ltac:(lia) Hlater) as (m2 & Hrest & Hb2 & Hs2).
    rewrite Hrest. exists m2. subst st1. simpl in *.
    pose proof (len_nonneg para) as Hp.
    split; [|split].
    + rewrite map_app, app_assoc, len_app. f_equal. f_equal; lia.
    + intros k Hk. rewrite Hb2 by lia. by apply Hb1.
    + intros i v Hv Hsp. apply lookup_app_Some in Hv as [Hv|[Hlen Hv]].
      * destruct (Hs1 i v Hv Hsp) as [Hlt Hm]. rewrite Hb2 by lia. done.
      * rewrite (Hs2 _ v Hv Hsp). do 2 f_equal. unfold len. lia.
Qed.

Lemma wrap_layout_spec cpl t lay :
  layout cpl (split_nl t) 0 = Some lay →
  ∃ m, wrap_layout cpl t = Some (map v_text lay, m) ∧
       (∀ (i : nat) v, lay !! i = Some v → v_space v = true →
          m !! v_end v = Some (Z.of_nat i, len (v_text v))).
Proof.
  intros Hlay. unfold wrap_layout.
  destruct (wrap_paragraphs_spec cpl (len (split_nl t)) (split_nl t) 0 (mkWrap [] ∅ 0 0) lay
              ltac:(lia) Hlay) as (m & -> & _ & Hsp).
  exists m. simpl. split.
  - case_bool_decide as Hnil; [|done].
    apply layout_nonempty in Hlay; [|apply split_nl_nonempty]. by destruct lay.
  - intros i v Hv Hs. rewrite (Hsp i v Hv Hs). do 2 f_equal.
Qed.

(** ** The inverse walk reads the layout *)

Lemma pos_in_wrapped_hit para wrapped tc tp li pc nl (i : nat) v :
  para_layout para wrapped tp pc nl !! i = Some v →
  pos_in_wrapped para wrapped (li + Z.of_nat i) tc tp li pc =
    Return (v_start v + Z.min tc (len (v_text v))).
Proof.
  revert li pc i. induction wrapped as [|w wrapped IH]; intros li pc i Hv; [done|].
  cbn [pos_in_wrapped]. destruct i as [|i]; simpl in Hv.
  - injection Hv as <-. simpl. rewrite bool_decide_eq_true_2 by lia. done.
  - rewrite bool_decide_eq_false_2 by lia.
    replace (li + Z.of_nat (S i)) with (li + 1 + Z.of_nat i) by lia.
    by apply IH.
Qed.

Lemma pos_in_wrapped_miss para wrapped tl tc tp li pc :
  tl < li ∨ li + len wrapped ≤ tl →
  pos_in_wrapped para wrapped tl tc tp li pc = Continue (li + len wrapped).
Proof.
  revert li pc. induction wrapped as [|w wrapped IH]; intros li pc Htl; simpl.
  - rewrite len_nil. f_equal. lia.
  - rewrite len_cons in *. pose proof (len_nonneg wrapped).
    rewrite bool_decide_eq_false_2 by lia. rewrite IH by lia. f_equal. lia.
Qed.

Lemma pos_in_paragraphs_miss cpl paragraphs tl tc li tp lay :
  layout cpl paragraphs tp = Some lay →
  tl < li ∨ li + len lay ≤ tl →
  pos_in_paragraphs cpl paragraphs tl tc li tp =
    Some (Continue (li + len lay, tp + span paragraphs)).
Proof.
  revert li tp lay. induction paragraphs as [|para rest IH]; intros li tp lay.
  - intros [= <-] _. simpl. rewrite len_nil. do 3 f_equal; lia.
  - intros (here & later & Hhere & Hlater & ->)%layout_cons Htl.
    rewrite len_app in Htl. pose proof (len_nonneg here). pose proof (len_nonneg later).
    cbn [pos_in_paragraphs span]. unfold here_layout in Hhere. case_bool_decide as Hpara.
    + injection Hhere as <-. subst para. rewrite len_cons, len_nil in Htl.
      rewrite bool_decide_eq_false_2 by lia.
      rewrite len_nil, Z.add_0_r in Hlater.
      rewrite (IH _ _ _ Hlater) by lia. unfold len. simpl.
      do 3 f_equal; lia.
    + destruct (wrap_para para cpl) as [wrapped|]; simpl in *; [|done].
      injection Hhere as <-. rewrite len_para_layout in *.
      rewrite pos_in_wrapped_miss by lia.
      rewrite (IH _ _ _ Hlater) by lia. rewrite len_app, len_para_layout.
      do 3 f_equal; lia.
Qed.

Lemma pos_in_paragraphs_hit cpl paragraphs tc li tp lay (i : nat) v :
  layout cpl paragraphs tp = Some lay →
  lay !! i = Some v →
  pos_in_paragraphs cpl paragraphs (li + Z.of_nat i) tc li tp =
    Some (Return (v_start v + Z.min tc (len (v_text v)))).
Proof.
  revert li tp lay i. induction paragraphs as [|para rest IH]; intros li tp lay i.
  - by intros [= <-].
  - intros (here & later & Hhere & Hlater & ->)%layout_cons Hv.
    cbn [pos_in_paragraphs]. unfold here_layout in Hhere. case_bool_decide as Hpara.
    + injection Hhere as <-. subst para. destruct i as [|i]; simpl in Hv.
      * injection Hv as <-. rewrite bool_decide_eq_true_2 by lia. done.
      * rewrite bool_decide_eq_false_2 by lia.
        rewrite len_nil, Z.add_0_r in Hlater.
        replace (li + Z.of_nat (S i)) with (li + 1 + Z.of_nat i) by lia.
        by apply (IH _ _ _ _ Hlater).
    + destruct (wrap_para para cpl) as [wrapped|]; simpl in *; [|done].
      injection Hhere as <-.
      apply lookup_app_Some in Hv as [Hv|[Hlen Hv]].
      * by rewrite (pos_in_wrapped_hit _ _ _ _ _ _ _ _ _ Hv).
      * rewrite para_layout_length in *.
        rewrite pos_in_wrapped_miss by (unfold len; lia).
        replace (li + Z.of_nat i) with (li + len wrapped + Z.of_nat (i - length wrapped))
          by (unfold len; lia).
        by apply (IH _ _ _ _ Hlater).
Qed.

(** [_pos_from_line_col] on a line of the layout, and off it. *)
Lemma pos_from_line_col_hit self lines0 lay (i : nat) v tc :
  layout (chars_per_line self) (split_nl (text self)) 0 = Some lay →
  lay !! i = Some v →
  _pos_from_line_col self lines0 (Z.of_nat i) tc =
    Some (v_start v + Z.min tc (len (v_text v))).
Proof.
  intros Hlay Hv. unfold _pos_from_line_col.
  pose proof (pos_in_paragraphs_hit _ _ tc 0 _ _ _ _ Hlay Hv) as H.
  rewrite Z.add_0_l in H. by rewrite H.
Qed.

Lemma pos_from_line_col_miss self lines0 lay tl tc :
  layout (chars_per_line self) (split_nl (text self)) 0 = Some lay →
  tl < 0 ∨ len lay ≤ tl →
  _pos_from_line_col self lines0 tl tc = Some (len (text self)).
Proof.
  intros Hlay Htl. unfold _pos_from_line_col.
  by rewrite (pos_in_paragraphs_miss _ _ tl tc 0 0 _ Hlay) by lia.
Qed.

(** [_wrap_with_cursor] returns, with the lines of the layout. *)
Lemma wrap_with_cursor_total self :
  1 ≤ chars_per_line self →
  ∃ lay cursor_line cursor_col,
    layout (chars_per_line self) (split_nl (text self)) 0 = Some lay ∧ lay ≠ [] ∧
    _wrap_with_cursor self = Some (map v_text lay, cursor_line, cursor_col).
Proof.
  intros Hcpl.
  destruct (layout_total (chars_per_line self) (split_nl (text self)) 0 Hcpl) as [lay Hlay].
  destruct (wrap_layout_spec _ _ _ Hlay) as (m & Hwl & _).
  pose proof (layout_nonempty _ _ _ _ (split_nl_nonempty _) Hlay) as Hne.
  assert (∃ cell, find_cursor (text self) (cursor self) (map v_text lay) m = Some cell)
    as [[cl cc] Hcell].
  { assert (Hlast : ∃ x, index (map v_text lay) (-1) = Some x).
    { destruct (exists_last Hne) as (lay' & v & ->). rewrite map_app. simpl.
      rewrite index_last. eauto. }
    destruct Hlast as [x Hx]. unfold find_cursor. rewrite Hx. simpl.
    destruct (len (text self) <=? cursor self).
    - case_bool_decide; eauto.
    - destruct (m !! cursor self); eauto. }
  exists lay, cl, cc. split_and!; [done..|].
  unfold _wrap_with_cursor. rewrite Hwl. simpl. by rewrite Hcell.
Qed.


(** ** Past the last line *)

(** C10: with a width of at least 1, [_wrap_with_cursor] returns, and for
    every [target_line] at or past the number of visual lines it returned
    [_pos_from_line_col] returns [len(text)], whatever [target_col] (and
    whatever list is passed as [lines], which the source does not read). *)
Theorem pos_from_line_col_past_last_line (self : EtyperApp) :
  1 ≤ chars_per_line self →
  ∃ lines cursor_line cursor_col,
    _wrap_with_cursor self = Some (lines, cursor_line, cursor_col) ∧
    ∀ lines0 target_line target_col,
      len lines ≤ target_line →
      _pos_from_line_col self lines0 target_line target_col = Some (len (text self)).
Proof.
  intros Hcpl.
  destruct (wrap_with_cursor_total self Hcpl) as (lay & cl & cc & Hlay & _ & Hwrap).
  exists (map v_text lay), cl, cc. split; [done|].
  intros lines0 tl tc Htl. apply (pos_from_line_col_miss _ _ lay); [done|].
  right. unfold len in *. by rewrite length_map in Htl.
Qed.

Lemma pos_from_line_col_past_last_line_witness :
  _wrap_with_cursor hello_world = Some ([py "hello"; py "world"], 0, 0) ∧
  _pos_from_line_col hello_world [] 2 0 = Some 11 ∧
  _pos_from_line_col hello_world [] 7 3 = Some 11.
Proof.
  destruct (pos_from_line_col_past_last_line hello_world ltac:(simpl; lia))
    as (lines & cl & cc & Hwrap & Hpast).
  vm_compute in Hwrap. injection Hwrap as <- <- <-.
  split; [reflexivity|].
  split; apply Hpast; vm_compute; discriminate.
Defined.

(** ** The consumed space *)

Lemma layout_space_in_text cpl paragraphs tp lay (i : nat) v :
  layout cpl paragraphs tp = Some lay →
  lay !! i = Some v → v_space v = true →
  tp ≤ v_end v ∧ index (join_nl paragraphs) (v_end v - tp) = Some SPACE.
Proof.
  revert tp lay i. induction paragraphs as [|para rest IH]; intros tp lay i.
  - by intros [= <-].
  - intros (here & later & Hhere & Hlater & ->)%layout_cons Hv Hsp.
    pose proof (len_nonneg para) as Hp.
    apply lookup_app_Some in Hv as [Hv|[Hlen Hv]].
    + unfold here_layout in Hhere. case_bool_decide as Hpara.
      { injection Hhere as <-. destruct i as [|[|i]]; simpl in Hv; [|done..].
        injection Hv as <-. simpl in Hsp. done. }
      destruct (wrap_para para cpl) as [wrapped|]; simpl in *; [|done].
      injection Hhere as <-.
      destruct (para_layout_space _ _ _ _ _ _ _ (Z.le_refl 0) Hv Hsp) as [Hin Hidx].
      split; [lia|]. destruct rest as [|q rest]; [done|].
      rewrite index_app_l by lia. done.
    + destruct (IH _ _ _ Hlater Hv Hsp) as [Hle Hidx]. split; [lia|].
      assert (rest ≠ []) as Hrest by (intros ->; simpl in Hlater; by simplify_eq).
      rewrite join_nl_cons by done.
      replace (v_end v - tp) with (len para + (1 + (v_end v - (tp + len para + 1)))) by lia.
      rewrite index_app_r by lia.
      rewrite index_nonneg by lia.
      replace (Z.to_nat (1 + (v_end v - (tp + len para + 1))))
        with (S (Z.to_nat (v_end v - (tp + len para + 1)))) by lia.
      simpl. by rewrite <- index_nonneg by lia.
Qed.

(** Where the walk finds a consumed space after a line, the offset of that
    space maps to the line at the column of its length, and the inverse
    mapping at that cell gives the offset back. *)
Lemma walk_space_maps_to_line_end self lay cl cc (i : nat) v :
  layout (chars_per_line self) (split_nl (text self)) 0 = Some lay →
  _wrap_with_cursor self = Some (map v_text lay, cl, cc) →
  lay !! i = Some v → v_space v = true →
  index (text self) (v_end v) = Some SPACE ∧
  forward self (v_end v) = Some (Z.of_nat i, len (v_text v)) ∧
  inverse self (Z.of_nat i, len (v_text v)) = Some (v_end v).
Proof.
  intros Hlay Hwrap Hv Hsp.
  destruct (layout_space_in_text _ _ _ _ _ _ Hlay Hv Hsp) as [Hge Hidx].
  rewrite join_split_nl, Z.sub_0_r in Hidx.
  split; [done|]. split.
  - unfold forward, _wrap_with_cursor. simpl.
    destruct (wrap_layout_spec _ _ _ Hlay) as (m & -> & Hm). simpl.
    unfold find_cursor. apply index_Some_lt in Hidx; [|done].
    destruct (Z.leb_spec (len (text self)) (v_end v)); [lia|].
    by rewrite (Hm i v Hv Hsp).
  - unfold inverse. rewrite Hwrap. simpl.
    rewrite index_of_nat, list_lookup_fmap, Hv. simpl.
    rewrite (pos_from_line_col_hit _ _ _ _ _ _ Hlay Hv).
    unfold v_end. f_equal. lia.
Qed.

(** The layout of "hello world" at width 5 has such a line: "hello", whose
    consumed space is at offset 5. *)
Example hello_world_layout :
  layout 5 (split_nl (py "hello world")) 0 =
    Some [mkVline (py "hello") 0 true false; mkVline (py "world") 6 false false].
Proof. vm_compute. reflexivity. Qed.

(** C3 as stated fails: in "hello world" at width 5 the space after "hello"
    is consumed by the wrap, and the offset right after that space, 6, maps
    to column 0 of the next line, not to the end of the line before. *)
Lemma offset_after_consumed_space_is_next_line :
  index (py "hello world") 5 = Some SPACE ∧
  forward hello_world 5 = Some (0, 5) ∧
  forward hello_world 6 = Some (1, 0) ∧
  forward hello_world 6 ≠ Some (0, 5).
Proof. vm_compute. split_and!; congruence. Qed.


(** ** The viewport *)

(** C5: for a cursor line and a scroll offset that are not negative and a
    window of at least one line, the scroll offset after the adjustment in
    [render] has the cursor line inside the window and is not negative. *)
Theorem auto_scroll_keeps_cursor_visible (cursor_line scroll_offset visible : Z) :
  0 ≤ cursor_line → 0 ≤ scroll_offset → 1 ≤ visible →
  let new_offset := auto_scroll cursor_line scroll_offset visible in
  new_offset ≤ cursor_line < new_offset + visible ∧ 0 ≤ new_offset.
Proof.
  intros Hc Hs Hv. unfold auto_scroll.
  destruct (Z.ltb_spec cursor_line scroll_offset);
    [|destruct (Z.leb_spec (scroll_offset + visible) cursor_line)]; simpl; lia.
Qed.

Lemma auto_scroll_keeps_cursor_visible_witness :
  let new_offset := auto_scroll 25 3 19 in
  new_offset ≤ 25 < new_offset + 19 ∧ 0 ≤ new_offset.
Proof. apply (auto_scroll_keeps_cursor_visible 25 3 19); lia. Defined.

(** [render] sets the scroll offset to that adjustment for the cursor line
    [_wrap_with_cursor] reports, with the window of [lines_per_page]. *)
Lemma render_scroll_offset self lines cursor_line cursor_col :
  _wrap_with_cursor self = Some (lines, cursor_line, cursor_col) →
  ∃ img self',
    render self = Some (img, self') ∧
    self' = set_scroll_offset
              (auto_scroll cursor_line (scroll_offset self) (lines_per_page self)) self.
Proof. intros H. unfold render. rewrite H. simpl. eauto. Qed.

(** ** Saving *)

(** C9: [save_document] changes at most the dirty flag and the time of the
    last save among the fields of the application - text, cursor, path and
    scroll offset stay as they are - and with a path set it clears the flag
    and records the clock; with the path unset it changes nothing, in the
    application or in the files. *)
Theorem save_document_frame (self : EtyperApp) (w : World) :
  let self' := (save_document self w).1 in
  let w' := (save_document self w).2 in
  text self' = text self ∧ cursor self' = cursor self ∧
  doc_path self' = doc_path self ∧ scroll_offset self' = scroll_offset self ∧
  self' = set_last_save_time (last_save_time self') (set_dirty (dirty self') self) ∧
  (truthy (doc_path self) = true → dirty self' = false ∧ last_save_time self' = clock w) ∧
  (truthy (doc_path self) = false → self' = self ∧ w' = w).
Proof.
  unfold save_document. destruct self as [t c [[|ch p]|] r d l sh ct cpl lpp n so]; simpl;
    split_and!; try done; intros; done.
Qed.

(** ** Backspace *)

Lemma handle_key_edit keycode value self w :
  keycode = ecodes.KEY_BACKSPACE → value ≠ 0 →
  _handle_key keycode value self w = self1 ← edit_key keycode self; Some (self1, w).
Proof.
  intros -> Hv. unfold _handle_key.
  rewrite !bool_decide_eq_false_2 by done. simpl.
  destruct (Z.eqb_spec value 0); [done|]. by rewrite !andb_false_r.
Qed.

(** C6: on a press (or repeat) of Backspace, with the cursor at 0 nothing
    changes - text, cursor, dirty flag, and everything else; with the cursor
    behind a character, that character alone is deleted, the cursor moves
    back by one and the document is dirty. *)
Theorem backspace_deletes_before_cursor (self : EtyperApp) (w : World) (value : Z) :
  value ≠ 0 →
  (cursor self = 0 → _handle_key ecodes.KEY_BACKSPACE value self w = Some (self, w)) ∧
  (∀ before c after,
     text self = before ++ c :: after → cursor self = len before + 1 →
     ∃ self',
       _handle_key ecodes.KEY_BACKSPACE value self w = Some (self', w) ∧
       text self' = before ++ after ∧ cursor self' = cursor self - 1 ∧
       dirty self' = true).
Proof.
  intros Hv. rewrite (handle_key_edit _ _ _ _ eq_refl Hv). split.
  - intros Hc. unfold edit_key. rewrite !bool_decide_eq_false_2 by done.
    rewrite bool_decide_eq_true_2 by done. by rewrite Hc.
  - intros before c after Ht Hc. unfold edit_key.
    rewrite !bool_decide_eq_false_2 by done. rewrite bool_decide_eq_true_2 by done.
    pose proof (len_nonneg before) as Hb.
    destruct (Z.ltb_spec 0 (cursor self)); [|lia]. simpl. eexists. split; [done|].
    simpl. split_and!; [|done..].
    rewrite slice_to_take, slice_from_drop by lia. rewrite Ht, Hc.
    replace (Z.to_nat (len before + 1 - 1)) with (length before) by (unfold len; lia).
    replace (Z.to_nat (len before + 1)) with (S (length before)) by (unfold len; lia).
    rewrite take_app_length, drop_app_ge by lia.
    by replace (S (length before) - length before)%nat with 1%nat by lia.
Qed.

Lemma backspace_deletes_before_cursor_witness :
  _handle_key ecodes.KEY_BACKSPACE 1 hello_world empty_world = Some (hello_world, empty_world) ∧
  ∃ self',
    _handle_key ecodes.KEY_BACKSPACE 1 (set_cursor 5 hello_world) empty_world
      = Some (self', empty_world) ∧
    text self' = py "hell" ++ py " world" ∧ cursor self' = 5 - 1 ∧ dirty self' = true.
Proof.
  split.
  - apply (proj1 (backspace_deletes_before_cursor hello_world empty_world 1 ltac:(lia))).
    reflexivity.
  - apply (proj2 (backspace_deletes_before_cursor (set_cursor 5 hello_world) empty_world 1
                    ltac:(lia)) (py "hell") 111%N (py " world")); reflexivity.
Defined.


(** ** Switching documents *)

Lemma insert_sorted_perm x l : insert_sorted x l ≡ₚ x :: l.
Proof.
  induction l as [|y l IH]; simpl; [done|].
  destruct (str_leb x y); [done|]. rewrite IH. apply Permutation_swap.
Qed.

Lemma sorted_perm l : sorted l ≡ₚ l.
Proof.
  induction l as [|x l IH]; simpl; [done|].
  unfold sorted in *. by rewrite insert_sorted_perm, IH.
Qed.

Lemma child_name_join dir p f : child_name dir p = Some f → path_join dir f = p.
Proof.
  unfold child_name. case_bool_decide as Hpre; [|done].
  destruct Hpre as [rest ->]. rewrite drop_app_length.
  destruct (bool_decide (rest = []) || bool_decide (SLASH ∈ rest)) eqn:Hbad; [done|].
  intros [= <-]. apply orb_false_elim in Hbad as [_ Hslash].
  apply bool_decide_eq_false in Hslash. unfold path_join.
  destruct rest as [|c rest]; [done|].
  destruct (N.eqb_spec c SLASH) as [->|_]; [|done].
  exfalso. apply Hslash. by left.
Qed.

Lemma omap_join_sublist dir (l : list str) :
  map (path_join dir) (omap (child_name dir) l) `sublist_of` l.
Proof.
  induction l as [|p l IH]; simpl; [done|].
  destruct (child_name dir p) as [f|] eqn:Hf; simpl.
  - rewrite (child_name_join _ _ _ Hf). by apply sublist_skip.
  - by apply sublist_cons.
Qed.

Lemma fmap_sublist {A B} (f : A → B) (l1 l2 : list A) :
  l1 `sublist_of` l2 → map f l1 `sublist_of` map f l2.
Proof. induction 1; simpl; [done|by apply sublist_skip|by apply sublist_cons]. Qed.

(** The documents listed are files on storage, each listed once. *)
Lemma list_docs_sublist w :
  ∃ l, _list_docs w ≡ₚ l ∧ l `sublist_of` elements (dom (files w)).
Proof.
  unfold _list_docs. eexists. split.
  - rewrite sorted_perm. done.
  - etrans; [|apply (omap_join_sublist (DOCS_DIR w))].
    apply fmap_sublist, sublist_filter.
Qed.

Lemma list_docs_NoDup w : NoDup (_list_docs w).
Proof.
  destruct (list_docs_sublist w) as (l & -> & Hsub).
  eapply sublist_NoDup; [|done]. apply NoDup_elements.
Qed.

Lemma list_docs_stored w p : p ∈ _list_docs w → is_Some (files w !! p).
Proof.
  destruct (list_docs_sublist w) as (l & -> & Hsub). intros Hp.
  apply elem_of_dom, elem_of_elements. by eapply elem_of_sublist.
Qed.

Lemma list_docs_nonempty_path w p : p ∈ _list_docs w → p ≠ [].
Proof.
  unfold _list_docs. intros (f & -> & Hf)%list_elem_of_fmap.
  rewrite sorted_perm in Hf. apply list_elem_of_filter in Hf as [_ Hf].
  unfold listdir in Hf. apply list_elem_of_omap in Hf as (k & _ & Hk).
  rewrite (child_name_join _ _ _ Hk).
  unfold child_name in Hk. case_bool_decide as Hpre; [|done].
  destruct Hpre as [rest ->]. rewrite drop_app_length in Hk.
  destruct rest; [done|]. by destruct (dir_prefix (DOCS_DIR w)).
Qed.

(** Saving a document that is already on storage leaves the list as it is. *)
Lemma list_docs_save self w :
  (∀ p, doc_path self = Some p → is_Some (files w !! p)) →
  _list_docs (save_document self w).2 = _list_docs w.
Proof.
  intros Hstored. unfold save_document.
  destruct (doc_path self) as [[|c p]|] eqn:Hpath; [done| |done].
  unfold _list_docs, listdir. simpl. rewrite dom_insert_L.
  rewrite subseteq_union_1_L; [done|].
  apply singleton_subseteq_l, elem_of_dom. by apply Hstored.
Qed.

Lemma list_index_last docs p :
  NoDup (docs ++ [p]) → list_index (Some p) (docs ++ [p]) = Some (len docs).
Proof.
  induction docs as [|d docs IH]; simpl.
  - intros _. by rewrite bool_decide_eq_true_2.
  - intros [Hd Hnd]%NoDup_cons. rewrite bool_decide_eq_false_2.
    + rewrite IH by done. simpl. f_equal. rewrite len_cons. lia.
    + intros [= ->]. apply Hd. apply elem_of_app. right. by left.
Qed.

(** C7 (as amended): when the open document is the last of the sorted list,
    switching to the next one does not fail and does exactly what saving
    does: text, cursor and path stay, and the dirty flag is cleared; the
    same holds for switching to the previous one from the first. *)
Theorem switch_at_boundary_only_saves (self : EtyperApp) (w : World) (p : str) :
  doc_path self = Some p →
  (last (_list_docs w) = Some p →
   ∃ self' w', _switch_document 1 self w = Some (self', w') ∧
     (self', w') = save_document self w ∧
     text self' = text self ∧ cursor self' = cursor self ∧
     doc_path self' = doc_path self ∧ dirty self' = false) ∧
  (head (_list_docs w) = Some p →
   ∃ self' w', _switch_document (-1) self w = Some (self', w') ∧
     (self', w') = save_document self w ∧
     text self' = text self ∧ cursor self' = cursor self ∧
     doc_path self' = doc_path self ∧ dirty self' = false).
Proof.
  intros Hpath.
  assert (Hin : ∀ docs, _list_docs w = docs → p ∈ docs →
            _list_docs (save_document self w).2 = docs ∧
            ∃ self' w', save_document self w = (self', w') ∧
              text self' = text self ∧ cursor self' = cursor self ∧
              doc_path self' = doc_path self ∧ dirty self' = false).
  { intros docs <- Hp. split.
    - apply list_docs_save. intros q Hq. rewrite Hpath in Hq. injection Hq as <-.
      by apply list_docs_stored.
    - apply list_docs_nonempty_path in Hp. unfold save_document. rewrite Hpath.
      destruct p as [|c p]; [done|]. eexists _, _. split; [done|]. by split_and!. }
  split.
  - intros Hlast. apply last_Some in Hlast as [docs Hdocs].
    destruct (Hin _ Hdocs) as (Hsaved & self' & w' & Hsave & Hfields).
    { apply elem_of_app. right. by left. }
    exists self', w'. split; [|by rewrite Hsave].
    unfold _switch_document. rewrite Hsave in *. simpl in Hsaved. rewrite Hsaved.
    rewrite bool_decide_eq_false_2 by (by destruct docs).
    replace (doc_path self') with (Some p) by (by rewrite <- Hpath; destruct Hfields as (_&_&->&_)).
    rewrite list_index_last by (rewrite <- Hdocs; apply list_docs_NoDup).
    assert (((len docs + 1 <? 0) || (len (docs ++ [p]) <=? len docs + 1)) = true) as ->; [|done].
    apply orb_true_intro. right. apply Z.leb_le. unfold len. rewrite length_app. simpl. lia.
  - intros Hhead. destruct (_list_docs w) as [|d docs] eqn:Hdocs; [done|].
    injection Hhead as ->.
    destruct (Hin _ eq_refl) as (Hsaved & self' & w' & Hsave & Hfields); [by left|].
    exists self', w'. split; [|by rewrite Hsave].
    unfold _switch_document. rewrite Hsave in *. simpl in Hsaved. rewrite Hsaved.
    rewrite bool_decide_eq_false_2 by done.
    replace (doc_path self') with (Some p) by (by rewrite <- Hpath; destruct Hfields as (_&_&->&_)).
    simpl. by rewrite bool_decide_eq_true_2.
Qed.

Lemma switch_at_boundary_only_saves_witness :
  (∃ self' w', _switch_document 1 second_doc_edited two_docs = Some (self', w') ∧
     (self', w') = save_document second_doc_edited two_docs ∧
     text self' = text second_doc_edited ∧ cursor self' = cursor second_doc_edited ∧
     doc_path self' = doc_path second_doc_edited ∧ dirty self' = false) ∧
  (∃ self' w', _switch_document (-1) first_doc_open two_docs = Some (self', w') ∧
     (self', w') = save_document first_doc_open two_docs ∧
     text self' = text first_doc_open ∧ cursor self' = cursor first_doc_open ∧
     doc_path self' = doc_path first_doc_open ∧ dirty self' = false).
Proof.
  split.
  - apply (proj1 (switch_at_boundary_only_saves second_doc_edited two_docs
                    (py "/home/user/etyper_docs/doc_20260102_090000.txt") eq_refl)).
    vm_compute. reflexivity.
  - apply (proj2 (switch_at_boundary_only_saves first_doc_open two_docs
                    (py "/home/user/etyper_docs/doc_20260101_090000.txt") eq_refl)).
    vm_compute. reflexivity.
Defined.

(** C7 as stated fails for the dirty flag: the open document is the last of
    the list and has unsaved edits; after the switch to the next one it is
    no longer dirty. *)
Lemma switch_at_last_clears_dirty :
  last (_list_docs two_docs) = doc_path second_doc_edited ∧
  dirty second_doc_edited = true ∧
  (dirty ∘ fst) <$> _switch_document 1 second_doc_edited two_docs = Some false.
Proof. vm_compute. done. Qed.


(** ** The main loop and the display *)

Lemma check_autosave_display self w :
  epd_log (_check_autosave self w).2 = epd_log w ∧
  ctrl_held (_check_autosave self w).1 = ctrl_held self.
Proof.
  unfold _check_autosave, save_document.
  destruct (dirty self && _); [|done]. by destruct (doc_path self) as [[|c p]|].
Qed.

Lemma cursor_up_ctrl self self' : _cursor_up self = Some self' → ctrl_held self' = ctrl_held self.
Proof.
  unfold _cursor_up. destruct (_wrap_with_cursor self) as [[[lines cl] cc]|]; simpl; [|done].
  case_bool_decide; [by intros [= <-]|].
  destruct (index lines (cl - 1)); simpl; [|done].
  destruct (_pos_from_line_col _ _ _ _); simpl; [|done]. by intros [= <-].
Qed.

Lemma cursor_down_ctrl self self' :
  _cursor_down self = Some self' → ctrl_held self' = ctrl_held self.
Proof.
  unfold _cursor_down. destruct (_wrap_with_cursor self) as [[[lines cl] cc]|]; simpl; [|done].
  destruct (len lines - 1 <=? cl); [by intros [= <-]|].
  destruct (index lines (cl + 1)); simpl; [|done].
  destruct (_pos_from_line_col _ _ _ _); simpl; [|done]. by intros [= <-].
Qed.

(** The editing keys leave the Ctrl state alone. *)
Lemma edit_key_ctrl keycode self self' :
  edit_key keycode self = Some self' → ctrl_held self' = ctrl_held self.
Proof.
  unfold edit_key.
  repeat (case_bool_decide;
          [try (destruct (_ <? _); by intros [= <-]); try by intros [= <-]|]).
  - destruct (_cursor_up self) as [s|] eqn:Hs; simpl; [|done].
    intros [= <-]. simpl. by eapply cursor_up_ctrl.
  - destruct (_cursor_down self) as [s|] eqn:Hs; simpl; [|done].
    intros [= <-]. simpl. by eapply cursor_down_ctrl.
  - destruct (_wrap_with_cursor self) as [[[lines cl] cc]|]; simpl; [|done].
    destruct (_pos_from_line_col _ _ _ _); simpl; [|done]. by intros [= <-].
  - destruct (_wrap_with_cursor self) as [[[lines cl] cc]|]; simpl; [|done].
    destruct (index lines cl); simpl; [|done].
    destruct (_pos_from_line_col _ _ _ _); simpl; [|done]. by intros [= <-].
  - destruct (keymap_get keycode) as [[normal shifted]|]; by intros [= <-].
Qed.

(** Without Ctrl held, a key that is not Ctrl touches neither the display
    nor the files, and leaves Ctrl not held. *)
Lemma handle_key_without_ctrl keycode value self w self' w' :
  ctrl_held self = false → no_ctrl_key (ecodes.EV_KEY, keycode, value) = true →
  _handle_key keycode value self w = Some (self', w') →
  w' = w ∧ ctrl_held self' = false.
Proof.
  intros Hctrl [Hl Hr]%andb_prop.
  apply negb_true_iff, bool_decide_eq_false in Hl, Hr. simpl in Hl, Hr.
  unfold _handle_key. rewrite Hctrl. simpl.
  destruct (_ || _); [by intros [= <- <-]|].
  rewrite (bool_decide_eq_false_2 _ Hl), (bool_decide_eq_false_2 _ Hr). simpl.
  destruct (value =? 0); [by intros [= <- <-]|].
  destruct (edit_key keycode self) as [s|] eqn:Hs; simpl; [|done].
  intros [= <- <-]. split; [done|]. by rewrite (edit_key_ctrl _ _ _ Hs).
Qed.

Lemma handle_events_without_ctrl events self w self' w' :
  ctrl_held self = false → forallb no_ctrl_key events = true →
  handle_events events self w = Some (self', w') →
  w' = w ∧ ctrl_held self' = false.
Proof.
  revert self. induction events as [|[[type code] value] events IH]; intros self Hctrl; simpl.
  - by intros _ [= <- <-].
  - intros [Hev Hrest]%andb_prop. case_bool_decide; [|by apply IH].
    destruct (_handle_key code value self w) as [[s1 w1]|] eqn:Hkey; simpl; [|done].
    destruct (handle_key_without_ctrl _ _ _ _ _ _ Hctrl Hev Hkey) as [-> Hctrl1].
    by apply IH.
Qed.

Lemma pass_without_ctrl_partial p self w self' w' :
  ctrl_held self = false → pass_without_ctrl p = true →
  main_loop_pass p.2 self w = Some (self', w') →
  ctrl_held self' = false ∧
  ∃ calls, epd_log w' = epd_log w ++ calls ∧ forallb is_partial calls = true.
Proof.
  intros Hctrl. unfold pass_without_ctrl, main_loop_pass. destruct p.2 as [|events|]; simpl.
  - intros _ [= Heq].
    destruct (check_autosave_display self w) as [Hlog Hc]. rewrite Heq in *. simpl in *.
    split; [congruence|]. exists []. by rewrite app_nil_r.
  - intros Hev.
    destruct (handle_events events self w) as [[s1 w1]|] eqn:Hevents; simpl; [|done].
    destruct (handle_events_without_ctrl _ _ _ _ _ Hctrl Hev Hevents) as [-> Hctrl1].
    destruct (needs_display_update s1).
    + destruct (render s1) as [[img s2]|] eqn:Hrender; simpl; [|done].
      assert (ctrl_held s2 = false) as Hctrl2.
      { unfold render in Hrender.
        destruct (_wrap_with_cursor s1) as [[[lines cl] cc]|]; simpl in Hrender; [|done].
        injection Hrender as _ <-. done. }
      intros [= Heq].
      destruct (check_autosave_display (set_needs_display_update false s2)
                  (epd (epd_display_image_partial img) w)) as [Hlog Hc].
      rewrite Heq in *. simpl in *. split; [congruence|]. eexists. split; [done|]. done.
    + simpl. intros [= Heq].
      destruct (check_autosave_display s1 w) as [Hlog Hc]. rewrite Heq in *. simpl in *.
      split; [congruence|]. exists []. by rewrite app_nil_r.
  - intros _ [= <- <-]. split; [done|]. exists []. by rewrite app_nil_r.
Qed.

(** C8 (what the code does): through any run of the main loop in which no
    Ctrl key is pressed - the keyboard idle or typing, the clock reading
    whatever it does at each pass - the display is only ever sent partial
    refreshes: ordinary edits push a partial frame, and no step of the loop
    pushes a full refresh because time has passed. *)
Theorem loop_without_ctrl_only_partial_refreshes
    (passes : list (Z * poll)) (self : EtyperApp) (w : World) (self' : EtyperApp) (w' : World) :
  ctrl_held self = false → forallb pass_without_ctrl passes = true →
  _main_loop passes self w = Some (self', w') →
  ∃ calls, epd_log w' = epd_log w ++ calls ∧ forallb is_partial calls = true.
Proof.
  revert self w. induction passes as [|[now p] passes IH]; intros self w Hctrl; simpl.
  - intros _ [= <- <-]. exists []. by rewrite app_nil_r.
  - intros [Hp Hrest]%andb_prop.
    destruct (running self); [|intros [= <- <-]; exists []; by rewrite app_nil_r].
    destruct (main_loop_pass p self (set_clock now w)) as [[s1 w1]|] eqn:Hpass; simpl; [|done].
    destruct (pass_without_ctrl_partial (now, p) _ _ _ _ Hctrl Hp Hpass)
      as (Hctrl1 & calls1 & Hlog1 & Hpart1).
    intros Hrun. destruct (IH _ _ Hctrl1 Hrest Hrun) as (calls2 & Hlog2 & Hpart2).
    exists (calls1 ++ calls2). split.
    + rewrite Hlog2, Hlog1. simpl. by rewrite app_assoc.
    + rewrite forallb_app. by rewrite Hpart1, Hpart2.
Qed.

Lemma loop_without_ctrl_only_partial_refreshes_witness :
  ∃ self' w',
    _main_loop six_minutes (set_text [] hello_world) empty_world = Some (self', w') ∧
    text self' = py "a" ∧
    ∃ calls, epd_log w' = epd_log empty_world ++ calls ∧ forallb is_partial calls = true.
Proof.
  destruct (_main_loop six_minutes (set_text [] hello_world) empty_world)
    as [[self' w']|] eqn:Hrun; [|by vm_compute in Hrun].
  exists self', w'. split; [done|]. split.
  - vm_compute in Hrun. by injection Hrun as <- _.
  - apply (loop_without_ctrl_only_partial_refreshes six_minutes (set_text [] hello_world)
             empty_world self' w'); [reflexivity|reflexivity|exact Hrun].
Defined.

(** What such a run sends: one partial refresh, for the key typed. *)
Example six_minutes_display :
  (λ r, epd_log r.2) <$> _main_loop six_minutes (set_text [] hello_world) empty_world
  = Some [epd_display_image_partial
            (Page (mkPage [py "a"] (Some (0, 1)) (true, py "untitled", 1, 2, 1)))].
Proof. vm_compute. reflexivity. Qed.

(** ** The cursor and tabs *)

(** C4 (what the code does): in a document holding a tab, End leaves the
    cursor past the end of the text.  The text is "a<TAB>b", three
    characters; [textwrap] expands the tab, the one visual line is nine
    characters long, and End puts the cursor at 9. *)
Theorem end_key_leaves_text_with_tab :
  let self := tab_document in
  0 ≤ cursor self ≤ len (text self) ∧
  _wrap_with_cursor self = Some ([py "a       b"], 0, 0) ∧
  (λ r, cursor r.1) <$> _handle_key ecodes.KEY_END 1 self empty_world = Some 9 ∧
  len (text self) = 3.
Proof. vm_compute. split_and!; congruence || done. Qed.


(** ** [textwrap.wrap] on a plain paragraph *)

Lemma in_whitespace_isspace c : textwrap.in_whitespace c = true → isspace c = true.
Proof.
  unfold textwrap.in_whitespace, isspace.
  rewrite !orb_true_iff, !andb_true_iff, !N.leb_le, !N.eqb_eq. lia.
Qed.

Lemma word_char_not_whitespace c : isspace c = false → textwrap.in_whitespace c = false.
Proof.
  intros Hc. destruct (textwrap.in_whitespace c) eqn:Hw; [|done].
  apply in_whitespace_isspace in Hw. congruence.
Qed.

Lemma word_char_not_space c : isspace c = false → c ≠ SPACE.
Proof. by intros Hc ->. Qed.

Lemma word_not_stripped w : is_word w → strip_is_empty w = false.
Proof.
  intros [Hne Hw]. destruct w as [|c w]; [done|]. simpl.
  apply Forall_cons in Hw as [-> _]. done.
Qed.

Lemma spaced_words_chars p iw :
  spaced_words p iw = true → Forall (λ c, isspace c = false ∨ c = SPACE) p.
Proof.
  revert iw. induction p as [|c p IH]; intros iw; simpl; [done|].
  destruct (isspace c) eqn:Hc.
  - intros [[Hsp _]%andb_prop Hrest]%andb_prop. apply N.eqb_eq in Hsp.
    constructor; [by right|by eapply IH].
  - intros Hrest. constructor; [by left|by eapply IH].
Qed.

Lemma expandtabs_plain tabsize col p :
  Forall (λ c, isspace c = false ∨ c = SPACE) p → textwrap.expandtabs_from tabsize col p = p.
Proof.
  revert col. induction p as [|c p IH]; intros col Hp; simpl; [done|].
  apply Forall_cons in Hp as [Hc Hp].
  destruct (N.eqb_spec c TAB) as [->|_]; [by destruct Hc|].
  destruct ((c =? NL)%N || (c =? CR)%N); by rewrite IH.
Qed.

Lemma munge_plain p :
  Forall (λ c, isspace c = false ∨ c = SPACE) p → textwrap._munge_whitespace p = p.
Proof.
  intros Hp. unfold textwrap._munge_whitespace, textwrap.expandtabs.
  rewrite expandtabs_plain by done. unfold textwrap.translate_whitespace.
  induction Hp as [|c p Hc Hp IH]; simpl; [done|]. rewrite IH. f_equal.
  destruct Hc as [Hc| ->]; [|done]. by rewrite word_char_not_whitespace.
Qed.

Lemma concat_split p : concat (textwrap._split p) = p.
Proof.
  induction p as [|c p IH]; simpl; [done|].
  destruct (textwrap._split p) as [|[|d r] chunks]; simpl in *; try by rewrite IH.
  destruct (Bool.eqb _ _); simpl; by rewrite IH.
Qed.

Lemma words_first_head chunks :
  words_first chunks →
  ∃ d r rest, chunks = (d :: r) :: rest ∧ isspace d = false ∧ is_word (d :: r).
Proof.
  intros H. destruct H as [w Hw|w rest Hw _]; destruct w as [|d r]; try (by destruct Hw);
    exists d, r; eexists; (split; [reflexivity|]); (split; [|done]);
    destruct Hw as [_ Hall]; by apply Forall_cons in Hall as [Hd _].
Qed.

Lemma word_cons c w : isspace c = false → is_word w → is_word (c :: w).
Proof. intros Hc [_ Hw]. split; [done|]. by constructor. Qed.

(** The chunks of a plain paragraph: words and single spaces in turn. *)
Lemma split_plain p iw :
  spaced_words p iw = true → p ≠ [] →
  words_first (textwrap._split p) ∨
  (iw = true ∧ ∃ chunks, textwrap._split p = [SPACE] :: chunks ∧ words_first chunks).
Proof.
  revert iw. induction p as [|c p IH]; intros iw Hp Hne; [done|]. clear Hne. simpl in Hp.
  cbn [textwrap._split]. destruct (isspace c) eqn:Hc.
  - apply andb_prop in Hp as [[->%N.eqb_eq ->]%andb_prop Hp]. right. split; [done|].
    destruct p as [|d p]; [done|].
    destruct (IH false Hp ltac:(done)) as [Hw|[[=] _]].
    destruct (words_first_head _ Hw) as (d0 & r & rest & Heq & Hd0 & _).
    rewrite Heq in *. rewrite (word_char_not_whitespace d0) by done. simpl. eauto.
  - left. destruct p as [|d p].
    + simpl. constructor. split; [done|]. by repeat constructor.
    + destruct (IH true Hp ltac:(done)) as [Hw|[_ (chunks & Heq & Hw)]].
      * destruct (words_first_head _ Hw) as (d0 & r & rest & Heq & Hd0 & Hword).
        rewrite Heq in *. rewrite (word_char_not_whitespace c), (word_char_not_whitespace d0) by done.
        simpl. inversion Hw; subst; constructor; auto using word_cons.
      * rewrite Heq. rewrite (word_char_not_whitespace c) by done. simpl.
        constructor; [|done]. split; [done|]. by repeat constructor.
Qed.

Lemma words_first_last chunks : words_first chunks → ∃ l w, chunks = l ++ [w] ∧ is_word w.
Proof.
  induction 1 as [w Hw|w chunks Hw _ (l & w' & -> & Hw')].
  - by exists [], w.
  - by exists (w :: [SPACE] :: l), w'.
Qed.

Lemma words_first_nonempty chunks : words_first chunks → chunks ≠ [].
Proof. by intros []. Qed.

(** Where a stack of words and spaces can be cut. *)
Lemma words_first_split popped chunks2 :
  words_first (popped ++ chunks2) →
  (popped = [] ∧ words_first chunks2) ∨
  (chunks2 = [] ∧ words_first popped) ∨
  (words_first popped ∧ ∃ chunks, chunks2 = [SPACE] :: chunks ∧ words_first chunks) ∨
  (∃ pp, popped = pp ++ [[SPACE]] ∧ words_first pp ∧ words_first chunks2).
Proof.
  intros H. remember (popped ++ chunks2) as all eqn:Hall. revert popped Hall.
  induction H as [w Hw|w chunks Hw Hchunks IH]; intros popped Hall.
  - destruct popped as [|p popped]; simpl in Hall.
    + left. subst. split; [done|]. by constructor.
    + injection Hall as <- Hall. symmetry in Hall. apply app_eq_nil in Hall as [-> ->].
      right. left. split; [done|]. by constructor.
  - destruct popped as [|p popped]; simpl in Hall.
    + left. subst. split; [done|]. by constructor.
    + injection Hall as <- Hall. destruct popped as [|s popped]; simpl in Hall.
      * right. right. left. split; [by constructor|]. subst. eauto.
      * injection Hall as <- Hall.
        destruct (IH _ Hall) as [[-> Hc]|[[-> Hp]|[(Hp & cs & -> & Hcs)|(pp & -> & Hpp & Hc)]]].
        -- right. right. right. exists [w]. split; [done|]. split; [by constructor|done].
        -- right. left. split; [done|]. by constructor.
        -- right. right. left. split; [by constructor|]. eauto.
        -- right. right. right. exists (w :: [SPACE] :: pp). split; [done|].
           split; [by constructor|done].
Qed.

Lemma word_take_drop n w :
  is_word w → (n < length w)%nat →
  Forall (λ c, isspace c = false) (take n w) ∧ is_word (drop n w).
Proof.
  intros [_ Hw] Hn. split; [by apply Forall_take|]. split; [|by apply Forall_drop].
  intros Hd%(f_equal length). rewrite length_drop in Hd. simpl in Hd. lia.
Qed.

(** The strip of the last chunk of a line, when that chunk is a piece of a
    word: it goes only if it is empty. *)
Lemma strip_word_piece (cl : list str) piece :
  Forall (λ c, isspace c = false) piece →
  ∃ cur_line3,
    match last (cl ++ [piece]) with
    | Some c => if strip_is_empty c then removelast (cl ++ [piece]) else cl ++ [piece]
    | None => cl ++ [piece]
    end = cur_line3 ∧
    concat cur_line3 = concat cl ++ piece ∧
    (cur_line3 = [] → cl = [] ∧ piece = []).
Proof.
  intros Hp. rewrite last_snoc. destruct piece as [|c piece].
  - simpl. rewrite removelast_last. exists cl. by rewrite app_nil_r.
  - apply Forall_cons in Hp as [Hc _]. simpl. rewrite Hc. simpl. eexists. split; [done|].
    split; [by rewrite concat_app; simpl; rewrite app_nil_r|]. by destruct cl.
Qed.

Lemma concat_words_head chunks : words_first chunks → head (concat chunks) ≠ Some SPACE.
Proof.
  intros (d & r & rest & -> & Hd & _)%words_first_head. simpl.
  intros [= ->]. done.
Qed.

(** One pass over a stack of words and spaces: the line it adds, and how
    the rest of the paragraph follows that line. *)
Lemma wrap_line_plain width chunks lines chunks' lines' :
  1 ≤ width → words_first chunks →
  textwrap.wrap_line width chunks lines = (chunks', lines') →
  ∃ line, lines' = lines ++ [line] ∧
    ((chunks' = [] ∧ concat chunks = line) ∨
     (words_first chunks' ∧ concat chunks = line ++ concat chunks') ∨
     (words_first chunks' ∧ concat chunks = line ++ SPACE :: concat chunks') ∨
     (∃ cs, chunks' = [SPACE] :: cs ∧ words_first cs ∧
            concat chunks = line ++ SPACE :: concat cs)).
Proof.
  intros Hw Hchunks. unfold textwrap.wrap_line.
  set (chunks1 := match chunks with [] => chunks | top :: rest => _ end).
  assert (chunks1 = chunks) as ->.
  { subst chunks1. destruct (words_first_head _ Hchunks) as (d & r & rest & -> & Hd & Hword).
    by rewrite (word_not_stripped _ Hword). }
  destruct (textwrap.fill_line width chunks [] 0) as [[chunks2 cur_line] cur_len] eqn:Hfill.
  apply fill_line_spec in Hfill as (popped & -> & Hcl & -> & Hle & Htop).
  simpl in Hcl. subst cur_line. specialize (Hle ltac:(lia)). rewrite Z.add_0_l in *.
  pose proof (len_nonneg (concat popped)) as Hp0.
  apply words_first_split in Hchunks
    as [[-> Hc2]|[[-> Hp]|[(Hp & cs & -> & Hcs)|(pp & -> & Hpp & Hc2)]]].
  - (* nothing fits: the first word is longer than the width *)
    destruct (words_first_head _ Hc2) as (d2 & r2 & rest2 & -> & _ & Hword2).
    simpl in Htop. rewrite len_nil, Z.add_0_l in Htop.
    destruct (Z.ltb_spec width (len (d2 :: r2))) as [_|]; [|lia].
    unfold textwrap._handle_long_word. destruct (Z.ltb_spec width 1); [lia|].
    simpl concat. rewrite len_nil, Z.sub_0_r.
    rewrite slice_from_drop, slice_to_take by lia.
    destruct (word_take_drop (Z.to_nat width) _ Hword2) as [Hpiece Hrem];
      [unfold len in Htop; lia|].
    destruct (strip_word_piece [] _ Hpiece) as (cl3 & Hcl3 & Hcat & Hnil).
    simpl in Hcl3. rewrite Hcl3.
    intros [= <- <-]. simpl in Hcat. rewrite bool_decide_eq_false_2.
    + eexists. split; [done|]. right. left. split.
      * inversion Hc2; subst; by constructor.
      * rewrite Hcat. simpl. rewrite app_assoc, take_drop. done.
    + intros Hemp. rewrite ?Hcl3 in Hemp. destruct (Hnil Hemp) as [_ Htake].
      apply (f_equal length) in Htake. rewrite length_take in Htake.
      unfold len in Htop. simpl in *. lia.
  - (* everything fits *)
    rewrite app_nil_r in *.
    destruct (words_first_last _ Hp) as (l & w & -> & Hword').
    rewrite last_snoc, (word_not_stripped _ Hword').
    intros [= <- <-]. rewrite bool_decide_eq_false_2 by (by destruct l).
    eexists. split; [done|]. by left.
  - (* the line ends with a word, before a space *)
    destruct (Z.ltb_spec width (len [SPACE])) as [Hlong|_];
      [rewrite len_cons, len_nil in Hlong; lia|].
    destruct (words_first_last _ Hp) as (l & w & -> & Hword').
    rewrite last_snoc, (word_not_stripped _ Hword').
    intros [= <- <-]. rewrite bool_decide_eq_false_2 by (by destruct l).
    eexists. split; [done|]. right. right. right. exists cs.
    split_and!; [done..|]. rewrite !concat_app. simpl. by rewrite <- !app_assoc.
  - (* the line ends with a space, before a word *)
    destruct (words_first_head _ Hc2) as (d2 & r2 & rest2 & -> & _ & Hword2).
    destruct (Z.ltb_spec width (len (d2 :: r2))) as [Hlong|Hshort].
    + unfold textwrap._handle_long_word. destruct (Z.ltb_spec width 1); [lia|].
      rewrite slice_from_drop, slice_to_take by lia.
      destruct (word_take_drop (Z.to_nat (width - len (concat (pp ++ [[SPACE]])))) _ Hword2)
        as [Hpiece Hrem]; [unfold len in *; lia|].
      destruct (strip_word_piece (pp ++ [[SPACE]]) _ Hpiece) as (cl3 & -> & Hcat & Hnil).
      intros [= <- <-]. rewrite bool_decide_eq_false_2.
      * eexists. split; [done|]. right. left. split.
        -- inversion Hc2; subst; by constructor.
        -- rewrite Hcat, (concat_app (pp ++ [[SPACE]])). cbn [concat].
           rewrite <- !app_assoc. f_equal. by rewrite (app_assoc (take _ _)), take_drop.
      * intros Hemp. destruct (Hnil Hemp) as [Hpp' _]. by destruct pp.
    + rewrite last_snoc. simpl. rewrite removelast_last.
      intros [= <- <-].
      rewrite bool_decide_eq_false_2 by (by apply words_first_nonempty).
      eexists. split; [done|]. right. right. left. split; [done|].
      rewrite !concat_app. simpl. by rewrite <- !app_assoc.
Qed.

(** At the start of a line that is not the first, a single space on top of
    the stack is dropped. *)
Lemma wrap_loop_skip_space fuel width chunks lines :
  lines ≠ [] → words_first chunks →
  textwrap.wrap_loop fuel width ([SPACE] :: chunks) lines
  = textwrap.wrap_loop fuel width chunks lines.
Proof.
  intros Hlines Hchunks.
  destruct (words_first_head _ Hchunks) as (d & r & rest & -> & Hd & Hword).
  destruct fuel as [|fuel]; [done|]. cbn [textwrap.wrap_loop].
  replace (textwrap.wrap_line width ([SPACE] :: (d :: r) :: rest) lines)
    with (textwrap.wrap_line width ((d :: r) :: rest) lines); [done|].
  unfold textwrap.wrap_line. rewrite (word_not_stripped _ Hword). simpl.
  rewrite bool_decide_eq_false_2 by done. done.
Qed.

Lemma wrap_loop_plain fuel width chunks lines :
  1 ≤ width → words_first chunks → (textwrap.weight chunks ≤ fuel)%nat →
  ∃ ls, textwrap.wrap_loop fuel width chunks lines = Some (lines ++ ls) ∧
        rejoins ls (concat chunks).
Proof.
  intros Hw. revert chunks lines.
  induction fuel as [|fuel IH]; intros chunks lines Hchunks Hfuel.
  - destruct Hchunks; rewrite !weight_cons in Hfuel; lia.
  - pose proof (words_first_nonempty _ Hchunks) as Hne.
    destruct chunks as [|c chunks]; [done|]. cbn [textwrap.wrap_loop].
    destruct (textwrap.wrap_line width (c :: chunks) lines) as [chunks' lines'] eqn:Hline.
    destruct (wrap_line_progress _ _ _ _ _ Hw Hne Hline) as [Hlt _].
    destruct (wrap_line_plain _ _ _ _ _ Hw Hchunks Hline)
      as (line & -> & [[-> Hcat]|[[Hc' Hcat]|[[Hc' Hcat]|(cs & -> & Hcs & Hcat)]]]);
      rewrite Hcat.
    + exists [line]. split; [by destruct fuel|]. rewrite <- (app_nil_r line) at 2.
      rewrite app_nil_r. constructor.
    + destruct (IH chunks' (lines ++ [line]) Hc' ltac:(lia)) as (ls & -> & Hls).
      exists (line :: ls). rewrite <- app_assoc. split; [done|].
      apply rejoins_break; [done|]. by apply concat_words_head.
    + destruct (IH chunks' (lines ++ [line]) Hc' ltac:(lia)) as (ls & -> & Hls).
      exists (line :: ls). rewrite <- app_assoc. split; [done|]. by apply rejoins_space.
    + rewrite wrap_loop_skip_space by (done || by destruct lines).
      rewrite weight_cons in Hlt.
      destruct (IH cs (lines ++ [line]) Hcs ltac:(lia)) as (ls & -> & Hls).
      exists (line :: ls). rewrite <- app_assoc. split; [done|]. by apply rejoins_space.
Qed.

Lemma rejoins_nonempty ls para : rejoins ls para → ls ≠ [].
Proof. by intros []. Qed.

(** A paragraph of words separated by single spaces is wrapped into lines
    that, with a space or nothing between them, make up the paragraph. *)
Lemma wrap_para_plain para cpl :
  1 ≤ cpl → spaced_words para false = true →
  ∃ wrapped, wrap_para para cpl = Some wrapped ∧ rejoins wrapped para.
Proof.
  intros Hcpl Hplain.
  assert (para ≠ []) as Hne by (by intros ->).
  unfold wrap_para, textwrap.wrap, textwrap._wrap_chunks, textwrap._split_chunks.
  rewrite munge_plain by (by eapply spaced_words_chars).
  destruct (Z.leb_spec cpl 0); [lia|].
  destruct (split_plain _ _ Hplain Hne) as [Hchunks|[[=] _]].
  destruct (wrap_loop_plain (textwrap.weight (textwrap._split para)) cpl _ [] Hcpl Hchunks
              ltac:(lia)) as (ls & -> & Hls).
  rewrite concat_split in Hls. simpl.
  rewrite bool_decide_eq_false_2 by (by eapply rejoins_nonempty). eauto.
Qed.


(** ** The layout of well wrapped paragraphs *)

Lemma space_consumed_app pre q j :
  0 ≤ j → space_consumed (pre ++ q) (len pre + j) = space_consumed q j.
Proof.
  intros Hj. unfold space_consumed. rewrite index_app_r, len_app by done.
  pose proof (len_nonneg pre).
  destruct (Z.ltb_spec (len pre + j) (len pre + len q)), (Z.ltb_spec j (len q)); done || lia.
Qed.

Lemma space_consumed_at_end pre q :
  space_consumed (pre ++ q) (len pre) = bool_decide (head q = Some SPACE).
Proof.
  rewrite <- (Z.add_0_r (len pre)). rewrite space_consumed_app by done.
  unfold space_consumed. destruct q as [|c q]; [done|].
  rewrite len_cons. pose proof (len_nonneg q).
  destruct (Z.ltb_spec 0 (1 + len q)); [|lia]. done.
Qed.

Lemma rejoin_app lay1 lay2 : rejoin (lay1 ++ lay2) = rejoin lay1 ++ rejoin lay2.
Proof. unfold rejoin. by rewrite map_app, concat_app. Qed.

Lemma space_consumed_after pre w tail :
  space_consumed (pre ++ w ++ tail) (len pre + len w) = bool_decide (head tail = Some SPACE).
Proof. rewrite app_assoc, <- len_app. apply space_consumed_at_end. Qed.

(** The lines of a well wrapped paragraph re-join to it, and the last of
    them ends where the paragraph ends, with no space after it. *)
Lemma para_layout_rejoins wrapped q :
  rejoins wrapped q →
  ∀ pre tp nl,
    rejoin (para_layout (pre ++ q) wrapped tp (len pre) nl) = q ++ (if nl then [NL] else []) ∧
    ∃ v, last (para_layout (pre ++ q) wrapped tp (len pre) nl) = Some v ∧
         v_end v = tp + len pre + len q ∧ v_space v = false.
Proof.
  induction 1 as [w|w ws tail Hws IH|w ws tail Hws IH Hhead]; intros pre tp nl.
  - cbn [para_layout].
    pose proof (space_consumed_after pre w []) as Hsp. rewrite app_nil_r in Hsp.
    rewrite Hsp. simpl. split.
    + unfold rejoin. simpl. by rewrite app_nil_r.
    + eexists. split; [done|]. unfold v_end. simpl. split; [lia|done].
  - pose proof (rejoins_nonempty _ _ Hws) as Hne.
    cbn [para_layout]. rewrite bool_decide_eq_false_2 by done.
    unfold next_char. rewrite space_consumed_after. simpl.
    destruct (IH (pre ++ w ++ [SPACE]) tp nl) as (Hjoin & v & Hlast & Hend & Hsp).
    replace ((pre ++ w ++ [SPACE]) ++ tail) with (pre ++ w ++ SPACE :: tail) in *
      by (by rewrite <- !app_assoc).
    replace (len (pre ++ w ++ [SPACE])) with (len pre + len w + 1) in *
      by (rewrite !len_app, len_cons, len_nil; lia).
    split.
    + unfold rejoin in *. cbn [map concat v_text v_space v_newline].
      rewrite Hjoin. by rewrite <- !app_assoc.
    + exists v. split_and!; [|rewrite Hend, !len_app, len_cons; lia|done].
      destruct (para_layout _ ws _ _ _) eqn:Hpl; [done|]. done.
  - pose proof (rejoins_nonempty _ _ Hws) as Hne.
    cbn [para_layout]. rewrite bool_decide_eq_false_2 by done.
    unfold next_char. rewrite space_consumed_after.
    rewrite (bool_decide_eq_false_2 (head tail = Some SPACE)) by done.
    destruct (IH (pre ++ w) tp nl) as (Hjoin & v & Hlast & Hend & Hsp).
    replace ((pre ++ w) ++ tail) with (pre ++ w ++ tail) in * by (by rewrite <- !app_assoc).
    replace (len (pre ++ w)) with (len pre + len w) in * by (by rewrite len_app).
    split.
    + unfold rejoin in *. cbn [map concat v_text v_space v_newline].
      rewrite Hjoin. by rewrite <- !app_assoc.
    + exists v. split_and!; [|rewrite Hend, !len_app; lia|done].
      destruct (para_layout _ ws _ _ _) eqn:Hpl; [done|]. done.
Qed.

Lemma here_layout_well_wrapped cpl para tp nl here :
  well_wrapped cpl para → here_layout cpl para tp nl = Some here →
  rejoin here = para ++ (if nl then [NL] else []) ∧
  ∃ v, last here = Some v ∧ v_end v = tp + len para ∧ v_space v = false.
Proof.
  intros Hwell. unfold here_layout. case_bool_decide as Hpara.
  - intros [= <-]. subst para.
    split; [unfold rejoin; simpl; by rewrite app_nil_r|]. eexists. split; [done|].
    unfold v_end. simpl. rewrite len_nil. split; [lia|done].
  - destruct Hwell as [->|(wrapped & -> & Hre)]; [done|]. simpl. intros [= <-].
    destruct (para_layout_rejoins _ _ Hre [] tp nl) as (Hjoin & v & Hlast & Hend & Hsp).
    simpl in *. rewrite len_nil in *. split; [done|]. exists v. split_and!; [done|lia|done].
Qed.

(** C1, the round trip: re-joining the layout of well wrapped paragraphs
    gives the paragraphs joined by newlines. *)
Lemma rejoin_layout cpl paragraphs tp lay :
  Forall (well_wrapped cpl) paragraphs →
  layout cpl paragraphs tp = Some lay →
  rejoin lay = join_nl paragraphs.
Proof.
  intros Hwell. revert tp lay. induction Hwell as [|para rest Hpara Hrest IH]; intros tp lay.
  - by intros [= <-].
  - intros (here & later & Hhere & Hlater & ->)%layout_cons.
    rewrite rejoin_app. destruct (here_layout_well_wrapped _ _ _ _ _ Hpara Hhere) as [-> _].
    rewrite (IH _ _ Hlater). destruct rest as [|q rest]; simpl.
    + by rewrite !app_nil_r.
    + by rewrite <- app_assoc.
Qed.

Lemma plain_text_well_wrapped cpl t :
  1 ≤ cpl → plain_text t = true → Forall (well_wrapped cpl) (split_nl t).
Proof.
  intros Hcpl Hplain. unfold plain_text in Hplain.
  rewrite forallb_forall in Hplain. apply Forall_forall. intros para Hin.
  specialize (Hplain para ltac:(by apply list_elem_of_In)).
  apply orb_prop in Hplain as [Hempty|Hwords].
  - left. by apply bool_decide_eq_true in Hempty.
  - right. by apply wrap_para_plain.
Qed.

Lemma layout_fits cpl paragraphs tp lay :
  1 ≤ cpl → layout cpl paragraphs tp = Some lay →
  Forall (λ l, len l ≤ cpl) (map v_text lay).
Proof.
  intros Hcpl. revert tp lay. induction paragraphs as [|para rest IH]; intros tp lay.
  - intros [= <-]. constructor.
  - intros (here & later & Hhere & Hlater & ->)%layout_cons.
    rewrite map_app. apply Forall_app. split; [|by eapply IH].
    unfold here_layout in Hhere. case_bool_decide.
    + injection Hhere as <-. simpl. repeat constructor. unfold len. simpl. lia.
    + destruct (wrap_para_total para cpl Hcpl) as (wrapped & Hw & _ & Hfit).
      rewrite Hw in Hhere. simpl in Hhere. injection Hhere as <-.
      by rewrite para_layout_text.
Qed.

(** C1 (as amended): with a width of at least 1 the engine returns the
    lines of the layout and every line is at most that wide; and when every
    paragraph of the text is words separated by single spaces (or empty),
    re-joining the lines - each with the space consumed after it and the
    newline of its paragraph - gives back the text. *)
Theorem lines_fit_and_plain_text_rejoins (self : EtyperApp) :
  1 ≤ chars_per_line self →
  ∃ lay lines cursor_line cursor_col,
    layout (chars_per_line self) (split_nl (text self)) 0 = Some lay ∧
    _wrap_with_cursor self = Some (lines, cursor_line, cursor_col) ∧
    lines = map v_text lay ∧
    Forall (λ line, len line ≤ chars_per_line self) lines ∧
    (plain_text (text self) = true → rejoin lay = text self).
Proof.
  intros Hcpl.
  destruct (wrap_with_cursor_total self Hcpl) as (lay & cl & cc & Hlay & _ & Hwrap).
  exists lay, (map v_text lay), cl, cc. split_and!; [done..| |].
  - by eapply layout_fits.
  - intros Hplain. rewrite <- (join_split_nl (text self)).
    eapply rejoin_layout; [|done]. by apply plain_text_well_wrapped.
Qed.

Lemma lines_fit_and_plain_text_rejoins_witness :
  ∃ lay lines cursor_line cursor_col,
    layout 5 (split_nl (py "hello world")) 0 = Some lay ∧
    _wrap_with_cursor hello_world = Some (lines, cursor_line, cursor_col) ∧
    lines = map v_text lay ∧
    Forall (λ line, len line ≤ 5) lines ∧
    rejoin lay = py "hello world".
Proof.
  destruct (lines_fit_and_plain_text_rejoins hello_world ltac:(simpl; lia))
    as (lay & lines & cl & cc & Hlay & Hwrap & Hlines & Hfit & Hjoin).
  exists lay, lines, cl, cc. split_and!; [done..|]. apply Hjoin. reflexivity.
Defined.

(** C1 as stated fails: "hello  world", with two spaces, at width 5 is
    wrapped into "hello" and "world"; the walk counts one consumed space, and
    re-joining gives "hello world", one character short.  And no way of
    putting spaces and newlines between lines helps "a<TAB>b": it is one
    paragraph and one line, "a       b", with the tab expanded. *)
Lemma rejoin_loses_second_space :
  (∃ lay,
     layout 5 (split_nl (text two_spaces)) 0 = Some lay ∧
     _wrap_with_cursor two_spaces = Some (map v_text lay, 0, 0) ∧
     map v_text lay = [py "hello"; py "world"] ∧
     rejoin lay = py "hello world" ∧
     rejoin lay ≠ text two_spaces) ∧
  (split_nl (text tab_document) = [text tab_document] ∧
   _wrap_with_cursor tab_document = Some ([py "a       b"], 0, 0) ∧
   py "a       b" ≠ text tab_document).
Proof.
  split.
  - eexists. vm_compute. split_and!; try reflexivity. discriminate.
  - vm_compute. split_and!; try reflexivity. discriminate.
Qed.


(** ** The forward mapping on well wrapped paragraphs *)

Lemma cell_at_app_l here later li k cell :
  cell_at here li k cell → cell_at (here ++ later) li k cell.
Proof.
  intros (i & v & -> & Hv & Hk). exists i, v. split; [done|]. split; [|done].
  by apply lookup_app_l_Some.
Qed.

Lemma cell_at_app_r here later li k cell :
  cell_at later (li + len here) k cell → cell_at (here ++ later) li k cell.
Proof.
  intros (i & v & -> & Hv & Hk). exists (length here + i)%nat, v. split; [|split; [|done]].
  - f_equal. unfold len. lia.
  - by rewrite lookup_app_r, Nat.add_comm, Nat.add_sub by lia.
Qed.

Lemma cell_at_cons v0 lay li k cell :
  cell_at lay (li + 1) k cell → cell_at (v0 :: lay) li k cell.
Proof. intros H. apply (cell_at_app_r [v0]). by rewrite len_cons, len_nil, Z.add_0_r. Qed.

(** Up to the end of its last line, the walk over the lines of a paragraph
    maps every offset it passes to the cell the layout gives. *)
Lemma map_wrapped_cells para ps wrapped lines (m : gmap Z (Z * Z)) li pc nl lines' m' li' :
  map_wrapped para ps wrapped lines m li pc = (lines', m', li') →
  ∀ v_last, last (para_layout para wrapped ps pc nl) = Some v_last →
  ∀ k, ps + pc ≤ k < v_end v_last →
    ∃ cell, m' !! k = Some cell ∧ cell_at (para_layout para wrapped ps pc nl) li k cell.
Proof.
  revert lines m li pc. induction wrapped as [|w wrapped IH]; intros lines m li pc; [done|].
  cbn [map_wrapped para_layout].
  destruct (map_columns w ps li 0 pc m) as [m1 pc1] eqn:Hcols.
  apply map_columns_spec in Hcols as (-> & Hout & Hin).
  pose proof (len_nonneg w) as Hw.
  set (V := mkVline w (ps + pc) _ _).
  destruct (decide (wrapped = [])) as [->|Hne].
  - (* the last line *)
    intros Hmw v_last [= <-] k Hk. unfold v_end in Hk. simpl in Hk.
    exists (li, k - (ps + pc)). split.
    + assert (m' !! k = m1 !! k) as ->.
      { destruct (space_consumed para (pc + len w)); simpl in Hmw;
          injection Hmw as _ <- _; [|done]. apply lookup_insert_ne. lia. }
      replace k with (ps + pc + (k - (ps + pc))) at 1 by lia.
      rewrite Hin by lia. do 2 f_equal.
    + exists 0%nat, V. split; [f_equal; lia|]. split; [done|unfold v_end; simpl; lia].
  - intros Hmw v_last Hlast k Hk.
    assert (last (para_layout para wrapped ps (next_char para (pc + len w)) nl) = Some v_last)
      as Hlast'.
    { destruct (para_layout para wrapped ps _ nl) eqn:Hpl; [|done].
      apply (f_equal length) in Hpl. rewrite para_layout_length in Hpl. by destruct wrapped. }
    destruct (decide (k < ps + pc + len w)) as [Hfirst|Hlater].
    + exists (li, k - (ps + pc)). split.
      * assert (m' !! k = m1 !! k) as ->.
        { destruct (space_consumed para (pc + len w));
            rewrite (map_wrapped_below _ _ _ _ _ _ _ _ _ _ Hmw) by lia; [|done].
          apply lookup_insert_ne. lia. }
        replace k with (ps + pc + (k - (ps + pc))) at 1 by lia.
        rewrite Hin by lia. do 2 f_equal.
      * exists 0%nat, V. split; [f_equal; lia|]. split; [done|unfold v_end; simpl; lia].
    + unfold next_char in *. subst V.
      destruct (space_consumed para (pc + len w)) eqn:Hsp.
      * destruct (decide (k = ps + pc + len w)) as [->|Hk'].
        -- exists (li, len w). split.
           ++ rewrite (map_wrapped_below _ _ _ _ _ _ _ _ _ _ Hmw) by lia.
              replace (ps + pc + len w) with (ps + (pc + len w)) by lia.
              apply lookup_insert_eq.
           ++ eexists 0%nat, _. split; [|split; [done|unfold v_end; simpl; lia]].
              simpl. f_equal; lia.
        -- destruct (IH _ _ _ _ Hmw v_last Hlast' k ltac:(lia)) as (cell & Hcell & Hat).
           exists cell. split; [done|]. by apply cell_at_cons.
      * destruct (IH _ _ _ _ Hmw v_last Hlast' k ltac:(lia)) as (cell & Hcell & Hat).
        exists cell. split; [done|]. by apply cell_at_cons.
Qed.

Lemma para_layout_last para wrapped ps pc nl v :
  last (para_layout para wrapped ps pc nl) = Some v → last wrapped = Some (v_text v).
Proof.
  intros Hlast. rewrite <- (para_layout_text para wrapped ps pc nl).
  by rewrite fmap_last, Hlast.
Qed.

(** One well wrapped paragraph: every offset in it, and its newline, is
    mapped to the cell of the layout. *)
Lemma wrap_paragraph_cells cpl n st p_idx para nl here st' :
  well_wrapped cpl para → nl = (p_idx <? n - 1) →
  here_layout cpl para (w_para_start st) nl = Some here →
  wrap_paragraph cpl n st p_idx para = Some st' →
  ∀ k, w_para_start st ≤ k < w_para_start st + len para + (if nl then 1 else 0) →
    ∃ cell, w_char_to_pos st' !! k = Some cell ∧ cell_at here (w_line_idx st) k cell.
Proof.
  intros Hwell -> Hhere.
  destruct (here_layout_well_wrapped _ _ _ _ _ Hwell Hhere) as (_ & v & Hlast & Hend & _).
  revert Hhere. unfold here_layout, wrap_paragraph. case_bool_decide as Hpara.
  - intros [= <-] [= <-] k Hk. subst para. rewrite len_nil in Hk. simpl.
    destruct (p_idx <? n - 1); [|lia]. assert (k = w_para_start st) as -> by lia.
    rewrite lookup_insert_eq. eexists. split; [done|].
    exists 0%nat, (mkVline [] (w_para_start st) false true).
    split; [simpl; f_equal; lia|]. split; [done|]. unfold v_end, len. simpl. lia.
  - destruct (wrap_para para cpl) as [wrapped|] eqn:Hw; simpl; [|done].
    intros [= <-].
    destruct (map_wrapped para (w_para_start st) wrapped (w_lines st) (w_char_to_pos st)
                (w_line_idx st) 0) as [[lines m] line_idx] eqn:Hmw.
    destruct (map_wrapped_shape _ _ _ _ _ _ _ _ _ _ Hmw) as [-> ->].
    pose proof (map_wrapped_cells _ _ _ _ _ _ _ (p_idx <? n - 1) _ _ _ Hmw v Hlast) as Hcells.
    pose proof (para_layout_last _ _ _ _ _ _ Hlast) as Hlastw.
    pose proof (len_nonneg para) as Hp.
    destruct (p_idx <? n - 1).
    + apply last_Some in Hlastw as [wrapped' ->].
      rewrite (app_assoc (w_lines st)), index_last. simpl. intros [= <-] k Hk. simpl.
      destruct (decide (k = w_para_start st + len para)) as [->|Hk'].
      * rewrite lookup_insert_eq. eexists. split; [done|].
        apply last_Some in Hlast as [here' Hhere'].
        exists (length here'), v. split; [|split].
        -- assert (length here' = length wrapped') as ->.
           { apply (f_equal length) in Hhere'.
             rewrite para_layout_length, !length_app in Hhere'. simpl in Hhere'. lia. }
           f_equal; [unfold len; rewrite length_app; simpl; lia|unfold v_end in Hend; lia].
        -- rewrite Hhere'. apply list_lookup_middle. done.
        -- unfold v_end in *. pose proof (len_nonneg (v_text v)). lia.
      * rewrite lookup_insert_ne by lia. apply Hcells. lia.
    + intros [= <-] k Hk. simpl. apply Hcells. lia.
Qed.

Lemma layout_last_end cpl paragraphs tp lay :
  Forall (well_wrapped cpl) paragraphs → paragraphs ≠ [] →
  layout cpl paragraphs tp = Some lay →
  ∃ v, last lay = Some v ∧ v_end v = tp + span paragraphs - 1.
Proof.
  intros Hwell. revert tp lay.
  induction Hwell as [|para rest Hpara Hrest IH]; intros tp lay Hne; [done|].
  intros (here & later & Hhere & Hlater & ->)%layout_cons.
  destruct (here_layout_well_wrapped _ _ _ _ _ Hpara Hhere) as (_ & v & Hlast & Hend & _).
  destruct rest as [|q rest].
  - injection Hlater as <-. rewrite app_nil_r. exists v. split; [done|]. simpl. lia.
  - destruct (IH _ _ ltac:(done) Hlater) as (v' & Hlast' & Hend').
    exists v'. split.
    + rewrite last_app, Hlast'. done.
    + rewrite Hend'. cbn [span]. lia.
Qed.

(** All the paragraphs: every offset before the end of the text is mapped
    to the cell of the layout. *)
Lemma wrap_paragraphs_cells cpl n paragraphs p_idx st lay st' :
  Forall (well_wrapped cpl) paragraphs →
  p_idx + len paragraphs = n →
  layout cpl paragraphs (w_para_start st) = Some lay →
  wrap_paragraphs cpl n paragraphs p_idx st = Some st' →
  ∀ k, w_para_start st ≤ k < w_para_start st + span paragraphs - 1 →
    ∃ cell, w_char_to_pos st' !! k = Some cell ∧ cell_at lay (w_line_idx st) k cell.
Proof.
  intros Hwell. revert p_idx st lay.
  induction Hwell as [|para rest Hpara Hrest IH]; intros p_idx st lay Hn.
  - intros _ _ k Hk. simpl in Hk. lia.
  - intros (here & later & Hhere & Hlater & ->)%layout_cons Hrun k Hk.
    rewrite len_cons in Hn. cbn [span] in Hk.
    assert (negb (bool_decide (rest = [])) = (p_idx <? n - 1)) as Hnl.
    { destruct (Z.ltb_spec p_idx (n - 1)); case_bool_decide as Hr; simpl; try done.
      - subst rest. rewrite len_nil in Hn. lia.
      - destruct rest; [done|]. rewrite len_cons in Hn. pose proof (len_nonneg rest). lia. }
    destruct (wrap_paragraph_spec cpl n st p_idx para _ here Hnl Hhere)
      as (m1 & Hstep & _ & _).
    cbn [wrap_paragraphs] in Hrun. rewrite Hstep in Hrun. simpl in Hrun.
    set (st1 := mkWrap _ _ _ _) in *.
    destruct (wrap_paragraphs_spec cpl n rest (p_idx + 1) st1 later ltac:(lia) Hlater)
      as (m2 & Hrest' & Hbelow & _).
    rewrite Hrest' in Hrun. injection Hrun as <-. simpl.
    pose proof (span_nonneg rest) as Hspan.
    destruct (decide (k < w_para_start st + len para +
                          (if negb (bool_decide (rest = [])) then 1 else 0))) as [Hin|Hout].
    + destruct (wrap_paragraph_cells _ _ _ _ _ _ _ _ Hpara Hnl Hhere Hstep k ltac:(lia))
        as (cell & Hcell & Hat).
      exists cell. split; [|by apply cell_at_app_l].
      rewrite Hbelow; [done|]. simpl. destruct (negb _); lia.
    + assert (rest ≠ []) as Hr.
      { intros ->. simpl in *. lia. }
      rewrite bool_decide_eq_false_2 in Hout by done. simpl in Hout.
      destruct (IH (p_idx + 1) st1 later ltac:(lia) Hlater Hrest' k) as (cell & Hcell & Hat).
      { simpl. lia. }
      simpl in Hcell. exists cell. split; [done|]. by apply cell_at_app_r.
Qed.

(** ** Mapping consistency *)

(** C2 (as amended): when every paragraph of the text is words separated by
    single spaces (or empty), every offset from 0 to [len(text)] has a cell
    under the forward mapping, and the inverse mapping - column clamped to
    the length of the line - takes that cell back to the offset. *)
Theorem plain_text_offsets_round_trip (self : EtyperApp) (offset : Z) :
  1 ≤ chars_per_line self → plain_text (text self) = true →
  0 ≤ offset ≤ len (text self) →
  ∃ cell, forward self offset = Some cell ∧ inverse self cell = Some offset.
Proof.
  intros Hcpl Hplain Hoff.
  pose proof (plain_text_well_wrapped _ _ Hcpl Hplain) as Hwell.
  destruct (wrap_with_cursor_total self Hcpl) as (lay & cl & cc & Hlay & Hne & Hwrap).
  destruct (layout_last_end _ _ _ _ Hwell (split_nl_nonempty _) Hlay) as (vl & Hlast & Hend).
  rewrite span_split_nl in Hend.
  assert (Hinv : ∀ (i : nat) v c,
            lay !! i = Some v → 0 ≤ c ≤ len (v_text v) →
            inverse self (Z.of_nat i, c) = Some (v_start v + c)).
  { intros i v c Hv Hc. unfold inverse. rewrite Hwrap. simpl.
    rewrite index_of_nat, list_lookup_fmap, Hv. simpl.
    rewrite (pos_from_line_col_hit _ _ _ _ _ _ Hlay Hv). f_equal. lia. }
  unfold forward, _wrap_with_cursor. simpl. unfold wrap_layout.
  destruct (wrap_paragraphs_spec (chars_per_line self) (len (split_nl (text self)))
              (split_nl (text self)) 0 (mkWrap [] ∅ 0 0) lay ltac:(lia) Hlay)
    as (m & Hrun & _ & _).
  rewrite Hrun. simpl. rewrite bool_decide_eq_false_2 by (by destruct lay).
  simpl. unfold find_cursor.
  apply last_Some in Hlast as Hsplit. destruct Hsplit as [lay' Hsplit].
  assert (index (map v_text lay) (-1) = Some (v_text vl)) as Hidx.
  { rewrite Hsplit, map_app. simpl. apply index_last. }
  rewrite Hidx. simpl.
  destruct (Z.leb_spec (len (text self)) offset) as [Hend'|Hinside].
  - rewrite bool_decide_eq_false_2 by (by destruct lay). simpl.
    eexists. split; [done|].
    replace (len (map v_text lay) - 1) with (Z.of_nat (length lay'))
      by (rewrite Hsplit; unfold len; rewrite length_map, length_app; simpl; lia).
    rewrite (Hinv (length lay') vl).
    + f_equal. unfold v_end in Hend. lia.
    + rewrite Hsplit. by apply list_lookup_middle.
    + pose proof (len_nonneg (v_text vl)). lia.
  - destruct (wrap_paragraphs_cells (chars_per_line self) (len (split_nl (text self)))
                (split_nl (text self)) 0 (mkWrap [] ∅ 0 0) lay _ Hwell ltac:(lia) Hlay Hrun
                offset)
      as (cell & Hcell & i & v & -> & Hv & Hk).
    { simpl. rewrite span_split_nl. lia. }
    simpl in Hcell. rewrite Hcell. simpl. eexists. split; [done|].
    rewrite Z.add_0_l, (Hinv i v) by (done || unfold v_end in Hk; lia).
    f_equal. lia.
Qed.

Lemma plain_text_offsets_round_trip_witness :
  ∃ cell, forward hello_world 5 = Some cell ∧ inverse hello_world cell = Some 5.
Proof.
  apply (plain_text_offsets_round_trip hello_world 5); [simpl; lia|reflexivity|].
  vm_compute. split; discriminate.
Defined.

(** C2 as stated fails: in "a " the end of the text, offset 2, is shown at
    the end of the line "a", cell (0, 1), because the trailing space is not
    part of the line; the inverse mapping takes that cell to offset 1. *)
Lemma trailing_space_offset_does_not_round_trip :
  0 ≤ 2 ≤ len (text trailing_space) ∧
  forward trailing_space 2 = Some (0, 1) ∧
  inverse trailing_space (0, 1) = Some 1.
Proof. vm_compute. split_and!; congruence. Qed.


(** ** Every cell of the forward mapping is on a line *)

Lemma in_layout_app_l here later li cell :
  in_layout here li cell → in_layout (here ++ later) li cell.
Proof.
  intros (i & v & Hl & Hv & Hc). exists i, v. split; [done|]. split; [|done].
  by apply lookup_app_l_Some.
Qed.

Lemma in_layout_app_r here later li cell :
  in_layout later (li + len here) cell → in_layout (here ++ later) li cell.
Proof.
  intros (i & v & Hl & Hv & Hc). exists (length here + i)%nat, v. split; [|split; [|done]].
  - rewrite Hl. unfold len. lia.
  - by rewrite lookup_app_r, Nat.add_comm, Nat.add_sub by lia.
Qed.

Lemma in_layout_cons v0 lay li cell :
  in_layout lay (li + 1) cell → in_layout (v0 :: lay) li cell.
Proof. intros H. apply (in_layout_app_r [v0]). unfold len. simpl. done. Qed.

Lemma in_layout_head v0 lay li c :
  0 ≤ c ≤ len (v_text v0) → in_layout (v0 :: lay) li (li, c).
Proof. intros Hc. exists 0%nat, v0. simpl. split; [lia|done]. Qed.

Lemma map_columns_either w ps li col pc (m : gmap Z (Z * Z)) m' pc' :
  map_columns w ps li col pc m = (m', pc') →
  ∀ k cell, m' !! k = Some cell →
    m !! k = Some cell ∨ ∃ j, 0 ≤ j < len w ∧ cell = (li, col + j).
Proof.
  intros (-> & Hout & Hin)%map_columns_spec k cell Hk.
  destruct (decide (ps + pc ≤ k < ps + pc + len w)) as [Hrange|Hrange].
  - right. exists (k - (ps + pc)). split; [lia|].
    replace k with (ps + pc + (k - (ps + pc))) in Hk by lia.
    rewrite Hin in Hk by lia. by injection Hk as <-.
  - left. rewrite Hout in Hk by lia. done.
Qed.

Lemma map_wrapped_valid para ps wrapped lines (m : gmap Z (Z * Z)) li pc nl lines' m' li' :
  map_wrapped para ps wrapped lines m li pc = (lines', m', li') →
  ∀ k cell, m' !! k = Some cell →
    m !! k = Some cell ∨ in_layout (para_layout para wrapped ps pc nl) li cell.
Proof.
  revert lines m li pc. induction wrapped as [|w wrapped IH]; intros lines m li pc.
  - intros [= <- <- <-] k cell Hk. by left.
  - cbn [map_wrapped para_layout].
    destruct (map_columns w ps li 0 pc m) as [m1 pc1] eqn:Hcols.
    pose proof (map_columns_either _ _ _ _ _ _ _ _ Hcols) as Hm1.
    apply map_columns_spec in Hcols as (-> & _ & _).
    pose proof (len_nonneg w) as Hw.
    set (V := mkVline w (ps + pc) _ _).
    assert (Hfirst : ∀ k cell, m1 !! k = Some cell →
              m !! k = Some cell ∨ in_layout (V :: para_layout para wrapped ps
                                                 (next_char para (pc + len w)) nl) li cell).
    { intros k cell Hk. destruct (Hm1 k cell Hk) as [?|(j & Hj & ->)]; [by left|right].
      apply in_layout_head. simpl. lia. }
    unfold next_char in *.
    destruct (space_consumed para (pc + len w)); intros Hmw k cell Hk;
      destruct (IH _ _ _ _ Hmw k cell Hk) as [Hk2|Hin];
      try (right; by apply in_layout_cons).
    + destruct (decide (k = ps + (pc + len w))) as [->|Hne].
      * rewrite lookup_insert_eq in Hk2. injection Hk2 as <-. right.
        apply in_layout_head. simpl. lia.
      * rewrite lookup_insert_ne in Hk2 by done. by apply Hfirst.
    + by apply Hfirst.
Qed.

Lemma wrap_paragraph_valid cpl n st p_idx para nl here st' :
  here_layout cpl para (w_para_start st) nl = Some here →
  wrap_paragraph cpl n st p_idx para = Some st' →
  ∀ k cell, w_char_to_pos st' !! k = Some cell →
    w_char_to_pos st !! k = Some cell ∨ in_layout here (w_line_idx st) cell.
Proof.
  unfold here_layout, wrap_paragraph. case_bool_decide as Hpara.
  - intros [= <-] [= <-] k cell. simpl. destruct (p_idx <? n - 1); [|by left].
    destruct (decide (k = w_para_start st)) as [->|Hne].
    + rewrite lookup_insert_eq. intros [= <-]. right. apply in_layout_head. done.
    + rewrite lookup_insert_ne by done. by left.
  - destruct (wrap_para para cpl) as [wrapped|] eqn:Hw; simpl; [|done].
    intros [= <-].
    destruct (map_wrapped para (w_para_start st) wrapped (w_lines st) (w_char_to_pos st)
                (w_line_idx st) 0) as [[lines m] line_idx] eqn:Hmw.
    destruct (map_wrapped_shape _ _ _ _ _ _ _ _ _ _ Hmw) as [-> ->].
    pose proof (map_wrapped_valid _ _ _ _ _ _ _ nl _ _ _ Hmw) as Hvalid.
    apply wrap_para_nonempty in Hw.
    destruct (p_idx <? n - 1).
    + destruct (exists_last Hw) as (wrapped' & w & ->).
      rewrite (app_assoc (w_lines st)), index_last. simpl. intros [= <-] k cell. simpl.
      destruct (decide (k = w_para_start st + len para)) as [->|Hne].
      * rewrite lookup_insert_eq. intros [= <-]. right.
        assert (∃ v, para_layout para (wrapped' ++ [w]) (w_para_start st) 0 nl
                       !! length wrapped' = Some v ∧ v_text v = w) as (v & Hv & Htext).
        { pose proof (para_layout_text para (wrapped' ++ [w]) (w_para_start st) 0 nl) as Ht.
          apply (f_equal (λ l, l !! length wrapped')) in Ht.
          rewrite list_lookup_fmap, list_lookup_middle in Ht by done.
          destruct (_ !! length wrapped') as [v|]; [|done]. exists v.
          split; [done|]. by injection Ht. }
        exists (length wrapped'), v. simpl. rewrite Htext.
        split; [unfold len; rewrite length_app; simpl; lia|].
        split; [done|]. pose proof (len_nonneg w). lia.
      * rewrite lookup_insert_ne by done. apply Hvalid.
    + intros [= <-] k cell. simpl. apply Hvalid.
Qed.

Lemma wrap_paragraphs_valid cpl n paragraphs p_idx st lay st' :
  p_idx + len paragraphs = n →
  layout cpl paragraphs (w_para_start st) = Some lay →
  wrap_paragraphs cpl n paragraphs p_idx st = Some st' →
  ∀ k cell, w_char_to_pos st' !! k = Some cell →
    w_char_to_pos st !! k = Some cell ∨ in_layout lay (w_line_idx st) cell.
Proof.
  revert p_idx st lay. induction paragraphs as [|para rest IH]; intros p_idx st lay Hn.
  - intros _ [= <-] k cell Hk. by left.
  - intros (here & later & Hhere & Hlater & ->)%layout_cons Hrun k cell Hk.
    rewrite len_cons in Hn.
    assert (negb (bool_decide (rest = [])) = (p_idx <? n - 1)) as Hnl.
    { destruct (Z.ltb_spec p_idx (n - 1)); case_bool_decide as Hr; simpl; try done.
      - subst rest. rewrite len_nil in Hn. lia.
      - destruct rest; [done|]. rewrite len_cons in Hn. pose proof (len_nonneg rest). lia. }
    destruct (wrap_paragraph_spec cpl n st p_idx para _ here Hnl Hhere)
      as (m1 & Hstep & _ & _).
    cbn [wrap_paragraphs] in Hrun. rewrite Hstep in Hrun. simpl in Hrun.
    set (st1 := mkWrap _ _ _ _) in *.
    destruct (IH (p_idx + 1) st1 later ltac:(lia) Hlater Hrun k cell Hk) as [Hk1|Hin].
    + destruct (wrap_paragraph_valid _ _ _ _ _ _ _ _ Hhere Hstep k cell Hk1) as [?|Hin];
        [by left|right]. by apply in_layout_app_l.
    + right. by apply in_layout_app_r.
Qed.

(** The cell [_wrap_with_cursor] reports is on a line it returns, at a
    column from 0 to the length of that line. *)
Lemma wrap_with_cursor_valid self lines cursor_line cursor_col lay :
  layout (chars_per_line self) (split_nl (text self)) 0 = Some lay →
  _wrap_with_cursor self = Some (lines, cursor_line, cursor_col) →
  lines = map v_text lay ∧ in_layout lay 0 (cursor_line, cursor_col).
Proof.
  intros Hlay. unfold _wrap_with_cursor, wrap_layout.
  destruct (wrap_paragraphs_spec (chars_per_line self) (len (split_nl (text self)))
              (split_nl (text self)) 0 (mkWrap [] ∅ 0 0) lay ltac:(lia) Hlay)
    as (m & Hrun & _ & _).
  rewrite Hrun. simpl.
  pose proof (layout_nonempty _ _ _ _ (split_nl_nonempty _) Hlay) as Hne.
  rewrite bool_decide_eq_false_2 by (by destruct lay). simpl.
  destruct (exists_last Hne) as (lay' & vl & ->).
  assert (index (map v_text (lay' ++ [vl])) (-1) = Some (v_text vl)) as Hidx.
  { rewrite map_app. apply index_last. }
  assert (in_layout (lay' ++ [vl]) 0 (len (map v_text (lay' ++ [vl])) - 1, len (v_text vl)))
    as Hend.
  { exists (length lay'), vl. simpl.
    split; [unfold len; rewrite length_map, length_app; simpl; lia|].
    split; [by apply list_lookup_middle|]. pose proof (len_nonneg (v_text vl)). lia. }
  unfold find_cursor. rewrite Hidx. simpl.
  destruct (len (text self) <=? cursor self).
  - rewrite bool_decide_eq_false_2 by (by destruct lay'). intros [= <- <- <-]. done.
  - destruct (m !! cursor self) as [cell|] eqn:Hcell; simpl.
    + destruct cell as [cl cc]. intros [= <- <- <-]. split; [done|].
      destruct (wrap_paragraphs_valid (chars_per_line self) (len (split_nl (text self)))
                  (split_nl (text self)) 0 (mkWrap [] ∅ 0 0) _ _ ltac:(lia) Hlay Hrun _ _ Hcell)
        as [Hempty|Hin]; [done|]. done.
    + intros [= <- <- <-]. done.
Qed.


(** ** Without tabs the walk stays inside the paragraph *)

Lemma walk_end_app para l1 l2 pc :
  walk_end para (l1 ++ l2) pc = walk_end para l2 (walk_end para l1 pc).
Proof. revert pc. induction l1 as [|l l1 IH]; intros pc; simpl; [done|]. apply IH. Qed.

Lemma fits_para_app para l1 l2 pc :
  fits_para para (l1 ++ l2) pc ↔ fits_para para l1 pc ∧ fits_para para l2 (walk_end para l1 pc).
Proof.
  revert pc. induction l1 as [|l l1 IH]; intros pc; simpl; [tauto|]. rewrite IH. tauto.
Qed.

Lemma expandtabs_no_tab tabsize col p :
  TAB ∉ p → textwrap.expandtabs_from tabsize col p = p.
Proof.
  revert col. induction p as [|c p IH]; intros col Hp; simpl; [done|].
  apply not_elem_of_cons in Hp as [Hc Hp].
  destruct (N.eqb_spec c TAB) as [->|_]; [done|].
  destruct ((c =? NL)%N || (c =? CR)%N); by rewrite IH.
Qed.

Lemma munge_no_tab p : TAB ∉ p → textwrap._munge_whitespace p = textwrap.translate_whitespace p.
Proof.
  intros Hp. unfold textwrap._munge_whitespace, textwrap.expandtabs.
  by rewrite expandtabs_no_tab.
Qed.

Lemma translate_length p : len (textwrap.translate_whitespace p) = len p.
Proof. unfold len, textwrap.translate_whitespace. by rewrite length_map. Qed.

Lemma translate_space p j :
  index p j = Some SPACE → index (textwrap.translate_whitespace p) j = Some SPACE.
Proof.
  assert (∀ i, p !! i = Some SPACE → textwrap.translate_whitespace p !! i = Some SPACE)
    as Hmap.
  { intros i Hi. unfold textwrap.translate_whitespace. by rewrite list_lookup_fmap, Hi. }
  unfold index. rewrite translate_length.
  destruct (j <? 0); [destruct (len p + j <? 0); [done|]|]; apply Hmap.
Qed.

Lemma translate_chars p :
  Forall (λ c, textwrap.in_whitespace c = true → c = SPACE) (textwrap.translate_whitespace p).
Proof.
  unfold textwrap.translate_whitespace. apply Forall_fmap, Forall_forall. intros c _. simpl.
  destruct (textwrap.in_whitespace c) eqn:Hc; [done|]. congruence.
Qed.

Lemma uniform_cons_space chunk : uniform (SPACE :: chunk) → Forall (λ c, c = SPACE) (SPACE :: chunk).
Proof. intros [H|H]; [done|]. by apply Forall_cons in H as [? _]. Qed.

Lemma uniform_spaces_stripped chunk : Forall (λ c, c = SPACE) chunk → strip_is_empty chunk = true.
Proof.
  intros H. unfold strip_is_empty. apply forallb_forall. intros c Hc%list_elem_of_In.
  rewrite Forall_forall in H. by rewrite (H c Hc).
Qed.

Lemma uniform_drop n chunk : uniform chunk → uniform (drop n chunk).
Proof. intros [H|H]; [left|right]; by apply Forall_drop. Qed.

(** The chunks of a text whose only whitespace is the space: none empty,
    each all spaces or without any. *)
Lemma split_uniform t :
  Forall (λ c, textwrap.in_whitespace c = true → c = SPACE) t →
  Forall (λ chunk, chunk ≠ [] ∧ uniform chunk) (textwrap._split t).
Proof.
  induction t as [|c t IH]; intros Ht; simpl; [constructor|].
  apply Forall_cons in Ht as [Hc Ht]. specialize (IH Ht).
  assert (Hsingle : [c] ≠ [] ∧ uniform [c]).
  { split; [done|]. destruct (decide (c = SPACE)); [left|right]; by repeat constructor. }
  pose proof (concat_split t) as Hcat.
  destruct (textwrap._split t) as [|[|d r] chunks] eqn:Hsplit.
  - constructor; [done|constructor].
  - constructor; [done|]. exact IH.
  - apply Forall_cons in IH as [[_ Hdr] IH].
    assert (Hd : textwrap.in_whitespace d = true → d = SPACE).
    { rewrite Forall_forall in Ht. apply Ht. rewrite <- Hcat. simpl. by left. }
    destruct (Bool.eqb (textwrap.in_whitespace c) (textwrap.in_whitespace d)) eqn:Heq.
    + apply eqb_prop in Heq. constructor; [|done]. split; [done|].
      destruct (textwrap.in_whitespace d) eqn:Hwd.
      * rewrite (Hd eq_refl) in *. rewrite (Hc Heq). left.
        constructor; [done|]. by apply uniform_cons_space.
      * right. destruct Hdr as [Hall|Hnone].
        -- apply Forall_cons in Hall as [-> _]. done.
        -- constructor; [|done]. intros ->. done.
    + constructor; [done|]. constructor; [|done]. done.
Qed.

(** One pass, whatever the chunks: what goes to the line, what is dropped
    before and after it, and what stays on the stack. *)
Lemma wrap_line_general width chunks lines chunks3 lines' :
  1 ≤ width → Forall (λ chunk, chunk ≠ [] ∧ uniform chunk) chunks →
  textwrap.wrap_line width chunks lines = (chunks3, lines') →
  ∃ lead line trail,
    concat chunks = lead ++ line ++ trail ++ concat chunks3 ∧
    (lines' = lines ∧ line = [] ∨ lines' = lines ++ [line]) ∧
    Forall (λ chunk, chunk ≠ [] ∧ uniform chunk) chunks3 ∧
    (lines ≠ [] → head (concat chunks) = Some SPACE → lead ≠ []).
Proof.
  intros Hw Hchunks. unfold textwrap.wrap_line.
  set (chunks1 := match chunks with [] => chunks | top :: rest => _ end).
  assert (∃ lead, concat chunks = lead ++ concat chunks1 ∧
                  Forall (λ chunk, chunk ≠ [] ∧ uniform chunk) chunks1 ∧
                  (lines ≠ [] → head (concat chunks) = Some SPACE → lead ≠ []))
    as (lead & Hlead & Hchunks1 & Hdrop).
  { subst chunks1. destruct chunks as [|top rest]; [by exists []|].
    apply Forall_cons in Hchunks as Hsplit. destruct Hsplit as [[Htop Hu] Hrest].
    destruct (strip_is_empty top && negb (bool_decide (lines = []))) eqn:Hcond.
    - exists top. by split_and!.
    - exists []. split_and!; [done..|]. intros Hlines Hhead. exfalso.
      destruct top as [|c top]; [done|]. simpl in Hhead. injection Hhead as ->.
      rewrite (uniform_spaces_stripped _ (uniform_cons_space _ Hu)) in Hcond.
      by rewrite bool_decide_eq_false_2 in Hcond. }
  clearbody chunks1.
  destruct (textwrap.fill_line width chunks1 [] 0) as [[chunks2 cur_line] cur_len] eqn:Hfill.
  apply fill_line_spec in Hfill as (popped & -> & Hcl & -> & Hle & Htop).
  simpl in Hcl. subst cur_line. specialize (Hle ltac:(lia)). rewrite Z.add_0_l in *.
  pose proof (len_nonneg (concat popped)) as Hp0.
  apply Forall_app in Hchunks1 as [_ Hchunks2].
  destruct (match chunks2 with
            | [] => (chunks2, popped)
            | top :: _ =>
                if width <? len top
                then textwrap._handle_long_word chunks2 popped (len (concat popped)) width
                else (chunks2, popped)
            end) as [chunks3' cur_line2] eqn:Hlong.
  assert (concat (popped ++ chunks2) = concat cur_line2 ++ concat chunks3' ∧
          Forall (λ chunk, chunk ≠ [] ∧ uniform chunk) chunks3') as [Hcat Hchunks3].
  { destruct chunks2 as [|top rest2].
    - injection Hlong as <- <-. split; [by rewrite concat_app|constructor].
    - destruct (Z.ltb_spec width (len top)) as [Hlen|Hlen].
      + unfold textwrap._handle_long_word in Hlong. destruct (Z.ltb_spec width 1); [lia|].
        rewrite slice_from_drop, slice_to_take in Hlong by lia.
        injection Hlong as <- <-.
        apply Forall_cons in Hchunks2 as [[_ Hu] Hrest2]. split.
        * rewrite !concat_app. simpl. rewrite app_nil_r, <- !app_assoc. f_equal.
          by rewrite app_assoc, take_drop.
        * constructor; [|done]. split; [|by apply uniform_drop].
          intros Hd%(f_equal length). rewrite length_drop in Hd. unfold len in *.
          simpl in Hd. lia.
      + injection Hlong as <- <-. split; [by rewrite concat_app|done]. }
  destruct (strip_last_concat cur_line2) as [trail Htrail].
  intros [= <- <-].
  exists lead, (concat (match last cur_line2 with
                        | Some c => if strip_is_empty c then removelast cur_line2 else cur_line2
                        | None => cur_line2
                        end)), trail.
  split_and!; [|by case_bool_decide as Hnil; [left; rewrite Hnil|right]|done..].
  rewrite Hlead, Hcat, Htrail. by rewrite <- !app_assoc.
Qed.

(** The loop, read against the paragraph it wraps: the walk of
    [_wrap_with_cursor] over the lines made so far never gets ahead of the
    characters the loop has used, but for the one space it may take as
    consumed while that space is still on top of the stack. *)
Lemma wrap_loop_fits fuel width para munged :
  1 ≤ width → len munged = len para →
  (∀ j, index para j = Some SPACE → index munged j = Some SPACE) →
  ∀ chunks lines prefix result,
    munged = prefix ++ concat chunks →
    Forall (λ chunk, chunk ≠ [] ∧ uniform chunk) chunks →
    fits_para para lines 0 →
    (walk_end para lines 0 ≤ len prefix ∨
     (walk_end para lines 0 ≤ len prefix + 1 ∧ lines ≠ [] ∧
      head (concat chunks) = Some SPACE)) →
    textwrap.wrap_loop fuel width chunks lines = Some result →
    fits_para para result 0.
Proof.
  intros Hw Hlen Hspace.
  induction fuel as [|fuel IH]; intros chunks lines prefix result Hm Hok Hfits Hwalk Hrun.
  { destruct chunks; simpl in Hrun; [|done]. by injection Hrun as <-. }
  destruct chunks as [|c chunks]; [simpl in Hrun; by injection Hrun as <-|].
  cbn [textwrap.wrap_loop] in Hrun.
  destruct (textwrap.wrap_line width (c :: chunks) lines) as [chunks3 lines'] eqn:Hline.
  destruct (wrap_line_general _ _ _ _ _ Hw Hok Hline)
    as (lead & line & trail & Hcat & Hlines & Hok3 & Hlead).
  set (prefix' := prefix ++ lead ++ line ++ trail).
  assert (Hm' : munged = prefix' ++ concat chunks3).
  { subst prefix'. rewrite Hm, Hcat. by rewrite <- !app_assoc. }
  assert (Hpre : len prefix' = len prefix + len lead + len line + len trail).
  { subst prefix'. rewrite !len_app. lia. }
  pose proof (len_nonneg prefix) as ?. pose proof (len_nonneg lead) as ?.
  pose proof (len_nonneg line) as ?. pose proof (len_nonneg trail) as ?.
  pose proof (len_nonneg (concat chunks3)) as ?.
  assert (Hin : len prefix' ≤ len para).
  { rewrite <- Hlen, Hm', len_app. lia. }
  assert (Hbase : walk_end para lines 0 ≤ len prefix + len lead).
  { destruct Hwalk as [Hwk|(Hwk & Hne & Hhead)]; [lia|].
    specialize (Hlead Hne Hhead). destruct lead; [done|]. rewrite len_cons in *.
    pose proof (len_nonneg lead). lia. }
  apply (IH chunks3 lines' prefix' result Hm' Hok3); [| |done].
  - destruct Hlines as [[-> _]| ->]; [done|].
    apply fits_para_app. split; [done|]. simpl. split; [lia|done].
  - destruct Hlines as [[-> _]| ->]; [left; lia|].
    rewrite walk_end_app. simpl. unfold next_char.
    destruct (space_consumed para (walk_end para lines 0 + len line)) eqn:Hsp; [|left; lia].
    destruct (decide (walk_end para lines 0 + len line = len prefix')) as [Heq|]; [|left; lia].
    right. split_and!; [lia|by destruct lines|].
    unfold space_consumed in Hsp. apply andb_prop in Hsp as [_ Hsp%bool_decide_eq_true].
    apply Hspace in Hsp. rewrite Heq in Hsp. unfold index in Hsp.
    destruct (Z.ltb_spec (len prefix') 0); [lia|].
    rewrite Hm', lookup_app_r in Hsp by (unfold len; lia).
    replace (Z.to_nat (len prefix') - length prefix')%nat with 0%nat in Hsp
      by (unfold len; lia).
    by rewrite <- head_lookup in Hsp.
Qed.

(** A paragraph without tabs: every line of the walk ends inside it. *)
Lemma wrap_para_fits para cpl wrapped :
  TAB ∉ para → 1 ≤ cpl → wrap_para para cpl = Some wrapped → fits_para para wrapped 0.
Proof.
  intros Htab Hcpl. unfold wrap_para.
  destruct (textwrap.wrap para cpl) as [ls|] eqn:Hwrap; simpl; [|done].
  intros [= <-]. pose proof (len_nonneg para) as Hp.
  case_bool_decide as Hnil; [simpl; unfold len in *; simpl; split; [lia|done]|].
  unfold textwrap.wrap, textwrap._wrap_chunks, textwrap._split_chunks in Hwrap.
  destruct (Z.leb_spec cpl 0); [lia|]. rewrite munge_no_tab in Hwrap by done.
  apply (wrap_loop_fits (textwrap.weight (textwrap._split (textwrap.translate_whitespace para)))
           cpl para (textwrap.translate_whitespace para) Hcpl
           (translate_length para) (translate_space para)
           (textwrap._split (textwrap.translate_whitespace para)) [] [] ls); simpl; try done.
  - by rewrite concat_split.
  - apply split_uniform, translate_chars.
  - left. unfold len. simpl. lia.
Qed.

Lemma walk_nonneg para wrapped pc : 0 ≤ pc → 0 ≤ walk_end para wrapped pc.
Proof.
  revert pc. induction wrapped as [|w wrapped IH]; intros pc Hpc; simpl; [done|].
  apply IH. pose proof (len_nonneg w). unfold next_char. destruct (space_consumed _ _); lia.
Qed.

(** The lines of a paragraph that fits start and end between its first
    offset and its end. *)
Lemma para_layout_fits para wrapped text_pos pc nl :
  0 ≤ pc → fits_para para wrapped pc →
  Forall (λ v, text_pos ≤ v_start v ∧ v_end v ≤ text_pos + len para)
         (para_layout para wrapped text_pos pc nl).
Proof.
  revert pc. induction wrapped as [|w wrapped IH]; intros pc Hpc Hfits; simpl; [constructor|].
  destruct Hfits as [Hw Hfits]. pose proof (len_nonneg w). constructor.
  - unfold v_end. simpl. lia.
  - apply IH; [|done]. unfold next_char. destruct (space_consumed _ _); lia.
Qed.

Lemma split_nl_no_tab t : TAB ∉ t → Forall (λ para, TAB ∉ para) (split_nl t).
Proof.
  intros Ht. rewrite <- (join_split_nl t) in Ht.
  pose proof (split_nl_nonempty t) as Hne. revert Ht Hne.
  generalize (split_nl t) as ps. clear t.
  induction ps as [|p ps IH]; intros Ht _; [constructor|].
  destruct ps as [|q ps]; [by repeat constructor|].
  cbn [join_nl] in Ht. apply not_elem_of_app in Ht as [Hp Ht].
  apply not_elem_of_cons in Ht as [_ Ht]. constructor; [done|]. by apply IH.
Qed.

(** Every line of the layout of a text without tabs lies inside the text. *)
Lemma layout_within cpl paragraphs text_pos lay :
  1 ≤ cpl → Forall (λ para, TAB ∉ para) paragraphs →
  layout cpl paragraphs text_pos = Some lay →
  Forall (λ v, text_pos ≤ v_start v ∧ v_end v ≤ text_pos + span paragraphs - 1) lay.
Proof.
  intros Hcpl. revert text_pos lay.
  induction paragraphs as [|para rest IH]; intros text_pos lay Htab Hlay.
  { injection Hlay as <-. constructor. }
  apply Forall_cons in Htab as [Hp Hrest].
  apply layout_cons in Hlay as (here & later & Hhere & Hlater & ->).
  pose proof (span_nonneg rest) as Hsp. pose proof (len_nonneg para) as Hlen.
  cbn [span]. apply Forall_app. split.
  - unfold here_layout in Hhere. case_bool_decide as Hnil.
    + injection Hhere as <-. repeat constructor; unfold v_end, len in *; simpl; lia.
    + destruct (wrap_para para cpl) as [wrapped|] eqn:Hwrap; simpl in Hhere; [|done].
      injection Hhere as <-.
      eapply Forall_impl;
        [apply para_layout_fits; [done|by apply (wrap_para_fits _ cpl)]|].
      simpl. intros v [? ?]. lia.
  - eapply Forall_impl; [apply (IH _ _ Hrest Hlater)|].
    simpl. intros v [? ?]. lia.
Qed.

(** In a text without tabs every line of the layout starts and ends at an
    offset of the text. *)
Lemma layout_in_text cpl t lay (i : nat) v :
  1 ≤ cpl → TAB ∉ t → layout cpl (split_nl t) 0 = Some lay → lay !! i = Some v →
  0 ≤ v_start v ∧ v_end v ≤ len t.
Proof.
  intros Hcpl Htab Hlay Hv.
  pose proof (layout_within _ _ _ _ Hcpl (split_nl_no_tab _ Htab) Hlay) as Hall.
  rewrite Forall_lookup in Hall. specialize (Hall i v Hv). rewrite span_split_nl in Hall. lia.
Qed.


(** ** Without tabs every key leaves the cursor inside the text *)

(** The cell of the cursor, as a line of the layout and a column on it. *)
Lemma wrap_with_cursor_cell self :
  1 ≤ chars_per_line self →
  ∃ lay (i : nat) v cursor_col,
    layout (chars_per_line self) (split_nl (text self)) 0 = Some lay ∧
    _wrap_with_cursor self = Some (map v_text lay, Z.of_nat i, cursor_col) ∧
    lay !! i = Some v ∧ 0 ≤ cursor_col ≤ len (v_text v).
Proof.
  intros Hcpl.
  destruct (wrap_with_cursor_total self Hcpl) as (lay & cl & cc & Hlay & _ & Hrun).
  destruct (wrap_with_cursor_valid _ _ _ _ _ Hlay Hrun) as [_ (i & v & Hcl & Hv & Hcc)].
  simpl in Hcl, Hcc. subst cl. exists lay, i, v, cc. by rewrite Z.add_0_l in Hrun.
Qed.

(** The offset of a cell on a line of the layout. *)
Lemma pos_on_line self lines0 lay (j : nat) v tc :
  TAB ∉ text self → 1 ≤ chars_per_line self →
  layout (chars_per_line self) (split_nl (text self)) 0 = Some lay →
  lay !! j = Some v → 0 ≤ tc →
  ∃ pos, _pos_from_line_col self lines0 (Z.of_nat j) tc = Some pos ∧
         0 ≤ pos ≤ len (text self).
Proof.
  intros Htab Hcpl Hlay Hv Htc.
  rewrite (pos_from_line_col_hit _ lines0 _ _ _ tc Hlay Hv). eexists. split; [done|].
  destruct (layout_in_text _ _ _ _ _ Hcpl Htab Hlay Hv) as [H0 Hend].
  unfold v_end in Hend. pose proof (len_nonneg (v_text v)). lia.
Qed.

Lemma len_insert_at (t ins : str) (c : Z) :
  0 ≤ c ≤ len t → len (slice_to t c ++ ins ++ slice_from t c) = len t + len ins.
Proof.
  intros Hc. rewrite slice_to_take, slice_from_drop by lia.
  unfold len in *. rewrite !length_app, length_take, length_drop. lia.
Qed.

Lemma len_delete_at (t : str) (c : Z) :
  0 ≤ c < len t → len (slice_to t c ++ slice_from t (c + 1)) = len t - 1.
Proof.
  intros Hc. rewrite slice_to_take, slice_from_drop by lia.
  unfold len in *. rewrite !length_app, length_take, length_drop. lia.
Qed.

Lemma cursor_up_in_text self :
  TAB ∉ text self → 1 ≤ chars_per_line self → cursor_in_text self →
  ∃ self', _cursor_up self = Some self' ∧ text self' = text self ∧ cursor_in_text self'.
Proof.
  intros Htab Hcpl Hin.
  destruct (wrap_with_cursor_cell self Hcpl) as (lay & i & v & cc & Hlay & Hrun & Hv & Hcc).
  unfold _cursor_up. rewrite Hrun. simpl.
  case_bool_decide as Hi; [by exists self|].
  destruct i as [|j]; [done|].
  replace (Z.of_nat (S j) - 1) with (Z.of_nat j) by lia.
  assert (is_Some (lay !! j)) as [v' Hv'].
  { apply lookup_lt_is_Some. apply lookup_lt_Some in Hv. lia. }
  rewrite index_of_nat, list_lookup_fmap, Hv'. simpl.
  pose proof (len_nonneg (v_text v')).
  destruct (pos_on_line self (map v_text lay) lay j v' (Z.min cc (len (v_text v')))
              Htab Hcpl Hlay Hv' ltac:(lia)) as (pos & -> & Hpos).
  simpl. eexists. split; [done|]. split; [done|]. unfold cursor_in_text. by simpl.
Qed.

Lemma cursor_down_in_text self :
  TAB ∉ text self → 1 ≤ chars_per_line self → cursor_in_text self →
  ∃ self', _cursor_down self = Some self' ∧ text self' = text self ∧ cursor_in_text self'.
Proof.
  intros Htab Hcpl Hin.
  destruct (wrap_with_cursor_cell self Hcpl) as (lay & i & v & cc & Hlay & Hrun & Hv & Hcc).
  unfold _cursor_down. rewrite Hrun. simpl.
  destruct (Z.leb_spec (len (map v_text lay) - 1) (Z.of_nat i)) as [|Hi]; [by exists self|].
  replace (Z.of_nat i + 1) with (Z.of_nat (S i)) by lia.
  assert (is_Some (lay !! S i)) as [v' Hv'].
  { apply lookup_lt_is_Some. unfold len in Hi. rewrite length_map in Hi. lia. }
  rewrite index_of_nat, list_lookup_fmap, Hv'. simpl.
  pose proof (len_nonneg (v_text v')).
  destruct (pos_on_line self (map v_text lay) lay (S i) v' (Z.min cc (len (v_text v')))
              Htab Hcpl Hlay Hv' ltac:(lia)) as (pos & -> & Hpos).
  simpl. eexists. split; [done|]. split; [done|]. unfold cursor_in_text. by simpl.
Qed.

(** The editing keys on a text without tabs: every one returns, with the
    cursor at an offset of the text it leaves. *)
Lemma edit_key_cursor_in_text keycode self :
  TAB ∉ text self → 1 ≤ chars_per_line self → cursor_in_text self →
  ∃ self', edit_key keycode self = Some self' ∧ cursor_in_text self'.
Proof.
  intros Htab Hcpl Hin. pose proof Hin as Hin'. unfold cursor_in_text in Hin'.
  unfold edit_key. repeat case_bool_decide.
  - destruct (Z.ltb_spec 0 (cursor self)); eexists; (split; [done|]);
      unfold cursor_in_text; simpl; lia.
  - destruct (Z.ltb_spec (cursor self) (len (text self))); eexists; (split; [done|]);
      unfold cursor_in_text; simpl; lia.
  - destruct (cursor_up_in_text self Htab Hcpl Hin) as (self1 & -> & _ & Hin1).
    simpl. eexists. split; [done|]. by destruct self1.
  - destruct (cursor_down_in_text self Htab Hcpl Hin) as (self1 & -> & _ & Hin1).
    simpl. eexists. split; [done|]. by destruct self1.
  - destruct (wrap_with_cursor_cell self Hcpl) as (lay & i & v & cc & Hlay & -> & Hv & Hcc).
    simpl.
    destruct (pos_on_line self (map v_text lay) lay i v 0 Htab Hcpl Hlay Hv ltac:(lia))
      as (pos & -> & Hpos).
    simpl. eexists. split; [done|]. unfold cursor_in_text. by simpl.
  - destruct (wrap_with_cursor_cell self Hcpl) as (lay & i & v & cc & Hlay & -> & Hv & Hcc).
    simpl. rewrite index_of_nat, list_lookup_fmap, Hv. simpl.
    destruct (pos_on_line self (map v_text lay) lay i v (len (v_text v)) Htab Hcpl Hlay Hv
                ltac:(apply len_nonneg)) as (pos & -> & Hpos).
    simpl. eexists. split; [done|]. unfold cursor_in_text. by simpl.
  - eexists. split; [done|]. unfold cursor_in_text. simpl.
    change (NL :: slice_from (text self) (cursor self))
      with ([NL] ++ slice_from (text self) (cursor self)).
    rewrite (len_insert_at (text self) [NL] (cursor self)) by done. unfold len in *. simpl. lia.
  - destruct (Z.ltb_spec 0 (cursor self)); (eexists; split; [done|]); [|done].
    unfold cursor_in_text. simpl.
    replace (slice_from (text self) (cursor self))
      with (slice_from (text self) (cursor self - 1 + 1)) by (f_equal; lia).
    rewrite len_delete_at by lia. lia.
  - destruct (Z.ltb_spec (cursor self) (len (text self))); (eexists; split; [done|]); [|done].
    unfold cursor_in_text. simpl. rewrite len_delete_at by lia. lia.
  - destruct (keymap_get keycode) as [[normal shifted]|]; (eexists; split; [done|]); [|done].
    unfold cursor_in_text. simpl. rewrite len_insert_at by done.
    pose proof (len_nonneg (if shift_held self then shifted else normal)). lia.
Qed.

Lemma save_document_cursor self w :
  text (save_document self w).1 = text self ∧
  cursor (save_document self w).1 = cursor self ∧
  chars_per_line (save_document self w).1 = chars_per_line self.
Proof. unfold save_document. by destruct (doc_path self) as [[|c p]|]. Qed.

Lemma render_total self :
  1 ≤ chars_per_line self →
  ∃ img offset, render self = Some (img, set_scroll_offset offset self).
Proof.
  intros Hcpl.
  destruct (wrap_with_cursor_total self Hcpl) as (lay & cl & cc & _ & _ & Hrun).
  destruct (render_scroll_offset _ _ _ _ Hrun) as (img & self' & -> & ->). eauto.
Qed.

Lemma sleep_mode_cursor self w :
  1 ≤ chars_per_line self → cursor_in_text self →
  ∃ self' w', _sleep_mode self w = Some (self', w') ∧ cursor_in_text self'.
Proof.
  intros Hcpl Hin. unfold _sleep_mode.
  destruct (render_total self Hcpl) as (img & offset & ->). simpl. eauto.
Qed.

Lemma load_document_cursor path self w : cursor_in_text (load_document path self w).1.
Proof.
  unfold load_document.
  match goal with |- context [let '(a, b) := ?e in _] => destruct e as [doc_path2 text2] end.
  unfold cursor_in_text. simpl. pose proof (len_nonneg text2). lia.
Qed.

Lemma switch_document_cursor direction self w :
  cursor_in_text self →
  ∃ self' w', _switch_document direction self w = Some (self', w') ∧ cursor_in_text self'.
Proof.
  intros Hin. unfold _switch_document.
  destruct (save_document_cursor self w) as (Ht & Hc & _).
  destruct (save_document self w) as [self1 w1]. simpl in Ht, Hc.
  assert (Hin1 : cursor_in_text self1) by (unfold cursor_in_text in *; by rewrite Ht, Hc).
  case_bool_decide; [eauto|].
  set (new_idx := _ + direction).
  destruct (Z.ltb_spec new_idx 0); [simpl; eauto|].
  destruct (Z.leb_spec (len (_list_docs w1)) new_idx); simpl; [eauto|].
  rewrite index_nonneg by done.
  destruct (lookup_lt_is_Some_2 (_list_docs w1) (Z.to_nat new_idx)) as [target ->];
    [unfold len in *; lia|].
  simpl. pose proof (load_document_cursor (Some target) self1 w1) as Hload.
  destruct (load_document (Some target) self1 w1) as [self2 w2]. simpl in Hload.
  do 2 eexists. split; [done|]. by destruct self2.
Qed.

(** On a text without tabs the walks of the model end, and every branch
    leaves the cursor inside the text. *)
Lemma handle_key_cursor keycode value self w :
  TAB ∉ text self → 1 ≤ chars_per_line self → cursor_in_text self →
  ∃ self' w', _handle_key keycode value self w = Some (self', w') ∧ cursor_in_text self'.
Proof.
  intros Htab Hcpl Hin. unfold _handle_key.
  destruct (_ || _); [by eauto|].
  destruct (_ || _); [by eauto|].
  destruct (value =? 0); [by eauto|].
  destruct (save_document_cursor self w) as (Ht & Hc & Hw).
  assert (Hin1 : cursor_in_text (save_document self w).1)
    by (unfold cursor_in_text in *; by rewrite Ht, Hc).
  destruct (_ && _).
  { destruct (save_document self w) as [self1 w1]. simpl in *.
    apply sleep_mode_cursor; [lia|done]. }
  destruct (_ && _).
  { destruct (save_document self w) as [self1 w1]. simpl in *.
    do 2 eexists. split; [done|]. by destruct self1. }
  destruct (_ && _).
  { unfold new_document. destruct (save_document self w) as [self1 w1].
    do 2 eexists. split; [done|]. unfold cursor_in_text. simpl. unfold len. simpl. lia. }
  destruct (_ && _).
  { destruct (render_total self Hcpl) as (img & offset & ->). simpl. eauto. }
  destruct (_ && _); [by apply switch_document_cursor|].
  destruct (_ && _); [by apply switch_document_cursor|].
  destruct (edit_key_cursor_in_text keycode self Htab Hcpl Hin) as (self1 & -> & Hin').
  simpl. eauto.
Qed.

(** X22: the cursor stays in the text where no tab is.  On a text without
    tabs, at a width of one column or more, with the cursor at an offset of
    the text: while Ctrl is not held [_handle_key] handles every key event
    - it returns, the storage and the display untouched - and whenever
    [_handle_key] returns, Ctrl held or not, the cursor is at an offset of
    the text, from 0 to its length. *)
Theorem handle_key_cursor_in_text keycode value self w :
  TAB ∉ text self → 1 ≤ chars_per_line self → cursor_in_text self →
  (ctrl_held self = false →
   ∃ self', _handle_key keycode value self w = Some (self', w) ∧ cursor_in_text self') ∧
  (∀ self' w', _handle_key keycode value self w = Some (self', w') → cursor_in_text self').
Proof.
  intros Htab Hcpl Hin.
  destruct (handle_key_cursor keycode value self w Htab Hcpl Hin) as (s & v & Hrun & Hs).
  split.
  - intros Hctrl. exists s. split; [|done]. rewrite Hrun. do 2 f_equal.
    unfold _handle_key in Hrun. rewrite Hctrl in Hrun. cbn [andb] in Hrun.
    destruct (_ || _); [by injection Hrun|].
    destruct (_ || _); [by injection Hrun|].
    destruct (value =? 0); [by injection Hrun|].
    destruct (edit_key keycode self); simpl in Hrun; [by injection Hrun|done].
  - intros self' w' Hrun'. rewrite Hrun in Hrun'. by injection Hrun' as <- _.
Qed.

(** The End key on "hello world" at a width of 5. *)
Lemma handle_key_cursor_in_text_witness :
  (∃ self', _handle_key ecodes.KEY_END 1 hello_world empty_world = Some (self', empty_world) ∧
            cursor_in_text self') ∧
  (∀ self' w', _handle_key ecodes.KEY_END 1 hello_world empty_world = Some (self', w') →
               cursor_in_text self').
Proof.
  assert (TAB ∉ text hello_world) as Htab by (apply (bool_decide_unpack _); by vm_compute).
  assert (cursor_in_text hello_world) as Hin
    by (unfold cursor_in_text; simpl; unfold len; simpl; lia).
  destruct (handle_key_cursor_in_text ecodes.KEY_END 1 hello_world empty_world Htab
              ltac:(simpl; lia) Hin) as [Hhandled Hkept].
  split; [by apply Hhandled|done].
Defined.


(** ** The cell of the cursor and the offsets of a line *)

(** X1: at any width of one column or more, for every text and every
    cursor value, [_wrap_with_cursor] returns: the line of the cursor is one
    of the lines it returns, and the column runs from 0 to the length of
    that line. *)
Theorem wrap_with_cursor_cell_on_a_line (self : EtyperApp) :
  1 ≤ chars_per_line self →
  ∃ lines cursor_line cursor_col line,
    _wrap_with_cursor self = Some (lines, cursor_line, cursor_col) ∧
    0 ≤ cursor_line < len lines ∧ index lines cursor_line = Some line ∧
    0 ≤ cursor_col ≤ len line.
Proof.
  intros Hcpl.
  destruct (wrap_with_cursor_cell self Hcpl) as (lay & i & v & cc & Hlay & Hrun & Hv & Hcc).
  exists (map v_text lay), (Z.of_nat i), cc, (v_text v). split_and!; try done; try lia.
  - apply lookup_lt_Some in Hv. unfold len. rewrite length_map. lia.
  - by rewrite index_of_nat, list_lookup_fmap, Hv.
Qed.

Lemma wrap_with_cursor_cell_on_a_line_witness :
  ∃ lines cursor_line cursor_col line,
    _wrap_with_cursor tab_document = Some (lines, cursor_line, cursor_col) ∧
    0 ≤ cursor_line < len lines ∧ index lines cursor_line = Some line ∧
    0 ≤ cursor_col ≤ len line.
Proof. apply wrap_with_cursor_cell_on_a_line. simpl. lia. Defined.

(** X2: [_pos_from_line_col] on a line of the wrapped text is the offset of
    its column 0 plus the column, the column clamped to the length of the
    line from above only. *)
Theorem pos_from_line_col_clamps_column
    (self : EtyperApp) (lines : list str) (cursor_line cursor_col : Z)
    (target_line target_col : Z) (line : str) :
  1 ≤ chars_per_line self →
  _wrap_with_cursor self = Some (lines, cursor_line, cursor_col) →
  0 ≤ target_line → index lines target_line = Some line →
  ∃ start, _pos_from_line_col self lines target_line 0 = Some start ∧
           _pos_from_line_col self lines target_line target_col =
             Some (start + Z.min target_col (len line)).
Proof.
  intros Hcpl Hrun Htl Hline.
  destruct (wrap_with_cursor_total self Hcpl) as (lay & cl & cc & Hlay & _ & Hrun').
  rewrite Hrun in Hrun'. injection Hrun' as -> _ _.
  rewrite index_nonneg, list_lookup_fmap in Hline by done.
  destruct (lay !! Z.to_nat target_line) as [v|] eqn:Hv; simpl in Hline; [|done].
  injection Hline as <-. exists (v_start v).
  replace target_line with (Z.of_nat (Z.to_nat target_line)) by lia.
  rewrite !(pos_from_line_col_hit _ _ _ _ _ _ Hlay Hv).
  pose proof (len_nonneg (v_text v)). split; f_equal; lia.
Qed.

Lemma pos_from_line_col_clamps_column_witness :
  ∃ start, _pos_from_line_col hello_world (map py ["hello"; "world"]%string) 1 0 = Some start ∧
           _pos_from_line_col hello_world (map py ["hello"; "world"]%string) 1 9 =
             Some (start + Z.min 9 (len (py "world"))).
Proof.
  apply (pos_from_line_col_clamps_column hello_world _ 0 0); [simpl; lia| |lia|]; by vm_compute.
Defined.

(** ** A width of zero or less *)

Lemma wrap_para_invalid_width para cpl : cpl ≤ 0 → wrap_para para cpl = None.
Proof.
  intros Hcpl. unfold wrap_para, textwrap.wrap, textwrap._wrap_chunks.
  by destruct (Z.leb_spec cpl 0); [|lia].
Qed.

Lemma split_nl_some_paragraph t :
  Exists (λ para, para ≠ []) (split_nl t) ↔ ∃ c, c ∈ t ∧ c ≠ NL.
Proof.
  induction t as [|c t IH]; simpl.
  - split.
    + intros [H|H]%Exists_cons; [done|]. by apply Exists_nil in H.
    + intros (c & Hc & _). by apply elem_of_nil in Hc.
  - destruct (N.eqb_spec c NL) as [->|Hc].
    + rewrite Exists_cons, IH. split.
      * intros [H|(d & Hd & Hne)]; [done|]. exists d. split; [by right|done].
      * intros (d & [->|Hd]%elem_of_cons & Hne); [done|]. right. eauto.
    + split; [intros _; exists c; split; [by left|done]|]. intros _.
      destruct (split_nl t); by apply Exists_cons_hd.
Qed.

Lemma wrap_paragraphs_invalid_width cpl n paragraphs p_idx st :
  cpl ≤ 0 →
  (Exists (λ para, para ≠ []) paragraphs → wrap_paragraphs cpl n paragraphs p_idx st = None) ∧
  (Forall (λ para, para = []) paragraphs →
   is_Some (wrap_paragraphs cpl n paragraphs p_idx st)).
Proof.
  intros Hcpl. revert p_idx st.
  induction paragraphs as [|para rest IH]; intros p_idx st.
  { split; [by intros H%Exists_nil|done]. }
  cbn [wrap_paragraphs]. unfold wrap_paragraph. split.
  - intros Hex. case_bool_decide as Hnil.
    + simpl. apply IH. apply Exists_cons in Hex as [H|H]; done.
    + by rewrite wrap_para_invalid_width.
  - intros [-> Hrest]%Forall_cons. rewrite bool_decide_eq_true_2 by done. simpl.
    by apply IH.
Qed.

(** X3: with [chars_per_line] at zero or below, [_wrap_with_cursor] fails -
    [textwrap.wrap] raises [ValueError] for the width - exactly when the
    text holds a character other than the newline: a text of empty
    paragraphs never reaches [textwrap]. *)
Theorem wrap_with_cursor_invalid_width (self : EtyperApp) :
  chars_per_line self ≤ 0 →
  (_wrap_with_cursor self = None ↔ ∃ c, c ∈ text self ∧ c ≠ NL).
Proof.
  intros Hcpl. rewrite <- split_nl_some_paragraph.
  destruct (wrap_paragraphs_invalid_width (chars_per_line self)
              (len (split_nl (text self))) (split_nl (text self)) 0 (mkWrap [] ∅ 0 0) Hcpl)
    as [Hfail Hrun].
  unfold _wrap_with_cursor, wrap_layout. split.
  - intros Hnone.
    destruct (decide (Exists (λ para, para ≠ []) (split_nl (text self)))) as [|Hno]; [done|].
    exfalso. apply not_Exists_Forall in Hno; [|intros para; apply _].
    destruct Hrun as [st Hst].
    { eapply Forall_impl; [exact Hno|]. simpl. intros para Hp.
      by destruct (decide (para = [])) as [|Hne]; [|destruct (Hp Hne)]. }
    rewrite Hst in Hnone. simpl in Hnone.
    set (lines := if bool_decide (w_lines st = []) then [[]] else w_lines st) in *.
    assert (Hne : lines ≠ []) by (subst lines; by case_bool_decide).
    unfold find_cursor in Hnone. rewrite (index_last_is_last _ Hne) in Hnone.
    destruct (last lines) as [l|] eqn:Hlast; [|by apply last_None in Hlast].
    rewrite bool_decide_eq_false_2 in Hnone by done. simpl in Hnone.
    destruct (len (text self) <=? cursor self); [done|].
    by destruct (w_char_to_pos st !! cursor self) as [[? ?]|].
  - intros Hex. by rewrite (Hfail Hex).
Qed.

Lemma wrap_with_cursor_invalid_width_witness :
  chars_per_line zero_width ≤ 0 ∧ _wrap_with_cursor zero_width = None.
Proof.
  split; [simpl; lia|]. apply wrap_with_cursor_invalid_width; [simpl; lia|].
  exists 97%N. split; [by left|done].
Defined.


(** ** What the editing keys change *)

Lemma set_cursor_same self : set_cursor (cursor self) self = self.
Proof. by destruct self. Qed.

Lemma cursor_up_moves self self' :
  _cursor_up self = Some self' → ∃ pos, self' = set_cursor pos self.
Proof.
  unfold _cursor_up. destruct (_wrap_with_cursor self) as [[[lines cl] cc]|]; simpl; [|done].
  case_bool_decide; [intros [= <-]; exists (cursor self); by rewrite set_cursor_same|].
  destruct (index lines (cl - 1)); simpl; [|done].
  destruct (_pos_from_line_col _ _ _ _) as [pos|]; simpl; [|done]. intros [= <-]. eauto.
Qed.

Lemma cursor_down_moves self self' :
  _cursor_down self = Some self' → ∃ pos, self' = set_cursor pos self.
Proof.
  unfold _cursor_down. destruct (_wrap_with_cursor self) as [[[lines cl] cc]|]; simpl; [|done].
  destruct (len lines - 1 <=? cl);
    [intros [= <-]; exists (cursor self); by rewrite set_cursor_same|].
  destruct (index lines (cl + 1)); simpl; [|done].
  destruct (_pos_from_line_col _ _ _ _) as [pos|]; simpl; [|done]. intros [= <-]. eauto.
Qed.

Lemma lookup_key_elem keycode m chars :
  lookup_key keycode m = Some chars → (keycode, chars) ∈ m.
Proof.
  induction m as [|[code c] m IH]; simpl; [done|].
  case_bool_decide as Hc; [intros [= <-]; subst; by left|]. intros H. right. by apply IH.
Qed.

(** No key of [KEYMAP] types a tab or a newline, and none of them is an
    editing key or a modifier; every key but Tab types one character. *)
Lemma keymap_chars keycode normal shifted :
  keymap_get keycode = Some (normal, shifted) →
  (TAB ∉ normal) ∧ (TAB ∉ shifted) ∧ (NL ∉ normal) ∧ (NL ∉ shifted) ∧
  (keycode ∉ [ecodes.KEY_LEFT; ecodes.KEY_RIGHT; ecodes.KEY_UP; ecodes.KEY_DOWN;
             ecodes.KEY_HOME; ecodes.KEY_END; ecodes.KEY_ENTER; ecodes.KEY_BACKSPACE;
             ecodes.KEY_DELETE; ecodes.KEY_LEFTSHIFT; ecodes.KEY_RIGHTSHIFT;
             ecodes.KEY_LEFTCTRL; ecodes.KEY_RIGHTCTRL]) ∧
  (keycode ≠ ecodes.KEY_TAB → len normal = 1 ∧ len shifted = 1).
Proof.
  intros Hk%lookup_key_elem. revert Hk.
  assert (Forall (λ e : Z * (str * str),
            bool_decide ((TAB ∉ e.2.1) ∧ (TAB ∉ e.2.2) ∧ (NL ∉ e.2.1) ∧ (NL ∉ e.2.2) ∧
              (e.1 ∉ [ecodes.KEY_LEFT; ecodes.KEY_RIGHT; ecodes.KEY_UP; ecodes.KEY_DOWN;
                     ecodes.KEY_HOME; ecodes.KEY_END; ecodes.KEY_ENTER; ecodes.KEY_BACKSPACE;
                     ecodes.KEY_DELETE; ecodes.KEY_LEFTSHIFT; ecodes.KEY_RIGHTSHIFT;
                     ecodes.KEY_LEFTCTRL; ecodes.KEY_RIGHTCTRL]) ∧
              (e.1 ≠ ecodes.KEY_TAB → len e.2.1 = 1 ∧ len e.2.2 = 1)) = true) KEYMAP) as Hall.
  { apply (bool_decide_unpack _). by vm_compute. }
  rewrite Forall_forall in Hall. intros Hk. specialize (Hall _ Hk).
  by apply bool_decide_eq_true in Hall.
Qed.

Lemma not_elem_of_take_drop (c : N) (t ins : str) (i j : nat) :
  c ∉ t → c ∉ ins → c ∉ take i t ++ ins ++ drop j t.
Proof.
  intros Ht Hins [H|[H|H]%elem_of_app]%elem_of_app; [|done|].
  - by apply Ht, (subseteq_take i t).
  - by apply Ht, (subseteq_drop j t).
Qed.

Lemma not_elem_of_slices (c : N) (t ins : str) (a b : Z) :
  c ∉ t → c ∉ ins → c ∉ slice_to t a ++ ins ++ slice_from t b.
Proof. unfold slice_to, slice_from. apply not_elem_of_take_drop. Qed.

(** What an editing key may change: the path, the width and the page
    height never; the text only with the dirty flag set; text or cursor only
    with a display update asked for; and a tab comes into the text by none
    of them. *)
Lemma edit_key_frame keycode self self' :
  edit_key keycode self = Some self' →
  doc_path self' = doc_path self ∧ chars_per_line self' = chars_per_line self ∧
  lines_per_page self' = lines_per_page self ∧ running self' = running self ∧
  (text self' ≠ text self → dirty self' = true) ∧
  (text self' ≠ text self ∨ cursor self' ≠ cursor self → needs_display_update self' = true) ∧
  (TAB ∉ text self → TAB ∉ text self').
Proof.
  unfold edit_key.
  repeat (case_bool_decide;
          [try (destruct (_ <? _); intros [= <-]; simpl; split_and!; try done; tauto)|]).
  - destruct (_cursor_up self) as [s|] eqn:Hs; simpl; [|done].
    apply cursor_up_moves in Hs as [pos ->]. intros [= <-]. simpl. split_and!; try done; tauto.
  - destruct (_cursor_down self) as [s|] eqn:Hs; simpl; [|done].
    apply cursor_down_moves in Hs as [pos ->]. intros [= <-]. simpl. split_and!; try done; tauto.
  - destruct (_wrap_with_cursor self) as [[[lines cl] cc]|]; simpl; [|done].
    destruct (_pos_from_line_col _ _ _ _); simpl; [|done].
    intros [= <-]. simpl. split_and!; try done; tauto.
  - destruct (_wrap_with_cursor self) as [[[lines cl] cc]|]; simpl; [|done].
    destruct (index lines cl); simpl; [|done].
    destruct (_pos_from_line_col _ _ _ _); simpl; [|done].
    intros [= <-]. simpl. split_and!; try done; tauto.
  - intros [= <-]. simpl. split_and!; try done.
    intros Ht. apply (not_elem_of_slices TAB (text self) [NL]); [done|].
    by intros [= ]%list_elem_of_singleton.
  - destruct (_ <? _); intros [= <-]; simpl; split_and!; try done; try tauto.
    intros Ht. apply (not_elem_of_slices TAB (text self) []); [done|]. apply not_elem_of_nil.
  - destruct (_ <? _); intros [= <-]; simpl; split_and!; try done; try tauto.
    intros Ht. apply (not_elem_of_slices TAB (text self) []); [done|]. apply not_elem_of_nil.
  - destruct (keymap_get keycode) as [[normal shifted]|] eqn:Hk;
      intros [= <-]; simpl; split_and!; try done; try tauto.
    destruct (keymap_chars _ _ _ Hk) as (Hn & Hs & _).
    intros Ht. apply not_elem_of_slices; [done|]. by destruct (shift_held self).
Qed.

(** X4: with Ctrl not held, a key event - whatever the key and the value -
    touches neither the files nor the display and leaves the path of the
    document; if it changes the text it sets the dirty flag, and if it
    changes text or cursor it asks for a display update. *)
Theorem key_without_ctrl_marks_edits
    (keycode value : Z) (self : EtyperApp) (w : World) (self' : EtyperApp) (w' : World) :
  ctrl_held self = false →
  _handle_key keycode value self w = Some (self', w') →
  w' = w ∧ doc_path self' = doc_path self ∧
  (text self' ≠ text self → dirty self' = true) ∧
  (text self' ≠ text self ∨ cursor self' ≠ cursor self → needs_display_update self' = true).
Proof.
  intros Hctrl. unfold _handle_key. rewrite Hctrl. simpl.
  destruct (_ || _); [intros [= <- <-]; simpl; split_and!; try done; tauto|].
  destruct (_ || _); [intros [= <- <-]; simpl; split_and!; try done; tauto|].
  destruct (value =? 0); [intros [= <- <-]; simpl; split_and!; try done; tauto|].
  destruct (edit_key keycode self) as [s|] eqn:Hs; simpl; [|done].
  intros [= <- <-]. destruct (edit_key_frame _ _ _ Hs) as (? & _ & _ & _ & ? & ? & _). done.
Qed.

Lemma key_without_ctrl_marks_edits_witness :
  empty_world = empty_world ∧
  doc_path (set_needs_display_update true (set_dirty true (set_cursor 1
              (set_text (py "ahello world") hello_world)))) = doc_path hello_world ∧
  (py "ahello world" ≠ text hello_world → true = true) ∧
  (py "ahello world" ≠ text hello_world ∨ 1 ≠ cursor hello_world → true = true).
Proof.
  apply (key_without_ctrl_marks_edits ecodes.KEY_A 1 hello_world empty_world
           (set_needs_display_update true (set_dirty true (set_cursor 1
              (set_text (py "ahello world") hello_world)))) empty_world);
    [done|by vm_compute].
Defined.

(** X5: on a character of the text, Delete does what Right followed by
    Backspace does: the same text, cursor and flags. *)
Theorem delete_is_right_then_backspace (value : Z) (self : EtyperApp) (w : World) :
  ctrl_held self = false → value ≠ 0 → 0 ≤ cursor self < len (text self) →
  _handle_key ecodes.KEY_DELETE value self w =
    '(self1, w1) ← _handle_key ecodes.KEY_RIGHT value self w;
    _handle_key ecodes.KEY_BACKSPACE value self1 w1.
Proof.
  intros Hctrl Hv Hc. unfold _handle_key. rewrite Hctrl.
  destruct (Z.eqb_spec value 0); [done|]. simpl.
  unfold edit_key. simpl.
  destruct (Z.ltb_spec (cursor self) (len (text self))); [|lia]. simpl. rewrite Hctrl.
  destruct (Z.eqb_spec value 0); [done|]. simpl.
  destruct (Z.ltb_spec 0 (cursor self + 1)); [|lia].
  replace (cursor self + 1 - 1) with (cursor self) by lia. by destruct self.
Qed.

Lemma delete_is_right_then_backspace_witness :
  _handle_key ecodes.KEY_DELETE 1 hello_world empty_world =
    '(self1, w1) ← _handle_key ecodes.KEY_RIGHT 1 hello_world empty_world;
    _handle_key ecodes.KEY_BACKSPACE 1 self1 w1.
Proof. apply delete_is_right_then_backspace; [done|done|]. by vm_compute. Defined.

Lemma take_insert_drop (t ins : str) (c : nat) :
  (c ≤ length t)%nat →
  take c (take c t ++ ins ++ drop c t) = take c t ∧
  drop (c + length ins) (take c t ++ ins ++ drop c t) = drop c t.
Proof.
  intros Hc. split.
  - rewrite take_app_le by (rewrite length_take; lia). rewrite take_take. f_equal. lia.
  - rewrite drop_app_ge by (rewrite length_take; lia). rewrite length_take.
    replace (c + length ins - c `min` length t)%nat with (length ins) by lia.
    by rewrite drop_app_length.
Qed.

(** The key that types, then Backspace, in the editing branch. *)
Lemma edit_key_then_backspace (keycode : Z) (self : EtyperApp) :
  keycode = ecodes.KEY_ENTER ∨ (is_Some (keymap_get keycode) ∧ keycode ≠ ecodes.KEY_TAB) →
  cursor_in_text self →
  ∃ self1 self2,
    edit_key keycode self = Some self1 ∧ edit_key ecodes.KEY_BACKSPACE self1 = Some self2 ∧
    text self1 ≠ text self ∧ text self2 = text self ∧ cursor self2 = cursor self.
Proof.
  intros Hkey Hin. unfold cursor_in_text in Hin.
  assert (∃ char, len char = 1 ∧
            edit_key keycode self =
              Some (set_needs_display_update true
                      (set_dirty true (set_cursor (cursor self + len char)
                         (set_text (slice_to (text self) (cursor self) ++ char ++
                                    slice_from (text self) (cursor self)) self)))))
    as (char & Hlen & Hedit).
  { destruct Hkey as [->|[[[normal shifted] Hk] Htab]].
    - exists [NL]. by split.
    - destruct (keymap_chars _ _ _ Hk) as (_ & _ & _ & _ & Hnot & Hone).
      destruct (Hone Htab) as [Hn Hs].
      exists (if shift_held self then shifted else normal).
      split; [by destruct (shift_held self)|].
      unfold edit_key. rewrite Hk.
      repeat (rewrite bool_decide_eq_false_2;
              [|intros ->; apply Hnot; set_solver]).
      done. }
  rewrite Hedit. do 2 eexists. split; [done|].
  unfold edit_key. simpl. rewrite Hlen.
  destruct (Z.ltb_spec 0 (cursor self + 1)); [|lia].
  replace (cursor self + 1 - 1) with (cursor self) by lia.
  split; [done|]. simpl.
  rewrite !slice_to_take, !slice_from_drop by lia.
  destruct (take_insert_drop (text self) char (Z.to_nat (cursor self))) as [Htake Hdrop];
    [unfold len in *; lia|].
  replace (Z.to_nat (cursor self + 1)) with (Z.to_nat (cursor self) + length char)%nat
    by (unfold len in *; lia).
  rewrite Htake, Hdrop, take_drop. split_and!; try done.
  intros Heq%(f_equal length). rewrite !length_app, length_take, length_drop in Heq.
  unfold len in *. lia.
Qed.

(** Without Ctrl, a press or repeat of a key that is no modifier goes to the
    editing branch. *)
Lemma handle_key_edits keycode value self w :
  ctrl_held self = false → value ≠ 0 →
  keycode ∉ [ecodes.KEY_LEFTSHIFT; ecodes.KEY_RIGHTSHIFT;
             ecodes.KEY_LEFTCTRL; ecodes.KEY_RIGHTCTRL] →
  _handle_key keycode value self w = self1 ← edit_key keycode self; Some (self1, w).
Proof.
  intros Hctrl Hvalue Hkey. unfold _handle_key.
  rewrite !(bool_decide_eq_false_2 (keycode = _)) by (intros ->; apply Hkey; set_solver).
  cbn [orb]. destruct (Z.eqb_spec value 0); [done|]. by rewrite Hctrl.
Qed.

(** X6: Backspace undoes a typed character.  While Ctrl is not held, with
    the cursor at an offset of the text, [_handle_key] handles a press or
    repeat of Enter, or of a key of [KEYMAP] other than Tab, with or without
    Shift, and the text changes; it handles a press or repeat of Backspace
    after it, which gives back the text and the cursor there were; neither
    touches the storage or the display. *)
Theorem backspace_undoes_typed_character
    (keycode value value' : Z) (self : EtyperApp) (w : World) :
  ctrl_held self = false → value ≠ 0 → value' ≠ 0 →
  keycode = ecodes.KEY_ENTER ∨ (is_Some (keymap_get keycode) ∧ keycode ≠ ecodes.KEY_TAB) →
  cursor_in_text self →
  ∃ self1 self2,
    _handle_key keycode value self w = Some (self1, w) ∧
    _handle_key ecodes.KEY_BACKSPACE value' self1 w = Some (self2, w) ∧
    text self1 ≠ text self ∧ text self2 = text self ∧ cursor self2 = cursor self.
Proof.
  intros Hctrl Hvalue Hvalue' Hkey Hin.
  destruct (edit_key_then_backspace keycode self Hkey Hin)
    as (self1 & self2 & Hedit & Hback & Hchanged & Htext & Hcursor).
  exists self1, self2.
  assert (keycode ∉ [ecodes.KEY_LEFTSHIFT; ecodes.KEY_RIGHTSHIFT;
                     ecodes.KEY_LEFTCTRL; ecodes.KEY_RIGHTCTRL]) as Hplain.
  { destruct Hkey as [->|[[[normal shifted] Hk] _]].
    - apply (bool_decide_unpack _). by vm_compute.
    - destruct (keymap_chars _ _ _ Hk) as (_ & _ & _ & _ & Hnot & _).
      intros Hel. apply Hnot. do 9 right. exact Hel. }
  rewrite (handle_key_edits _ _ _ _ Hctrl Hvalue Hplain), Hedit.
  split; [done|].
  rewrite (handle_key_edits ecodes.KEY_BACKSPACE value' self1 w); [by rewrite Hback| |done|].
  - rewrite <- Hctrl. by eapply edit_key_ctrl.
  - apply (bool_decide_unpack _). by vm_compute.
Qed.

Lemma backspace_undoes_typed_character_witness :
  ∃ self1 self2,
    _handle_key ecodes.KEY_A 1 hello_world empty_world = Some (self1, empty_world) ∧
    _handle_key ecodes.KEY_BACKSPACE 1 self1 empty_world = Some (self2, empty_world) ∧
    text self1 ≠ text hello_world ∧ text self2 = text hello_world ∧
    cursor self2 = cursor hello_world.
Proof.
  apply backspace_undoes_typed_character; [done|done|done| |].
  - right. split; [by eexists|done].
  - unfold cursor_in_text. simpl. unfold len. simpl. lia.
Defined.

(** ** A session of typing *)

(** What the loop keeps while no Ctrl key comes: Ctrl not held, no tab in
    the text, a width of a column or more, the cursor inside the text. *)
Lemma handle_key_typing keycode value self w :
  no_ctrl_key (ecodes.EV_KEY, keycode, value) = true →
  ctrl_held self = false → TAB ∉ text self → 1 ≤ chars_per_line self → cursor_in_text self →
  ∃ self', _handle_key keycode value self w = Some (self', w) ∧
    ctrl_held self' = false ∧ (TAB ∉ text self') ∧ 1 ≤ chars_per_line self' ∧
    cursor_in_text self' ∧ doc_path self' = doc_path self.
Proof.
  intros [Hl Hr]%andb_prop Hctrl Htab Hcpl Hin.
  apply negb_true_iff, bool_decide_eq_false in Hl, Hr. simpl in Hl, Hr.
  unfold _handle_key. rewrite Hctrl. simpl.
  destruct (_ || _); [by eexists|].
  rewrite (bool_decide_eq_false_2 _ Hl), (bool_decide_eq_false_2 _ Hr). simpl.
  destruct (value =? 0); [by eexists|].
  destruct (edit_key_cursor_in_text keycode self Htab Hcpl Hin) as (self1 & Hedit & Hin1).
  rewrite Hedit. simpl. exists self1. split; [done|].
  destruct (edit_key_frame _ _ _ Hedit) as (Hp & Hw & _ & _ & _ & _ & Ht).
  rewrite (edit_key_ctrl _ _ _ Hedit), Hw. split_and!; try done. by apply Ht.
Qed.

Lemma handle_events_typing events self w :
  forallb no_ctrl_key events = true →
  ctrl_held self = false → TAB ∉ text self → 1 ≤ chars_per_line self → cursor_in_text self →
  ∃ self', handle_events events self w = Some (self', w) ∧
    ctrl_held self' = false ∧ (TAB ∉ text self') ∧ 1 ≤ chars_per_line self' ∧
    cursor_in_text self' ∧ doc_path self' = doc_path self.
Proof.
  revert self. induction events as [|[[type code] value] events IH];
    intros self Hev Hctrl Htab Hcpl Hin; simpl.
  - by exists self.
  - simpl in Hev. apply andb_prop in Hev as [He Hev].
    case_bool_decide; [|by apply IH].
    destruct (handle_key_typing code value self w He Hctrl Htab Hcpl Hin)
      as (self1 & -> & Hctrl1 & Htab1 & Hcpl1 & Hin1 & Hp1).
    simpl. destruct (IH self1 Hev Hctrl1 Htab1 Hcpl1 Hin1) as (self2 & -> & ? & ? & ? & ? & Hp2).
    exists self2. split_and!; try done. congruence.
Qed.

Lemma check_autosave_frame self w :
  text (_check_autosave self w).1 = text self ∧
  cursor (_check_autosave self w).1 = cursor self ∧
  chars_per_line (_check_autosave self w).1 = chars_per_line self ∧
  ctrl_held (_check_autosave self w).1 = ctrl_held self ∧
  doc_path (_check_autosave self w).1 = doc_path self.
Proof.
  unfold _check_autosave, save_document.
  destruct (dirty self && _); [|done].
  destruct (doc_path self) as [[|c p]|] eqn:Hp; simpl; by rewrite ?Hp.
Qed.

Lemma main_loop_pass_typing p self w :
  pass_without_ctrl p = true →
  ctrl_held self = false → TAB ∉ text self → 1 ≤ chars_per_line self → cursor_in_text self →
  ∃ self' w', main_loop_pass p.2 self w = Some (self', w') ∧
    ctrl_held self' = false ∧ (TAB ∉ text self') ∧ 1 ≤ chars_per_line self' ∧
    cursor_in_text self' ∧ doc_path self' = doc_path self.
Proof.
  intros Hp Hctrl Htab Hcpl Hin. unfold pass_without_ctrl in Hp. unfold main_loop_pass.
  assert (Hsave : ∀ s v, ctrl_held s = false → TAB ∉ text s → 1 ≤ chars_per_line s →
            cursor_in_text s → doc_path s = doc_path self →
            ∃ self' w', Some (_check_autosave s v) = Some (self', w') ∧
              ctrl_held self' = false ∧ (TAB ∉ text self') ∧ 1 ≤ chars_per_line self' ∧
              cursor_in_text self' ∧ doc_path self' = doc_path self).
  { intros s v Hc Ht Hw Hi Hpath.
    destruct (check_autosave_frame s v) as (Et & Ec & Ew & Ek & Ep).
    destruct (_check_autosave s v) as [s' v']. simpl in *. exists s', v'.
    unfold cursor_in_text in *. rewrite Et, Ec, Ew, Ek, Ep. done. }
  destruct p.2 as [|events|].
  - by apply Hsave.
  - destruct (handle_events_typing events self w Hp Hctrl Htab Hcpl Hin)
      as (self1 & -> & Hctrl1 & Htab1 & Hcpl1 & Hin1 & Hp1).
    simpl. destruct (needs_display_update self1); simpl; [|by apply Hsave].
    destruct (render_total self1 Hcpl1) as (img & offset & ->). simpl.
    by apply Hsave.
  - exists self, w. done.
Qed.

(** X7: typing never fails.  From a text without tabs, with the cursor
    inside it, at a width of one column or more and with Ctrl not held, the
    main loop goes through any passes in which no Ctrl key event comes -
    whatever the other keys, the clock and the state of the keyboard -
    without raising; the text still has no tab, the cursor is still inside
    it, and the document is the same. *)
Theorem typing_session_never_fails (passes : list (Z * poll)) (self : EtyperApp) (w : World) :
  ctrl_held self = false → forallb pass_without_ctrl passes = true →
  TAB ∉ text self → 1 ≤ chars_per_line self → cursor_in_text self →
  ∃ self' w', _main_loop passes self w = Some (self', w') ∧
    (TAB ∉ text self') ∧ cursor_in_text self' ∧ doc_path self' = doc_path self.
Proof.
  revert self w. induction passes as [|[now p] passes IH];
    intros self w Hctrl Hpasses Htab Hcpl Hin; simpl.
  - by exists self, w.
  - simpl in Hpasses. apply andb_prop in Hpasses as [Hp Hpasses].
    destruct (running self); [|by exists self, w].
    destruct (main_loop_pass_typing (now, p) self (set_clock now w) Hp Hctrl Htab Hcpl Hin)
      as (self1 & w1 & Hpass & Hctrl1 & Htab1 & Hcpl1 & Hin1 & Hp1).
    simpl in Hpass. rewrite Hpass. simpl.
    destruct (IH self1 w1 Hctrl1 Hpasses Htab1 Hcpl1 Hin1) as (self2 & w2 & -> & ? & ? & Hp2).
    exists self2, w2. split_and!; try done. congruence.
Qed.

Lemma typing_session_never_fails_witness :
  ∃ self' w', _main_loop six_minutes hello_world empty_world = Some (self', w') ∧
    (TAB ∉ text self') ∧ cursor_in_text self' ∧ doc_path self' = doc_path hello_world.
Proof.
  apply typing_session_never_fails; [done|by vm_compute| |simpl; lia|].
  - apply (bool_decide_unpack _). by vm_compute.
  - unfold cursor_in_text. simpl. unfold len. simpl. lia.
Defined.


(** ** The order of the documents *)

Lemma str_leb_total a b : str_leb a b = true ∨ str_leb b a = true.
Proof.
  revert b. induction a as [|x a IH]; intros [|y b]; simpl; try tauto.
  destruct (N.ltb_spec x y), (N.ltb_spec y x); try tauto; try lia. apply IH.
Qed.

Lemma str_leb_trans a b c : str_leb a b = true → str_leb b c = true → str_leb a c = true.
Proof.
  revert b c. induction a as [|x a IH]; intros [|y b] [|z c]; simpl; try done.
  destruct (N.ltb_spec x y), (N.ltb_spec y x), (N.ltb_spec y z), (N.ltb_spec z y),
    (N.ltb_spec x z), (N.ltb_spec z x); try done; try lia. apply IH.
Qed.

Lemma str_leb_antisym a b : str_leb a b = true → str_leb b a = true → a = b.
Proof.
  revert b. induction a as [|x a IH]; intros [|y b]; simpl; try done.
  destruct (N.ltb_spec x y), (N.ltb_spec y x); try done; try lia.
  intros Hab Hba. f_equal; [lia|by apply IH].
Qed.

#[local] Instance str_leb_trans_inst : Transitive (λ a b, str_leb a b = true).
Proof. intros a b c. apply str_leb_trans. Qed.

#[local] Instance str_leb_antisym_inst : AntiSymm (=) (λ a b, str_leb a b = true).
Proof. intros a b. apply str_leb_antisym. Qed.

Lemma insert_sorted_sorted x l :
  StronglySorted (λ a b, str_leb a b = true) l →
  StronglySorted (λ a b, str_leb a b = true) (insert_sorted x l).
Proof.
  induction 1 as [|y l Hl IH Hy]; simpl; [by repeat constructor|].
  destruct (str_leb x y) eqn:Hxy.
  - constructor; [by constructor|]. constructor; [done|].
    eapply Forall_impl; [exact Hy|]. simpl. intros z. by apply str_leb_trans.
  - constructor; [done|]. rewrite insert_sorted_perm. constructor; [|done].
    by destruct (str_leb_total x y) as [H|H]; [rewrite H in Hxy|].
Qed.

Lemma sorted_sorted l : StronglySorted (λ a b, str_leb a b = true) (sorted l).
Proof.
  induction l as [|x l IH]; simpl; [constructor|]. by apply insert_sorted_sorted.
Qed.

(** [sorted] does not depend on the order [os.listdir] gives the names in. *)
Lemma sorted_permutation l1 l2 : l1 ≡ₚ l2 → sorted l1 = sorted l2.
Proof.
  intros Hp. apply (StronglySorted_unique (λ a b, str_leb a b = true));
    [apply sorted_sorted..|]. by rewrite !sorted_perm.
Qed.

(** The paths listed, one by one: the stored files directly in the
    documents directory whose names start with "doc_" and end in ".txt". *)
Lemma list_docs_elem w p :
  p ∈ _list_docs w ↔
  is_Some (files w !! p) ∧
  ∃ name, child_name (DOCS_DIR w) p = Some name ∧
          py ".txt" `suffix_of` name ∧ py "doc_" `prefix_of` name.
Proof.
  unfold _list_docs, listdir. rewrite list_elem_of_fmap. split.
  - intros (f & -> & Hf). rewrite sorted_perm in Hf.
    apply list_elem_of_filter in Hf as [Hq Hf].
    apply list_elem_of_omap in Hf as (k & Hk & Hchild).
    rewrite (child_name_join _ _ _ Hchild).
    split; [by apply elem_of_dom, elem_of_elements|]. eauto.
  - intros (Hst & name & Hchild & Hq). exists name.
    split; [by rewrite (child_name_join _ _ _ Hchild)|].
    rewrite sorted_perm. apply list_elem_of_filter. split; [done|].
    apply list_elem_of_omap. exists p. split; [|done].
    by apply elem_of_elements, elem_of_dom.
Qed.

(** Writing a file that is not a document of the directory - or one that is
    stored already - leaves the list as it is. *)
Lemma list_docs_insert w p content :
  is_Some (files w !! p) ∨
  (∀ name, child_name (DOCS_DIR w) p = Some name →
           ¬ (py ".txt" `suffix_of` name ∧ py "doc_" `prefix_of` name)) →
  _list_docs (set_files (<[p := content]> (files w)) w) = _list_docs w.
Proof.
  intros Hp. unfold _list_docs, listdir. simpl. rewrite dom_insert_L.
  destruct (decide (p ∈ dom (files w))) as [Hin|Hnot].
  { rewrite subseteq_union_1_L; [done|]. by apply singleton_subseteq_l. }
  destruct Hp as [Hst|Hother]; [by apply elem_of_dom in Hst|].
  f_equal. apply sorted_permutation.
  rewrite (elements_union_singleton (dom (files w)) p Hnot). simpl.
  destruct (child_name (DOCS_DIR w) p) as [name|] eqn:Hchild; [|done].
  rewrite filter_cons_False; [done|]. by apply Hother.
Qed.

Lemma last_doc_file_other w name :
  child_name (DOCS_DIR w) (LAST_DOC_FILE w) = Some name →
  ¬ (py ".txt" `suffix_of` name ∧ py "doc_" `prefix_of` name).
Proof.
  unfold child_name, LAST_DOC_FILE, path_join. simpl.
  case_bool_decide; [|done]. rewrite drop_app_length.
  destruct (_ || _); [done|]. intros [= <-] [_ Hpre].
  by apply (bool_decide_pack _) in Hpre.
Qed.

Lemma list_docs_set_last_doc path w : _list_docs (_set_last_doc path w) = _list_docs w.
Proof. apply list_docs_insert. right. apply last_doc_file_other. Qed.

Lemma list_index_lookup docs (i : nat) p :
  NoDup docs → docs !! i = Some p → list_index (Some p) docs = Some (Z.of_nat i).
Proof.
  revert i. induction docs as [|d docs IH]; intros i Hnd Hi; [done|].
  apply NoDup_cons in Hnd as [Hd Hnd]. simpl. destruct i as [|i]; simpl in Hi.
  - injection Hi as ->. by rewrite bool_decide_eq_true_2.
  - rewrite bool_decide_eq_false_2.
    + rewrite (IH i Hnd Hi). simpl. f_equal. lia.
    + intros [= ->]. apply Hd. by eapply list_elem_of_lookup_2.
Qed.

(** ** Loading and switching *)

Lemma universal_newlines_id s : CR ∉ s → universal_newlines s = s.
Proof.
  induction s as [|c s IH]; [done|]. intros [Hc Hs]%not_elem_of_cons. simpl.
  destruct (N.eqb_spec c CR) as [->|_]; [done|]. by rewrite IH.
Qed.

Lemma load_document_stored q self w content :
  files w !! q = Some content → q ≠ [] →
  load_document (Some q) self w =
    (set_dirty false (set_cursor (len (universal_newlines content))
       (set_text (universal_newlines content) (set_doc_path (Some q) self))),
     _set_last_doc q w).
Proof.
  intros Hq Hne. unfold load_document, exists_.
  destruct q as [|c q]; [done|]. simpl.
  rewrite bool_decide_eq_true_2 by (by rewrite Hq). by rewrite Hq.
Qed.

Lemma save_document_stored self w p :
  doc_path self = Some p → p ≠ [] →
  save_document self w =
    (set_last_save_time (clock w) (set_dirty false self),
     set_files (<[p := text self]> (files w)) w).
Proof. intros Hp Hne. unfold save_document. rewrite Hp. by destruct p. Qed.

Lemma list_docs_not_last_doc w p : p ∈ _list_docs w → p ≠ LAST_DOC_FILE w.
Proof.
  intros (_ & name & Hchild & Hq)%list_docs_elem ->. by apply (last_doc_file_other w name).
Qed.

(** Switching from a listed document to one beside it in the list. *)
Lemma switch_document_neighbour direction self w (i : nat) p q content :
  doc_path self = Some p → _list_docs w !! i = Some p →
  0 ≤ Z.of_nat i + direction →
  _list_docs w !! Z.to_nat (Z.of_nat i + direction) = Some q → q ≠ p →
  files w !! q = Some content →
  ∃ self' w',
    _switch_document direction self w = Some (self', w') ∧
    doc_path self' = Some q ∧ text self' = universal_newlines content ∧
    cursor self' = len (universal_newlines content) ∧
    dirty self' = false ∧ needs_display_update self' = true ∧
    files w' !! p = Some (text self) ∧ files w' !! q = Some content ∧
    _list_docs w' = _list_docs w ∧ DOCS_DIR w' = DOCS_DIR w.
Proof.
  intros Hp Hi Hidx Hq Hqp Hcontent.
  pose proof (list_elem_of_lookup_2 _ _ _ Hi) as Hpin.
  pose proof (list_elem_of_lookup_2 _ _ _ Hq) as Hqin.
  pose proof (list_docs_nonempty_path _ _ Hpin) as Hpne.
  pose proof (list_docs_nonempty_path _ _ Hqin) as Hqne.
  unfold _switch_document. rewrite (save_document_stored _ _ _ Hp Hpne).
  rewrite (list_docs_insert w p (text self)) by (left; by apply list_docs_stored).
  rewrite bool_decide_eq_false_2 by (intros Hnil; by rewrite Hnil in Hi).
  cbn [doc_path set_last_save_time set_dirty]. rewrite Hp.
  rewrite (list_index_lookup _ _ _ (list_docs_NoDup w) Hi).
  destruct (Z.ltb_spec (Z.of_nat i + direction) 0); [lia|].
  destruct (Z.leb_spec (len (_list_docs w)) (Z.of_nat i + direction)) as [Hlen|_].
  { apply lookup_lt_Some in Hq. unfold len in Hlen. lia. }
  cbn [orb]. rewrite index_nonneg, Hq by done. cbn [mbind option_bind].
  rewrite (load_document_stored q _ _ content);
    [|simpl; by rewrite lookup_insert_ne|done].
  do 2 eexists. split; [done|]. simpl.
  change (LAST_DOC_FILE (set_files (<[p:=text self]> (files w)) w)) with (LAST_DOC_FILE w).
  split_and!; try done.
  - rewrite lookup_insert_ne by (symmetry; by apply list_docs_not_last_doc).
    by rewrite lookup_insert_eq.
  - rewrite lookup_insert_ne by (symmetry; by apply list_docs_not_last_doc).
    by rewrite lookup_insert_ne.
  - etrans; [apply (list_docs_set_last_doc q (set_files (<[p:=text self]> (files w)) w))|].
    apply list_docs_insert. left. by apply list_docs_stored.
Qed.

(** X9: from a document of the list, a [_switch_document] towards a
    neighbour in the list that returns has written the text under the path
    of the open document and opened the neighbour: its path, its stored
    text as text mode reads it (every line ending a newline), the cursor at
    the end, not dirty, a display update asked for; the list of documents is
    the same afterwards. *)
Theorem switch_document_opens_neighbour
    (direction : Z) (self : EtyperApp) (w : World) (i : nat) (p q content : str)
    (self' : EtyperApp) (w' : World) :
  doc_path self = Some p → _list_docs w !! i = Some p →
  direction ≠ 0 → 0 ≤ Z.of_nat i + direction →
  _list_docs w !! Z.to_nat (Z.of_nat i + direction) = Some q →
  files w !! q = Some content →
  _switch_document direction self w = Some (self', w') →
  doc_path self' = Some q ∧ text self' = universal_newlines content ∧
  cursor self' = len (text self') ∧
  dirty self' = false ∧ needs_display_update self' = true ∧
  files w' !! p = Some (text self) ∧ _list_docs w' = _list_docs w.
Proof.
  intros Hp Hi Hd Hidx Hq Hcontent Hrun.
  assert (q ≠ p) as Hqp.
  { intros ->. pose proof (NoDup_lookup _ _ _ _ (list_docs_NoDup w) Hi Hq). lia. }
  destruct (switch_document_neighbour _ _ _ _ _ _ _ Hp Hi Hidx Hq Hqp Hcontent)
    as (s & v & Hrun' & ? & Ht & ? & ? & ? & ? & _ & ? & _).
  rewrite Hrun in Hrun'. injection Hrun' as -> ->. rewrite Ht. done.
Qed.

Lemma switch_document_opens_neighbour_witness :
  ∃ self' w',
    _switch_document (-1) second_doc_edited two_docs = Some (self', w') ∧
    doc_path self' = Some (py "/home/user/etyper_docs/doc_20260101_090000.txt") ∧
    text self' = universal_newlines (py "first") ∧ cursor self' = len (text self') ∧
    dirty self' = false ∧ needs_display_update self' = true ∧
    files w' !! py "/home/user/etyper_docs/doc_20260102_090000.txt" =
      Some (text second_doc_edited) ∧
    _list_docs w' = _list_docs two_docs.
Proof.
  destruct (_switch_document (-1) second_doc_edited two_docs) as [[s v]|] eqn:Hrun;
    [|by vm_compute in Hrun].
  exists s, v. split; [done|].
  apply (switch_document_opens_neighbour (-1) second_doc_edited two_docs 1
           (py "/home/user/etyper_docs/doc_20260102_090000.txt"));
    [done|by vm_compute|done|done|by vm_compute|by vm_compute|done].
Defined.

(** X10: to the next document and back.  From a document of the list that
    has a successor, when the text holds no carriage return, a
    [_switch_document(+1)] and a [_switch_document(-1)] that both return end
    on the document they started from, with the text it had - unsaved edits
    included - and the cursor at the end of it. *)
Theorem switch_next_then_previous_returns
    (self : EtyperApp) (w : World) (i : nat) (p q : str)
    (self1 : EtyperApp) (w1 : World) (self2 : EtyperApp) (w2 : World) :
  doc_path self = Some p → _list_docs w !! i = Some p → _list_docs w !! S i = Some q →
  CR ∉ text self →
  _switch_document 1 self w = Some (self1, w1) →
  _switch_document (-1) self1 w1 = Some (self2, w2) →
  doc_path self2 = Some p ∧ text self2 = text self ∧
  cursor self2 = len (text self) ∧ dirty self2 = false.
Proof.
  intros Hp Hi Hq Hcr Hgo Hback.
  assert (q ≠ p) as Hqp.
  { intros ->. pose proof (NoDup_lookup _ _ _ _ (list_docs_NoDup w) Hi Hq). lia. }
  destruct (list_docs_stored w q (list_elem_of_lookup_2 _ _ _ Hq)) as [content Hcontent].
  assert (Z.to_nat (Z.of_nat i + 1) = S i) as Hnext by lia.
  destruct (switch_document_neighbour 1 self w i p q content Hp Hi ltac:(lia)
              ltac:(by rewrite Hnext) Hqp Hcontent)
    as (s1 & v1 & Hrun1 & Hp1 & _ & _ & _ & _ & Hfp & _ & Hdocs & _).
  rewrite Hgo in Hrun1. injection Hrun1 as <- <-.
  assert (Z.to_nat (Z.of_nat (S i) + -1) = i) as Hprev by lia.
  destruct (switch_document_neighbour (-1) self1 w1 (S i) q p (text self) Hp1
              ltac:(by rewrite Hdocs) ltac:(lia) ltac:(by rewrite Hdocs, Hprev)
              ltac:(done) Hfp)
    as (s2 & v2 & Hrun2 & Hp2 & Ht2 & Hc2 & Hd2 & _).
  rewrite Hback in Hrun2. injection Hrun2 as <- <-.
  rewrite (universal_newlines_id _ Hcr) in Ht2, Hc2. done.
Qed.

Lemma switch_next_then_previous_returns_witness :
  ∃ self1 w1 self2 w2,
    _switch_document 1 first_doc_open two_docs = Some (self1, w1) ∧
    _switch_document (-1) self1 w1 = Some (self2, w2) ∧
    doc_path self2 = Some (py "/home/user/etyper_docs/doc_20260101_090000.txt") ∧
    text self2 = text first_doc_open ∧
    cursor self2 = len (text first_doc_open) ∧ dirty self2 = false.
Proof.
  destruct (_switch_document 1 first_doc_open two_docs) as [[s1 v1]|] eqn:Hgo;
    [|by vm_compute in Hgo].
  destruct (_switch_document (-1) s1 v1) as [[s2 v2]|] eqn:Hback.
  - exists s1, v1, s2, v2. split; [done|]. split; [done|].
    apply (switch_next_then_previous_returns first_doc_open two_docs 0
             (py "/home/user/etyper_docs/doc_20260101_090000.txt")
             (py "/home/user/etyper_docs/doc_20260102_090000.txt") s1 v1 s2 v2);
      [done|by vm_compute|by vm_compute| |done|done].
    apply (bool_decide_unpack _). by vm_compute.
  - exfalso. vm_compute in Hgo. injection Hgo as <- <-. by vm_compute in Hback.
Defined.

(** ** Across a restart *)

Lemma new_doc_path_eq w :
  _new_doc_path w = dir_prefix (DOCS_DIR w) ++ py "doc_" ++ timestamp w ++ py ".txt".
Proof. reflexivity. Qed.

Lemma last_doc_file_eq w : LAST_DOC_FILE w = dir_prefix (DOCS_DIR w) ++ py ".last_doc".
Proof. reflexivity. Qed.

Lemma new_doc_path_not_last_doc w : _new_doc_path w ≠ LAST_DOC_FILE w.
Proof. rewrite new_doc_path_eq, last_doc_file_eq. by intros [=]%app_inv_head. Qed.

Lemma new_doc_path_nonempty w : _new_doc_path w ≠ [].
Proof.
  rewrite new_doc_path_eq. change (py "doc_") with (100%N :: py "oc_").
  by destruct (dir_prefix (DOCS_DIR w)).
Qed.

(** X11: what is saved is what the next start opens.  When [.last_doc]
    names the open document - as [load_document] and [new_document] leave it
    - by a path that reads back from [.last_doc] as it is (no whitespace
    around it, no carriage return in it), and the text holds no carriage
    return, [save_document] followed by [load_document()] in a fresh
    application opens that path with the text that was saved, the cursor at
    its end, not dirty. *)
Theorem saved_document_reopens (self fresh : EtyperApp) (w : World) (p : str) :
  doc_path self = Some p → p ≠ [] → p ≠ LAST_DOC_FILE w →
  strip (universal_newlines p) = p → CR ∉ text self →
  files w !! LAST_DOC_FILE w = Some p →
  ∃ self1 w1 self2 w2,
    save_document self w = (self1, w1) ∧ load_document None fresh w1 = (self2, w2) ∧
    doc_path self2 = Some p ∧ text self2 = text self ∧
    cursor self2 = len (text self) ∧ dirty self2 = false ∧
    files w2 !! p = Some (text self).
Proof.
  intros Hp Hne Hlast Hstrip Hcr Hfile.
  rewrite (save_document_stored _ _ _ Hp Hne).
  exists (set_last_save_time (clock w) (set_dirty false self)),
         (set_files (<[p:=text self]> (files w)) w).
  unfold load_document, _get_last_doc_path, exists_. simpl.
  change (LAST_DOC_FILE (set_files (<[p:=text self]> (files w)) w)) with (LAST_DOC_FILE w).
  rewrite lookup_insert_ne by done. rewrite Hfile, Hstrip. simpl.
  rewrite lookup_insert_eq. rewrite bool_decide_eq_true_2 by done.
  rewrite lookup_insert_eq, (universal_newlines_id _ Hcr).
  destruct p as [|c p]; [done|]. simpl. do 2 eexists. split; [done|]. split; [done|].
  simpl. split_and!; try done.
  change (LAST_DOC_FILE (set_files (<[c :: p:=text self]> (files w)) w))
    with (LAST_DOC_FILE w).
  rewrite lookup_insert_ne by done. by rewrite lookup_insert_eq.
Qed.

Lemma saved_document_reopens_witness :
  ∃ self1 w1 self2 w2,
    save_document second_doc_edited two_docs = (self1, w1) ∧
    load_document None (__init__ 0) w1 = (self2, w2) ∧
    doc_path self2 = Some (py "/home/user/etyper_docs/doc_20260102_090000.txt") ∧
    text self2 = text second_doc_edited ∧
    cursor self2 = len (text second_doc_edited) ∧ dirty self2 = false ∧
    files w2 !! py "/home/user/etyper_docs/doc_20260102_090000.txt" =
      Some (text second_doc_edited).
Proof.
  apply (saved_document_reopens second_doc_edited (__init__ 0) two_docs);
    [done|done|by vm_compute|by vm_compute| |by vm_compute].
  apply (bool_decide_unpack _). by vm_compute.
Defined.

(** X12: [new_document] names the new document in [.last_doc] but does not
    write its file.  When no file is stored under the new path, the open
    document is not itself at the new path, and the new path reads back
    from [.last_doc] as it is, [new_document] leaves an empty document under
    the new path, that path in [.last_doc], and still no file under it:
    until the new document is saved, [_get_last_doc_path] finds no last
    document. *)
Theorem new_document_is_not_stored (self : EtyperApp) (w : World) :
  files w !! _new_doc_path w = None → doc_path self ≠ Some (_new_doc_path w) →
  strip (universal_newlines (_new_doc_path w)) = _new_doc_path w →
  ∃ self1 w1,
    new_document self w = (self1, w1) ∧
    doc_path self1 = Some (_new_doc_path w) ∧ text self1 = [] ∧ cursor self1 = 0 ∧
    dirty self1 = false ∧
    files w1 !! LAST_DOC_FILE w = Some (_new_doc_path w) ∧
    files w1 !! _new_doc_path w = None ∧
    _get_last_doc_path w1 = None.
Proof.
  intros Hfree Hpath Hstrip. unfold new_document.
  assert (∃ s1 v1, save_document self w = (s1, v1) ∧ DOCS_DIR v1 = DOCS_DIR w ∧
            timestamp v1 = timestamp w ∧ files v1 !! _new_doc_path w = None)
    as (s1 & v1 & -> & Hd & Hts & Hfree1).
  { unfold save_document. destruct (doc_path self) as [[|c p]|] eqn:Hp.
    - by exists self, w.
    - exists (set_last_save_time (clock w) (set_dirty false self)),
             (set_files (<[c :: p:=text self]> (files w)) w).
      split_and!; try done. cbn [files set_files].
      rewrite lookup_insert_ne; [done|]. congruence.
    - by exists self, w. }
  assert (_new_doc_path v1 = _new_doc_path w) as Hnew
    by (unfold _new_doc_path; by rewrite Hd, Hts).
  assert (LAST_DOC_FILE v1 = LAST_DOC_FILE w) as Hlast
    by (unfold LAST_DOC_FILE; by rewrite Hd).
  rewrite Hnew. pose proof (new_doc_path_not_last_doc w) as Hneq.
  remember (_new_doc_path w) as np eqn:Hnp. clear Hnew.
  do 2 eexists. split; [done|].
  unfold _get_last_doc_path, exists_, _set_last_doc.
  change (LAST_DOC_FILE (set_files _ v1)) with (LAST_DOC_FILE v1).
  cbn [files set_files]. rewrite Hlast.
  remember (LAST_DOC_FILE w) as lf eqn:Hlf.
  rewrite lookup_insert_eq, Hstrip, lookup_insert_ne by done.
  rewrite Hfree1. rewrite bool_decide_eq_false_2 by (by intros [? [=]]).
  by split_and!.
Qed.

Lemma new_document_is_not_stored_witness :
  ∃ self1 w1,
    new_document second_doc_edited two_docs = (self1, w1) ∧
    doc_path self1 = Some (_new_doc_path two_docs) ∧ text self1 = [] ∧ cursor self1 = 0 ∧
    dirty self1 = false ∧
    files w1 !! LAST_DOC_FILE two_docs = Some (_new_doc_path two_docs) ∧
    files w1 !! _new_doc_path two_docs = None ∧
    _get_last_doc_path w1 = None.
Proof.
  apply new_document_is_not_stored; [by vm_compute|by vm_compute|by vm_compute].
Defined.


(** ** Autosave, shutdown and the start *)

Lemma edit_key_dirty keycode self self' :
  edit_key keycode self = Some self' →
  last_save_time self' = last_save_time self ∧ (dirty self = true → dirty self' = true).
Proof.
  unfold edit_key.
  repeat (case_bool_decide;
          [try (destruct (_ <? _); intros [= <-]; by simpl)|]).
  - destruct (_cursor_up self) as [s|] eqn:Hs; simpl; [|done].
    apply cursor_up_moves in Hs as [pos ->]. by intros [= <-].
  - destruct (_cursor_down self) as [s|] eqn:Hs; simpl; [|done].
    apply cursor_down_moves in Hs as [pos ->]. by intros [= <-].
  - destruct (_wrap_with_cursor self) as [[[lines cl] cc]|]; simpl; [|done].
    destruct (_pos_from_line_col _ _ _ _); simpl; [|done]. by intros [= <-].
  - destruct (_wrap_with_cursor self) as [[[lines cl] cc]|]; simpl; [|done].
    destruct (index lines cl); simpl; [|done].
    destruct (_pos_from_line_col _ _ _ _); simpl; [|done]. by intros [= <-].
  - by intros [= <-].
  - destruct (keymap_get keycode) as [[normal shifted]|]; by intros [= <-].
Qed.

(** Without Ctrl held a key leaves the files, the display and the path, and
    clears no dirty flag: if the document is not dirty afterwards, it was
    not dirty before and has the same text. *)
Lemma handle_key_keeps_dirty keycode value self w self' w' :
  ctrl_held self = false →
  _handle_key keycode value self w = Some (self', w') →
  w' = w ∧ doc_path self' = doc_path self ∧
  (dirty self' = false → dirty self = false ∧ text self' = text self).
Proof.
  intros Hctrl. unfold _handle_key. rewrite Hctrl. simpl.
  destruct (_ || _); [by intros [= <- <-]|].
  destruct (_ || _); [by intros [= <- <-]|].
  destruct (value =? 0); [by intros [= <- <-]|].
  destruct (edit_key keycode self) as [s|] eqn:Hs; simpl; [|done].
  intros [= <- <-]. destruct (edit_key_frame _ _ _ Hs) as (Hp & _ & _ & _ & Hd & _).
  destruct (edit_key_dirty _ _ _ Hs) as [_ Hmono].
  split_and!; try done. intros Hclean.
  split; [by destruct (dirty self); [rewrite Hmono in Hclean|]|].
  destruct (decide (text s = text self)) as [|Hne]; [done|].
  by rewrite (Hd Hne) in Hclean.
Qed.

Lemma handle_events_keep_dirty events self w self' w' :
  ctrl_held self = false → forallb no_ctrl_key events = true →
  handle_events events self w = Some (self', w') →
  w' = w ∧ ctrl_held self' = false ∧ doc_path self' = doc_path self ∧
  (dirty self' = false → dirty self = false ∧ text self' = text self).
Proof.
  revert self. induction events as [|[[type code] value] events IH]; intros self Hctrl; simpl.
  - by intros _ [= <- <-].
  - intros [Hev Hrest]%andb_prop. case_bool_decide; [|by apply IH].
    destruct (_handle_key code value self w) as [[s1 w1]|] eqn:Hkey; simpl; [|done].
    destruct (handle_key_without_ctrl _ _ _ _ _ _ Hctrl Hev Hkey) as [-> Hctrl1].
    destruct (handle_key_keeps_dirty _ _ _ _ _ _ Hctrl Hkey) as (_ & Hp1 & Hd1).
    intros Hrun. destruct (IH s1 Hctrl1 Hrest Hrun) as (-> & ? & Hp2 & Hd2).
    split_and!; try done; [congruence|].
    intros Hclean. destruct (Hd2 Hclean) as [Hc1 Ht2]. destruct (Hd1 Hc1) as [? Ht1].
    split; [done|congruence].
Qed.

Lemma render_frame self img self' :
  render self = Some (img, self') → ∃ offset, self' = set_scroll_offset offset self.
Proof.
  unfold render. destruct (_wrap_with_cursor self) as [[[lines cl] cc]|]; simpl; [|done].
  intros [= _ <-]. eauto.
Qed.

(** What holds of a document and its file along a session that began in
    [self0]: not dirty, either the file has the text or the text is the one
    of the start, never made dirty. *)
Lemma check_autosave_in_sync (self0 : EtyperApp) p self w :
  doc_path self = Some p → p ≠ [] →
  (dirty self = false →
   files w !! p = Some (text self) ∨ (text self = text self0 ∧ dirty self0 = false)) →
  ∀ self' w', _check_autosave self w = (self', w') →
    doc_path self' = Some p ∧ ctrl_held self' = ctrl_held self ∧ text self' = text self ∧
    (dirty self' = false →
     files w' !! p = Some (text self') ∨ (text self' = text self0 ∧ dirty self0 = false)).
Proof.
  intros Hp Hne Hsync self' w'. unfold _check_autosave.
  destruct (dirty self && _).
  - rewrite (save_document_stored _ _ _ Hp Hne). intros [= <- <-]. simpl.
    split_and!; try done. intros _. left. by rewrite lookup_insert_eq.
  - by intros [= <- <-].
Qed.

Lemma main_loop_in_sync (self0 : EtyperApp) p passes self w self' w' :
  ctrl_held self = false → forallb pass_without_ctrl passes = true →
  doc_path self = Some p → p ≠ [] →
  (dirty self = false →
   files w !! p = Some (text self) ∨ (text self = text self0 ∧ dirty self0 = false)) →
  _main_loop passes self w = Some (self', w') →
  doc_path self' = Some p ∧
  (dirty self' = false →
   files w' !! p = Some (text self') ∨ (text self' = text self0 ∧ dirty self0 = false)).
Proof.
  intros Hctrl Hpasses Hp Hne. revert self w Hctrl Hpasses Hp.
  induction passes as [|[now pl] passes IH]; intros self w Hctrl Hpasses Hp Hsync; simpl.
  { by intros [= <- <-]. }
  simpl in Hpasses. apply andb_prop in Hpasses as [Hpass Hpasses].
  destruct (running self); [|by intros [= <- <-]].
  destruct (main_loop_pass pl self (set_clock now w)) as [[s1 w1]|] eqn:Hrun; simpl; [|done].
  assert (ctrl_held s1 = false ∧ doc_path s1 = Some p ∧
          (dirty s1 = false →
           files w1 !! p = Some (text s1) ∨ (text s1 = text self0 ∧ dirty self0 = false)))
    as (Hctrl1 & Hp1 & Hsync1).
  { unfold pass_without_ctrl in Hpass. simpl in Hpass. unfold main_loop_pass in Hrun.
    destruct pl as [|events|].
    - injection Hrun as Hrun.
      destruct (check_autosave_in_sync self0 p self (set_clock now w) Hp Hne Hsync _ _ Hrun)
        as (? & Hc & _ & ?). split_and!; try done. congruence.
    - destruct (handle_events events self (set_clock now w)) as [[s2 w2]|] eqn:Hev;
        simpl in Hrun; [|done].
      destruct (handle_events_keep_dirty _ _ _ _ _ Hctrl Hpass Hev) as (-> & Hc2 & Hp2 & Hd2).
      assert (dirty s2 = false →
              files (set_clock now w) !! p = Some (text s2) ∨
              (text s2 = text self0 ∧ dirty self0 = false)) as Hsync2.
      { intros Hclean. destruct (Hd2 Hclean) as [Hc Ht]. rewrite Ht. by apply Hsync. }
      assert (doc_path s2 = Some p) as Hp2' by congruence.
      destruct (needs_display_update s2).
      + destruct (render s2) as [[img s3]|] eqn:Hrender; simpl in Hrun; [|done].
        destruct (render_frame _ _ _ Hrender) as [offset ->]. injection Hrun as Hrun.
        destruct (check_autosave_in_sync self0 p
                    (set_needs_display_update false (set_scroll_offset offset s2))
                    (epd (epd_display_image_partial img) (set_clock now w))
                    Hp2' Hne Hsync2 _ _ Hrun) as (? & Hc & _ & ?).
        split_and!; try done. by rewrite Hc.
      + simpl in Hrun. injection Hrun as Hrun.
        destruct (check_autosave_in_sync self0 p _ _ Hp2' Hne Hsync2 _ _ Hrun)
          as (? & Hc & _ & ?).
        split_and!; try done. by rewrite Hc.
    - by injection Hrun as <- <-. }
  intros Hloop. by apply (IH s1 w1).
Qed.

(** X13: nothing typed is lost at shutdown.  Through any passes of the main
    loop in which no Ctrl key comes, followed by [_shutdown], a document
    with a path ends not dirty, and either its file holds the text it ends
    with, or that text is the one it started with and it was not dirty
    then. *)
Theorem typed_text_is_saved_at_shutdown
    (passes : list (Z * poll)) (self : EtyperApp) (w : World) (p : str)
    (self' : EtyperApp) (w' : World) :
  ctrl_held self = false → forallb pass_without_ctrl passes = true →
  doc_path self = Some p → p ≠ [] →
  _main_loop passes self w = Some (self', w') →
  ∃ self2 w2,
    _shutdown self' w' = (self2, w2, true) ∧
    text self2 = text self' ∧ dirty self2 = false ∧
    (files w2 !! p = Some (text self') ∨ (text self' = text self ∧ dirty self = false)).
Proof.
  intros Hctrl Hpasses Hp Hne Hloop.
  destruct (main_loop_in_sync self p passes self w self' w' Hctrl Hpasses Hp Hne
              ltac:(by right) Hloop) as [Hp' Hsync].
  unfold _shutdown. destruct (dirty self') eqn:Hd.
  - rewrite (save_document_stored _ _ _ Hp' Hne). do 2 eexists. split; [done|]. simpl.
    split_and!; try done. left. by rewrite lookup_insert_eq.
  - do 2 eexists. split; [done|]. simpl. split_and!; try done. by apply Hsync.
Qed.

Lemma typed_text_is_saved_at_shutdown_witness :
  ∃ self2 w2,
    _shutdown (set_needs_display_update false (set_dirty true (set_cursor 6
                 (set_text (py "firsta") first_doc_open))))
              (epd (epd_display_image_partial
                      (Page (mkPage [py "firsta"] (Some (0, 6))
                               (true, py "doc_20260101_090000.txt", 1, 7, 6))))
                 (set_clock 5 two_docs)) = (self2, w2, true) ∧
    text self2 = py "firsta" ∧ dirty self2 = false ∧
    (files w2 !! py "/home/user/etyper_docs/doc_20260101_090000.txt" = Some (py "firsta") ∨
     (py "firsta" = text first_doc_open ∧ dirty first_doc_open = false)).
Proof.
  apply (typed_text_is_saved_at_shutdown
           [(5, Ready [(ecodes.EV_KEY, ecodes.KEY_A, 1)])] first_doc_open two_docs
           (py "/home/user/etyper_docs/doc_20260101_090000.txt"));
    [done|done|done|done|by vm_compute].
Defined.

Lemma save_document_clock self w : clock (save_document self w).2 = clock w.
Proof. unfold save_document. by destruct (doc_path self) as [[|c q]|]. Qed.

Lemma load_document_result path self w :
  ∃ p t, load_document path self w =
           (set_dirty false (set_cursor (len t) (set_text t (set_doc_path (Some p) self))),
            _set_last_doc p w).
Proof.
  unfold load_document.
  match goal with |- context [let '(a, b) := ?e in _] => destruct e as [doc_path2 text2] end.
  eauto.
Qed.

(** No key moves the clock. *)
Lemma handle_key_clock keycode value self w self' w' :
  _handle_key keycode value self w = Some (self', w') → clock w' = clock w.
Proof.
  unfold _handle_key. intros Hkey.
  repeat (destruct (_ || _); [by injection Hkey as _ <-|]).
  destruct (value =? 0); [by injection Hkey as _ <-|].
  pose proof (save_document_clock self w) as Hsave.
  destruct (_ && _).
  { destruct (save_document self w) as [s1 w1]. unfold _sleep_mode in Hkey.
    destruct (render _) as [[img s']|]; simpl in Hkey; [|done]. by injection Hkey as _ <-. }
  destruct (_ && _).
  { destruct (save_document self w) as [s1 w1]. by injection Hkey as _ <-. }
  destruct (_ && _).
  { unfold new_document in Hkey. destruct (save_document self w) as [s1 w1].
    by injection Hkey as _ <-. }
  destruct (_ && _).
  { destruct (render _) as [[img s']|]; simpl in Hkey; [|done]. by injection Hkey as _ <-. }
  assert (∀ d, _switch_document d self w = Some (self', w') → clock w' = clock w) as Hsw.
  { intros d. unfold _switch_document.
    destruct (save_document self w) as [s1 w1]. simpl in Hsave.
    destruct (bool_decide (_list_docs w1 = [])); [intros [= _ <-]; done|].
    destruct (_ || _); [intros [= _ <-]; done|].
    destruct (index _ _) as [target|]; simpl; [|done].
    destruct (load_document_result (Some target) s1 w1) as (q & t & ->).
    cbv iota beta. intros [= _ <-]. done. }
  destruct (_ && _); [by eapply Hsw|].
  destruct (_ && _); [by eapply Hsw|].
  destruct (edit_key keycode self); simpl in Hkey; [|done]. by injection Hkey as _ <-.
Qed.

Lemma handle_events_clock events self w self' w' :
  handle_events events self w = Some (self', w') → clock w' = clock w.
Proof.
  revert self w. induction events as [|[[type code] value] events IH]; intros self w; simpl.
  - by intros [= _ <-].
  - case_bool_decide; [|by apply IH].
    destruct (_handle_key code value self w) as [[s v]|] eqn:Hkey; simpl; [|done].
    intros Hrest. rewrite (IH _ _ Hrest). by eapply handle_key_clock.
Qed.

(** X14: the autosave bound.  After a pass of the main loop that no keyboard
    error cut short, a document with a path that is still dirty was saved
    less than [AUTOSAVE_INTERVAL] seconds before the clock reading of the
    pass. *)
Theorem pass_leaves_recent_save
    (p : poll) (self : EtyperApp) (w : World) (self' : EtyperApp) (w' : World) :
  p ≠ Disconnected →
  main_loop_pass p self w = Some (self', w') →
  truthy (doc_path self') = true → dirty self' = true →
  clock w' = clock w ∧ clock w' - last_save_time self' < AUTOSAVE_INTERVAL.
Proof.
  intros Hp Hrun Hpath Hdirty.
  assert (∃ s2 w2, _check_autosave s2 w2 = (self', w') ∧ clock w2 = clock w)
    as (s2 & w2 & Hcheck & Hclock).
  { unfold main_loop_pass in Hrun. destruct p as [|events|]; [| |done].
    - injection Hrun as Hrun. eauto.
    - destruct (handle_events events self w) as [[s1 w1]|] eqn:Hev; simpl in Hrun; [|done].
      pose proof (handle_events_clock _ _ _ _ _ Hev) as Hc1.
      destruct (needs_display_update s1).
      + destruct (render s1) as [[img s3]|]; simpl in Hrun; [|done].
        injection Hrun as Hrun. eauto.
      + simpl in Hrun. injection Hrun as Hrun. eauto. }
  unfold _check_autosave in Hcheck.
  destruct (dirty s2) eqn:Hd2; simpl in Hcheck.
  - destruct (Z.leb_spec AUTOSAVE_INTERVAL (clock w2 - last_save_time s2)).
    + exfalso. unfold save_document in Hcheck.
      destruct (doc_path s2) as [[|c q]|] eqn:Hq; injection Hcheck as <- <-;
        simpl in *; by rewrite ?Hq in *.
    + injection Hcheck as <- <-. split; [done|lia].
  - injection Hcheck as <- <-. congruence.
Qed.

Lemma pass_leaves_recent_save_witness :
  clock (set_clock 5 two_docs) = clock (set_clock 5 two_docs) ∧
  clock (set_clock 5 two_docs) - 0 < AUTOSAVE_INTERVAL.
Proof.
  apply (pass_leaves_recent_save (Ready [(ecodes.EV_KEY, ecodes.KEY_A, 1)]) first_doc_open
           (set_clock 5 two_docs)
           (set_needs_display_update false (set_dirty true (set_cursor 6
              (set_text (py "firsta") first_doc_open))))
           (epd (epd_display_image_partial
                      (Page (mkPage [py "firsta"] (Some (0, 6))
                               (true, py "doc_20260101_090000.txt", 1, 7, 6))))
                 (set_clock 5 two_docs)));
    [done|by vm_compute|done|done].
Defined.

(** The start of [run] with a font whose "M" has a width. *)
Lemma startup_state ascent descent advance self w :
  advance ≠ 0 →
  ∃ m self1 w1 p img,
    startup ascent descent advance self w = Some (m, self1, w1) ∧
    ctrl_held self1 = ctrl_held self ∧
    1 ≤ chars_per_line self1 ∧ lines_per_page self1 = 15 ∧
    running self1 = true ∧ dirty self1 = false ∧ needs_display_update self1 = false ∧
    cursor self1 = len (text self1) ∧ last_save_time self1 = clock w ∧
    doc_path self1 = Some p ∧ p ≠ [] ∧ files w1 !! LAST_DOC_FILE w = Some p ∧
    (∀ q, _get_last_doc_path w = Some q → q ≠ [] →
          p = q ∧ ∃ content, files w !! q = Some content ∧
                             text self1 = universal_newlines content) ∧
    epd_log w1 = epd_log w ++ [epd_init; epd_display img; epd_init_partial].
Proof.
  intros Hadv. unfold startup, _calc_text_metrics, floordiv. cbn [char_w line_h].
  destruct (Z.eqb_spec advance 0); [done|]. cbn [mbind option_bind].
  change (PORTRAIT_H - 2 * MARGIN_Y) with 384. change (FONT_SIZE * 3 / 2) with 24.
  change (384 / 24) with 16. change (24 =? 0) with false. cbv iota.
  cbn [mbind option_bind].
  set (self0 := set_lines_per_page _ _).
  assert (1 ≤ chars_per_line self0) as Hcpl by (subst self0; simpl; lia).
  assert (lines_per_page self0 = 15) as Hlpp by done.
  assert (∃ p t, load_document None self0 w =
            (set_dirty false (set_cursor (len t) (set_text t
               (set_doc_path (Some p) self0))), _set_last_doc p w) ∧ p ≠ [] ∧
            (∀ q, _get_last_doc_path w = Some q → q ≠ [] →
               p = q ∧ ∃ content, files w !! q = Some content ∧
                                  t = universal_newlines content))
    as (p & t & Hload & Hp & Hlast).
  { unfold load_document. destruct (_get_last_doc_path w) as [q|] eqn:Hq.
    - assert (is_Some (files w !! q)) as [content Hcontent].
      { unfold _get_last_doc_path, exists_ in Hq.
        destruct (files w !! LAST_DOC_FILE w); [|done].
        case_bool_decide as Hex; [|done]. by injection Hq as <-. }
      rewrite Hcontent. destruct q as [|c q].
      + exists (_new_doc_path w), []. split; [done|].
        split; [apply new_doc_path_nonempty|]. by intros q [= <-].
      + exists (c :: q), (universal_newlines content). split; [done|]. split; [done|].
        intros q' [= <-] _. split; [done|]. by exists content.
    - exists (_new_doc_path w), []. split; [done|].
      split; [apply new_doc_path_nonempty|]. by intros q. }
  rewrite Hload.
  destruct (render_total (set_dirty false (set_cursor (len t) (set_text t
              (set_doc_path (Some p) self0)))) Hcpl) as (img & offset & ->).
  cbn [mbind option_bind]. do 3 eexists. exists p, img. split; [done|]. simpl.
  split_and!; try done.
  - by rewrite lookup_insert_eq.
  - by rewrite <- !app_assoc.
Qed.

(** X15: the start of [run].  With a font whose "M" has no width,
    [_calc_text_metrics] divides by zero and the start fails.  Whenever the
    start goes through, the width is at least one column, the page has 15
    lines, the document named by [.last_doc] is open when there is one, with
    its stored text as text mode reads it, the cursor is at the end of the
    text, nothing is dirty, [.last_doc] names the open document, and the
    display was initialised, given one full frame and switched to partial
    refresh. *)
Theorem startup_opens_and_shows_document
    (ascent descent advance : Z) (self : EtyperApp) (w : World) :
  (advance = 0 → startup ascent descent advance self w = None) ∧
  (∀ m self' w',
     startup ascent descent advance self w = Some (m, self', w') →
     1 ≤ chars_per_line self' ∧ lines_per_page self' = 15 ∧
     running self' = true ∧ dirty self' = false ∧ needs_display_update self' = false ∧
     cursor self' = len (text self') ∧ last_save_time self' = clock w ∧
     files w' !! LAST_DOC_FILE w = doc_path self' ∧
     (∀ p, _get_last_doc_path w = Some p → p ≠ [] →
           doc_path self' = Some p ∧
           ∃ content, files w !! p = Some content ∧
                      text self' = universal_newlines content) ∧
     ∃ img, epd_log w' = epd_log w ++ [epd_init; epd_display img; epd_init_partial]).
Proof.
  assert (advance = 0 → startup ascent descent advance self w = None) as Hzero.
  { intros ->. done. }
  split; [done|]. intros m self' w' Hrun.
  destruct (Z.eq_dec advance 0) as [Hadv|Hadv]; [by rewrite (Hzero Hadv) in Hrun|].
  destruct (startup_state ascent descent advance self w Hadv)
    as (m0 & s & v & p & img & Hrun' & _ & ? & ? & ? & ? & ? & ? & ? & Hp & _ & ? & Hlast & ?).
  rewrite Hrun in Hrun'. injection Hrun' as <- <- <-.
  split_and!; try done.
  - by rewrite Hp.
  - intros q Hq Hne. destruct (Hlast q Hq Hne) as [<- ?]. done.
  - by exists img.
Qed.

Lemma startup_opens_and_shows_document_witness :
  ∃ m self' w',
    startup 12 4 9 (__init__ 100) two_docs = Some (m, self', w') ∧
    1 ≤ chars_per_line self' ∧ lines_per_page self' = 15 ∧
    running self' = true ∧ dirty self' = false ∧ needs_display_update self' = false ∧
    cursor self' = len (text self') ∧ last_save_time self' = clock two_docs ∧
    files w' !! LAST_DOC_FILE two_docs = doc_path self' ∧
    (∀ p, _get_last_doc_path two_docs = Some p → p ≠ [] →
          doc_path self' = Some p ∧
          ∃ content, files two_docs !! p = Some content ∧
                     text self' = universal_newlines content) ∧
    ∃ img, epd_log w' = epd_log two_docs ++ [epd_init; epd_display img; epd_init_partial].
Proof.
  destruct (startup 12 4 9 (__init__ 100) two_docs) as [[[m s] v]|] eqn:Hrun;
    [|by vm_compute in Hrun].
  exists m, s, v. split; [done|].
  exact (proj2 (startup_opens_and_shows_document 12 4 9 (__init__ 100) two_docs) m s v Hrun).
Defined.


(** ** What is drawn *)

(** X16: the cursor block and the width.  With the metrics that
    [_calc_text_metrics] sets for a font whose "M" is from 1 to 280 pixels
    wide, and the cursor on a visible line, [render] draws the cursor block
    exactly when the cursor column is below [chars_per_line] - at the end of
    a full line it draws none - and a block it draws lies between the
    margins. *)
Theorem cursor_block_drawn_inside_width
    (ascent descent advance : Z) (self : EtyperApp) (m : metrics) (self' : EtyperApp)
    (cursor_col vis_cursor_line visible : Z) :
  1 ≤ advance ≤ PORTRAIT_W - 2 * MARGIN_X →
  _calc_text_metrics ascent descent advance self = Some (m, self') →
  0 ≤ vis_cursor_line < visible → 0 ≤ cursor_col →
  (is_Some (cursor_rectangle m cursor_col vis_cursor_line visible) ↔
   cursor_col < chars_per_line self') ∧
  (∀ x0 y0 x1 y1,
     cursor_rectangle m cursor_col vis_cursor_line visible = Some (x0, y0, x1, y1) →
     MARGIN_X ≤ x0 ∧ x0 ≤ x1 ∧ x1 < PORTRAIT_W - MARGIN_X).
Proof.
  unfold PORTRAIT_W, MARGIN_X. intros Hadv Hm Hvis Hcol.
  unfold _calc_text_metrics, floordiv in Hm. cbn [char_w line_h] in Hm.
  destruct (Z.eqb_spec advance 0); [lia|]. cbn [mbind option_bind] in Hm.
  change (FONT_SIZE * 3 / 2 =? 0) with false in Hm. cbv iota in Hm.
  cbn [mbind option_bind] in Hm. injection Hm as <- <-.
  unfold PORTRAIT_W, MARGIN_X. simpl chars_per_line.
  change (300 - 2 * 10) with 280 in *.
  assert (1 ≤ 280 / advance) as Hq by (apply Z.div_le_lower_bound; lia).
  rewrite Z.max_r by lia.
  unfold cursor_rectangle. cbn [char_w line_h cell_h].
  destruct (Z.leb_spec 0 vis_cursor_line); [|lia].
  destruct (Z.ltb_spec vis_cursor_line visible); [|lia]. cbn [andb].
  unfold PORTRAIT_W, MARGIN_X.
  assert ((cursor_col + 1) * advance ≤ 280 ↔ cursor_col < 280 / advance) as Hiff.
  { split.
    - intros Hle. assert (cursor_col + 1 ≤ 280 / advance); [|lia].
      apply Z.div_le_lower_bound; lia.
    - intros Hlt. pose proof (Z.mul_div_le 280 advance ltac:(lia)). nia. }
  destruct (Z.leb_spec (10 + cursor_col * advance + advance) (300 - 10)) as [Hle|Hgt].
  - split; [split; [intros _; apply Hiff; lia|by eexists]|].
    intros x0 y0 x1 y1 [= <- <- <- <-]. nia.
  - split; [|done]. split; [by intros [? [=]]|]. intros Hlt%Hiff. lia.
Qed.

Lemma cursor_block_drawn_inside_width_witness :
  (is_Some (cursor_rectangle (mkMetrics 56 16 24) 5 0 15) ↔
   5 < chars_per_line (set_lines_per_page 15 (set_chars_per_line 5 hello_world))) ∧
  (∀ x0 y0 x1 y1,
     cursor_rectangle (mkMetrics 56 16 24) 5 0 15 = Some (x0, y0, x1, y1) →
     MARGIN_X ≤ x0 ∧ x0 ≤ x1 ∧ x1 < PORTRAIT_W - MARGIN_X).
Proof.
  apply (cursor_block_drawn_inside_width 12 4 56 hello_world); [by vm_compute|done|lia|lia].
Defined.

Lemma slice_window {A} (l : list A) (a n : Z) :
  0 ≤ a → 0 ≤ n →
  len (slice l a (a + n)) ≤ n ∧
  ∀ j, 0 ≤ j < n → a + j < len l → index (slice l a (a + n)) j = index l (a + j).
Proof.
  intros Ha Hn. unfold slice. rewrite !slice_bound_inside by lia. split.
  - unfold len. rewrite length_take, length_drop. lia.
  - intros j Hj Hlt. rewrite !index_nonneg by lia. unfold len in Hlt.
    rewrite lookup_take_lt by lia. rewrite lookup_drop. f_equal. lia.
Qed.

(** X17: the window of [render].  At a width of one column or more, with a
    page of one line or more and a scroll offset that is not negative,
    [render] returns; the new scroll offset is not negative; the page has
    at most [lines_per_page] lines; the line of the cursor is one of them,
    at the row of the cursor cell; at that cell the cursor block is drawn
    when it ends at or before the right margin, and no block is drawn when
    it would pass it; and rendering again changes neither the image nor the
    scroll offset. *)
Theorem render_shows_cursor_line (self : EtyperApp) :
  1 ≤ chars_per_line self → 1 ≤ lines_per_page self → 0 ≤ scroll_offset self →
  ∃ lines cursor_line cursor_col line pg self',
    _wrap_with_cursor self = Some (lines, cursor_line, cursor_col) ∧
    render self = Some (Page pg, self') ∧
    0 ≤ scroll_offset self' ∧
    len (display_lines pg) ≤ lines_per_page self ∧
    cursor_cell pg = Some (cursor_line - scroll_offset self', cursor_col) ∧
    (∀ m : metrics,
       cursor_rectangle m cursor_col (cursor_line - scroll_offset self')
                        (lines_per_page self) =
         let cx := MARGIN_X + cursor_col * char_w m in
         let cy := MARGIN_Y + (cursor_line - scroll_offset self') * line_h m in
         if cx + char_w m <=? PORTRAIT_W - MARGIN_X
         then Some (cx, cy, cx + char_w m - 1, cy + cell_h m - 1)
         else None) ∧
    index lines cursor_line = Some line ∧
    index (display_lines pg) (cursor_line - scroll_offset self') = Some line ∧
    render self' = Some (Page pg, self').
Proof.
  intros Hcpl Hlpp Hso.
  destruct (wrap_with_cursor_cell self Hcpl) as (lay & i & v & cc & Hlay & Hrun & Hv & Hcc).
  assert (Hline : index (map v_text lay) (Z.of_nat i) = Some (v_text v))
    by (by rewrite index_of_nat, list_lookup_fmap, Hv).
  assert (Hlen : Z.of_nat i < len (map v_text lay)).
  { apply lookup_lt_Some in Hv. unfold len. rewrite length_map. lia. }
  set (so := auto_scroll (Z.of_nat i) (scroll_offset self) (lines_per_page self)).
  assert (Hwin : 0 ≤ so ∧ so ≤ Z.of_nat i < so + lines_per_page self).
  { subst so. unfold auto_scroll.
    destruct (Z.ltb_spec (Z.of_nat i) (scroll_offset self)); [lia|].
    destruct (Z.leb_spec (scroll_offset self + lines_per_page self) (Z.of_nat i)); lia. }
  assert (Hstable : auto_scroll (Z.of_nat i) so (lines_per_page self) = so).
  { unfold auto_scroll. destruct (Z.ltb_spec (Z.of_nat i) so); [lia|].
    destruct (Z.leb_spec (so + lines_per_page self) (Z.of_nat i)); lia. }
  destruct (slice_window (map v_text lay) so (lines_per_page self) ltac:(lia) ltac:(lia))
    as [Hshort Hsame].
  exists (map v_text lay), (Z.of_nat i), cc, (v_text v). do 2 eexists.
  split; [done|]. unfold render at 1. rewrite Hrun. cbn [mbind option_bind]. cbv zeta.
  fold so. split; [done|]. cbn [scroll_offset set_scroll_offset display_lines cursor_cell].
  unfold cursor_rectangle.
  destruct (Z.leb_spec 0 (Z.of_nat i - so)); [|lia].
  destruct (Z.ltb_spec (Z.of_nat i - so) (lines_per_page self)); [|lia]. cbn [andb].
  split_and!; try done; try lia.
  - rewrite Hsame by lia. rewrite <- Hline. f_equal. lia.
  - unfold render.
    assert (_wrap_with_cursor (set_scroll_offset so self) =
            Some (map v_text lay, Z.of_nat i, cc)) as -> by done.
    cbn [mbind option_bind]. cbv zeta.
    cbn [scroll_offset set_scroll_offset lines_per_page doc_path dirty text].
    rewrite Hstable.
    destruct (Z.leb_spec 0 (Z.of_nat i - so)); [|lia].
    destruct (Z.ltb_spec (Z.of_nat i - so) (lines_per_page self)); [|lia]. cbn [andb].
    by destruct self.
Qed.

Lemma render_shows_cursor_line_witness :
  ∃ lines cursor_line cursor_col line pg self',
    _wrap_with_cursor hello_world = Some (lines, cursor_line, cursor_col) ∧
    render hello_world = Some (Page pg, self') ∧
    0 ≤ scroll_offset self' ∧
    len (display_lines pg) ≤ lines_per_page hello_world ∧
    cursor_cell pg = Some (cursor_line - scroll_offset self', cursor_col) ∧
    (∀ m : metrics,
       cursor_rectangle m cursor_col (cursor_line - scroll_offset self')
                        (lines_per_page hello_world) =
         let cx := MARGIN_X + cursor_col * char_w m in
         let cy := MARGIN_Y + (cursor_line - scroll_offset self') * line_h m in
         if cx + char_w m <=? PORTRAIT_W - MARGIN_X
         then Some (cx, cy, cx + char_w m - 1, cy + cell_h m - 1)
         else None) ∧
    index lines cursor_line = Some line ∧
    index (display_lines pg) (cursor_line - scroll_offset self') = Some line ∧
    render self' = Some (Page pg, self').
Proof. apply render_shows_cursor_line; simpl; lia. Defined.


(** ** Waking up *)

Lemma wake_events_app a b c :
  wake_events (a ++ b) c =
    match wake_events a c with
    | Return r => Return r
    | Continue c' => wake_events b c'
    end.
Proof.
  revert c. induction a as [|[[type code] value] a IH]; intros c; simpl; [done|].
  destruct (negb _); [apply IH|]. destruct (_ || _); [apply IH|].
  destruct (_ && _); [done|apply IH].
Qed.

(** The loop wakes exactly when the events of its polls, read in one row,
    hold the wake key. *)
Lemma wait_loop_events polls c :
  is_Some (wait_loop true polls c) ↔ wake_events (events_of polls) c = Return tt.
Proof.
  revert c. induction polls as [|p polls IH]; intros c.
  - simpl. split; [by intros [? [=]]|done].
  - unfold events_of. cbn [map concat]. fold (events_of polls).
    rewrite wake_events_app. cbn [wait_loop negb]. destruct p as [|events|].
    + apply IH.
    + destruct (wake_events events c) as [[]|c']; [|apply IH]. split; [done|by eexists].
    + apply IH.
Qed.

(** The event that wakes, and the Ctrl state before it. *)
Lemma wake_events_return events c :
  wake_events events c = Return tt ↔
  ∃ before post, events = before ++ (ecodes.EV_KEY, ecodes.KEY_Q, 1) :: post ∧
                 wake_events before c = Continue true.
Proof.
  split.
  - revert c. induction events as [|[[type code] value] events IH]; intros c; simpl; [done|].
    case_bool_decide as Ht; simpl.
    + destruct (bool_decide (code = ecodes.KEY_LEFTCTRL) || bool_decide (code = ecodes.KEY_RIGHTCTRL))
        eqn:Hctrl.
      * intros (before & post & -> & Hb)%IH.
        exists ((type, code, value) :: before), post. split; [done|].
        simpl. rewrite bool_decide_eq_true_2 by done. simpl. by rewrite Hctrl.
      * destruct (bool_decide (code = ecodes.KEY_Q) && (value =? 1) && c) eqn:Hq.
        -- intros _. apply andb_prop in Hq as [[Hcode Hv]%andb_prop ->].
           apply bool_decide_eq_true in Hcode. apply Z.eqb_eq in Hv. subst.
           by exists [], events.
        -- intros (before & post & -> & Hb)%IH.
           exists ((type, code, value) :: before), post. split; [done|].
           simpl. rewrite bool_decide_eq_true_2 by done. simpl. by rewrite Hctrl, Hq.
    + intros (before & post & -> & Hb)%IH.
      exists ((type, code, value) :: before), post. split; [done|].
      simpl. by rewrite bool_decide_eq_false_2.
  - intros (before & post & -> & Hb). rewrite wake_events_app, Hb. done.
Qed.

(** Ctrl is taken as held after a batch only through a Ctrl event with a
    value other than 0 that no Ctrl event follows - or because it was so
    before, with no Ctrl event at all. *)
Lemma wake_events_ctrl events c :
  wake_events events c = Continue true →
  (c = true ∧ Forall (λ e, ¬ is_ctrl_event e) events) ∨
  ∃ pre e mid, events = pre ++ e :: mid ∧ is_ctrl_event e ∧ e.2 ≠ 0 ∧
               Forall (λ x, ¬ is_ctrl_event x) mid.
Proof.
  induction events as [|[[type code] value] events IH] using rev_ind.
  - intros [= ->]. by left.
  - rewrite wake_events_app.
    destruct (wake_events events c) as [|c'] eqn:Hev; [done|]. simpl.
    case_bool_decide as Ht; simpl.
    + destruct (bool_decide (code = ecodes.KEY_LEFTCTRL) || bool_decide (code = ecodes.KEY_RIGHTCTRL))
        eqn:Hctrl.
      * intros [= Hv]. right. exists events, (type, code, value), []. split; [done|].
        split; [|split; [|done]].
        -- split; [done|]. simpl.
           apply orb_prop in Hctrl as [H|H]; apply bool_decide_eq_true in H; tauto.
        -- simpl. intros ->. done.
      * assert (¬ is_ctrl_event (type, code, value)) as Hno.
        { intros [_ [H|H]]; simpl in H; subst code; done. }
        destruct (_ && _); [done|]. intros [= ->].
        destruct (IH eq_refl) as [[-> Hall]|(pre & e & mid & -> & He & Hv & Hmid)].
        -- left. split; [done|]. apply Forall_app. by split; [|constructor].
        -- right. exists pre, e, (mid ++ [(type, code, value)]).
           rewrite <- app_assoc. split; [done|]. split; [done|]. split; [done|].
           apply Forall_app. by split; [|constructor].
    + assert (¬ is_ctrl_event (type, code, value)) as Hno by (by intros [? _]).
      intros [= ->].
      destruct (IH eq_refl) as [[-> Hall]|(pre & e & mid & -> & He & Hv & Hmid)].
      * left. split; [done|]. apply Forall_app. by split; [|constructor].
      * right. exists pre, e, (mid ++ [(type, code, value)]).
        rewrite <- app_assoc. split; [done|]. split; [done|]. split; [done|].
        apply Forall_app. by split; [|constructor].
Qed.

(** With Ctrl taken as held and no release of it, the batch wakes at the
    wake key or leaves Ctrl held. *)
Lemma wake_events_held events :
  Forall (λ x, ¬ is_ctrl_release x) events →
  wake_events events true = Return tt ∨ wake_events events true = Continue true.
Proof.
  induction events as [|[[type code] value] events IH]; intros Hall; simpl; [by right|].
  apply Forall_cons in Hall as [Hx Hall]. specialize (IH Hall).
  case_bool_decide as Ht; simpl; [|done].
  destruct (bool_decide (code = ecodes.KEY_LEFTCTRL) || bool_decide (code = ecodes.KEY_RIGHTCTRL))
    eqn:Hctrl.
  - destruct (Z.eqb_spec value 0) as [->|]; [|done]. exfalso. apply Hx. split; [|done].
    split; [done|]. simpl.
    apply orb_prop in Hctrl as [H|H]; apply bool_decide_eq_true in H; tauto.
  - destruct (_ && _); [by left|done].
Qed.

(** X18: what wakes the typewriter.  While it runs, [_wait_for_wake]
    returns exactly when these events come, in this order: a Ctrl key event
    with a value other than 0, then no release of a Ctrl key, then a press
    of Q (value 1).  A Ctrl key held since before the wait does not count:
    the wait starts with Ctrl taken as not held. *)
Theorem wake_needs_ctrl_then_q_press (self : EtyperApp) (polls : list poll) :
  running self = true →
  (is_Some (_wait_for_wake self polls) ↔
   ∃ pre e mid post,
     events_of polls = pre ++ e :: mid ++ (ecodes.EV_KEY, ecodes.KEY_Q, 1) :: post ∧
     is_ctrl_event e ∧ e.2 ≠ 0 ∧ Forall (λ x, ¬ is_ctrl_release x) mid).
Proof.
  intros Hrun. unfold _wait_for_wake. rewrite Hrun, wait_loop_events. split.
  - intros (before & post & Hev & Hb)%wake_events_return.
    destruct (wake_events_ctrl _ _ Hb) as [[? _]|(pre & e & mid & -> & He & Hv & Hmid)];
      [done|].
    exists pre, e, mid, post. rewrite Hev, <- app_assoc. split; [done|].
    split; [done|]. split; [done|]. eapply Forall_impl; [exact Hmid|]. intros x Hx [? _]. by apply Hx.
  - intros (pre & [[type code] value] & mid & post & -> & [Ht Hc] & Hv & Hmid).
    simpl in Ht, Hc, Hv. rewrite wake_events_app.
    destruct (wake_events pre false) as [[]|c]; [done|].
    cbn [wake_events]. rewrite bool_decide_eq_true_2 by done. cbn [negb].
    assert (bool_decide (code = ecodes.KEY_LEFTCTRL) || bool_decide (code = ecodes.KEY_RIGHTCTRL)
            = true) as ->.
    { destruct Hc as [->| ->]; by vm_compute. }
    destruct (Z.eqb_spec value 0); [done|]. cbn [negb].
    rewrite wake_events_app.
    destruct (wake_events_held mid Hmid) as [-> | ->]; [done|]. by vm_compute.
Qed.

Lemma wake_needs_ctrl_then_q_press_witness :
  running hello_world = true ∧
  is_Some (_wait_for_wake hello_world
             [Ready [(ecodes.EV_KEY, ecodes.KEY_Q, 1)]; NoKeyboard;
              Ready [(ecodes.EV_KEY, ecodes.KEY_LEFTCTRL, 1)];
              Ready [(ecodes.EV_KEY, ecodes.KEY_Q, 1); (ecodes.EV_KEY, ecodes.KEY_A, 1)]]).
Proof.
  split; [done|]. apply wake_needs_ctrl_then_q_press; [done|].
  exists [(ecodes.EV_KEY, ecodes.KEY_Q, 1)], (ecodes.EV_KEY, ecodes.KEY_LEFTCTRL, 1), [],
         [(ecodes.EV_KEY, ecodes.KEY_A, 1)].
  split; [done|]. split; [split; [done|by left]|]. split; [done|constructor].
Defined.

(** ** The test patterns *)

Lemma len_times {A} (l : list A) n : 0 ≤ n → len (times l n) = len l * n.
Proof.
  intros Hn. unfold times, len. rewrite <- (Z2Nat.id n) at 2 by done.
  generalize (Z.to_nat n) as k. intros k.
  induction k as [|k IH]; simpl; [lia|]. rewrite length_app. lia.
Qed.

Lemma len_rows {A} (row : list A) (k : nat) :
  len (concat (replicate k row)) = Z.of_nat k * len row.
Proof. unfold len. induction k as [|k IH]; simpl; [lia|]. rewrite length_app. lia. Qed.

(** X19: the four test frames are whole frames when the display has an even
    number of rows and an even number of bytes in a row: each buffer of
    [tests] is [W // 8 * H] bytes long. *)
Theorem test_frames_are_whole_frames (W H : Z) :
  0 ≤ W → 0 ≤ H → Z.even H = true → Z.even (W / 8) = true →
  Forall (λ t, len t.2 = W / 8 * H) (tests W H).
Proof.
  intros HW HH Heven Hrow.
  assert (0 ≤ W / 8) as Hb by (apply Z.div_pos; lia).
  apply Zeven_bool_iff, Zeven_div2 in Heven, Hrow. rewrite Z.div2_div in Heven, Hrow.
  assert (0 ≤ H / 2) by (apply Z.div_pos; lia).
  assert (0 ≤ W / 8 / 2) by (apply Z.div_pos; lia).
  unfold tests. repeat constructor; simpl.
  - rewrite len_times by nia. unfold len. simpl. lia.
  - rewrite len_times by nia. unfold len. simpl. lia.
  - rewrite len_app, !len_times by nia. unfold len. simpl. nia.
  - rewrite len_rows, len_app, !len_times by lia. unfold len. simpl. nia.
Qed.

Lemma test_frames_are_whole_frames_witness :
  Forall (λ t, len t.2 = 400 / 8 * 300) (tests 400 300).
Proof. apply test_frames_are_whole_frames; [lia|lia|done|done]. Defined.


(** ** The arrow keys on a plain text *)

(** On a plain text the cursor, anywhere from 0 to the length of the text,
    is shown on a line of the layout, at its distance from the start of that
    line. *)
Lemma plain_cursor_cell self :
  1 ≤ chars_per_line self → plain_text (text self) = true → cursor_in_text self →
  ∃ lay (i : nat) v,
    layout (chars_per_line self) (split_nl (text self)) 0 = Some lay ∧
    _wrap_with_cursor self = Some (map v_text lay, Z.of_nat i, cursor self - v_start v) ∧
    lay !! i = Some v ∧ v_start v ≤ cursor self ≤ v_end v.
Proof.
  intros Hcpl Hplain Hoff. unfold cursor_in_text in Hoff.
  pose proof (plain_text_well_wrapped _ _ Hcpl Hplain) as Hwell.
  destruct (wrap_with_cursor_total self Hcpl) as (lay & cl & cc & Hlay & Hne & Hwrap).
  destruct (layout_last_end _ _ _ _ Hwell (split_nl_nonempty _) Hlay) as (vl & Hlast & Hend).
  rewrite span_split_nl in Hend. exists lay.
  unfold _wrap_with_cursor, wrap_layout in *.
  destruct (wrap_paragraphs_spec (chars_per_line self) (len (split_nl (text self)))
              (split_nl (text self)) 0 (mkWrap [] ∅ 0 0) lay ltac:(lia) Hlay)
    as (m & Hrun & _ & _).
  rewrite Hrun. simpl. rewrite bool_decide_eq_false_2 by (by destruct lay).
  simpl. unfold find_cursor.
  apply last_Some in Hlast as Hsplit. destruct Hsplit as [lay' Hsplit].
  assert (index (map v_text lay) (-1) = Some (v_text vl)) as Hidx.
  { rewrite Hsplit, map_app. simpl. apply index_last. }
  rewrite Hidx. simpl.
  destruct (Z.leb_spec (len (text self)) (cursor self)) as [Hend'|Hinside].
  - rewrite bool_decide_eq_false_2 by (by destruct lay). simpl.
    exists (length lay'), vl. split; [done|].
    replace (len (map v_text lay) - 1) with (Z.of_nat (length lay'))
      by (rewrite Hsplit; unfold len; rewrite length_map, length_app; simpl; lia).
    pose proof (len_nonneg (v_text vl)).
    unfold v_end in *. split; [|split; [|lia]].
    + do 2 f_equal. lia.
    + rewrite Hsplit. by apply list_lookup_middle.
  - destruct (wrap_paragraphs_cells (chars_per_line self) (len (split_nl (text self)))
                (split_nl (text self)) 0 (mkWrap [] ∅ 0 0) lay _ Hwell ltac:(lia) Hlay Hrun
                (cursor self))
      as (cell & Hcell & i & v & -> & Hv & Hk).
    { simpl. rewrite span_split_nl. lia. }
    simpl in Hcell. rewrite Hcell. simpl. exists i, v. by rewrite Z.add_0_l.
Qed.

Lemma spaced_words_no_tab p b : spaced_words p b = true → TAB ∉ p.
Proof.
  revert b. induction p as [|c p IH]; intros b; simpl; [intros _; apply not_elem_of_nil|].
  destruct (isspace c) eqn:Hc.
  - intros [[Hsp _]%andb_prop Hrest]%andb_prop. apply N.eqb_eq in Hsp. subst c.
    apply not_elem_of_cons. split; [done|]. by eapply IH.
  - intros Hrest. apply not_elem_of_cons. split; [by intros <-|]. by eapply IH.
Qed.

Lemma plain_text_no_tab t : plain_text t = true → TAB ∉ t.
Proof.
  unfold plain_text. rewrite <- (join_split_nl t) at 2.
  pose proof (split_nl_nonempty t) as Hne. revert Hne.
  generalize (split_nl t) as ps. clear t.
  induction ps as [|p ps IH]; intros Hne; [done|].
  cbn [forallb]. intros [Hp Hps]%andb_prop.
  assert (TAB ∉ p) as Hp'.
  { apply orb_prop in Hp as [->%bool_decide_eq_true|Hp]; [apply not_elem_of_nil|].
    by eapply spaced_words_no_tab. }
  destruct ps as [|q ps]; [done|]. rewrite join_nl_cons by done.
  apply not_elem_of_app. split; [done|]. apply not_elem_of_cons. split; [done|].
  by apply IH.
Qed.

Lemma para_layout_after para wrapped tp pc nl :
  Forall (λ v, tp + pc ≤ v_start v) (para_layout para wrapped tp pc nl).
Proof.
  revert pc. induction wrapped as [|w wrapped IH]; intros pc; simpl; [constructor|].
  constructor; [simpl; lia|]. eapply Forall_impl; [apply IH|]. simpl. intros v Hv.
  pose proof (len_nonneg w). unfold next_char in Hv. destruct (space_consumed _ _); lia.
Qed.

Lemma para_layout_sorted para wrapped tp pc nl (i j : nat) vi vj :
  (i < j)%nat →
  para_layout para wrapped tp pc nl !! i = Some vi →
  para_layout para wrapped tp pc nl !! j = Some vj →
  v_end vi ≤ v_start vj.
Proof.
  revert pc i j. induction wrapped as [|w wrapped IH]; intros pc i j Hij; simpl; [done|].
  destruct j as [|j]; [lia|]. destruct i as [|i]; simpl.
  - intros [= <-] Hj. unfold v_end. simpl.
    pose proof (para_layout_after para wrapped tp (next_char para (pc + len w)) nl) as Hall.
    rewrite Forall_lookup in Hall. specialize (Hall _ _ Hj).
    unfold next_char in Hall. destruct (space_consumed _ _); lia.
  - apply IH. lia.
Qed.

(** In a text without tabs the lines of the layout follow one another: a
    line ends where a later one starts, or before. *)
Lemma layout_sorted cpl paragraphs tp lay (i j : nat) vi vj :
  1 ≤ cpl → Forall (λ para, TAB ∉ para) paragraphs →
  layout cpl paragraphs tp = Some lay →
  (i < j)%nat → lay !! i = Some vi → lay !! j = Some vj → v_end vi ≤ v_start vj.
Proof.
  intros Hcpl. revert tp lay i j.
  induction paragraphs as [|para rest IH]; intros tp lay i j Htab Hlay Hij.
  { injection Hlay as <-. done. }
  apply Forall_cons in Htab as [Hp Hrest].
  apply layout_cons in Hlay as (here & later & Hhere & Hlater & ->).
  pose proof (layout_within _ _ _ _ Hcpl Hrest Hlater) as Hlater_in.
  assert (Forall (λ v, v_end v ≤ tp + len para) here ∧
          ∀ (a b : nat) va vb, (a < b)%nat → here !! a = Some va → here !! b = Some vb →
                               v_end va ≤ v_start vb) as [Hhere_in Hhere_sorted].
  { unfold here_layout in Hhere. case_bool_decide as Hnil.
    - injection Hhere as <-. subst para. split.
      + repeat constructor. unfold v_end, len. simpl. lia.
      + intros a b va vb Hab Ha Hb. destruct b; [lia|]. done.
    - destruct (wrap_para para cpl) as [wrapped|] eqn:Hwrap; simpl in Hhere; [|done].
      injection Hhere as <-. split.
      + eapply Forall_impl;
          [apply para_layout_fits; [done|by apply (wrap_para_fits _ cpl)]|].
        simpl. intros v [_ ?]. done.
      + intros a b va vb. apply para_layout_sorted. }
  intros Hi Hj.
  destruct (decide (j < length here)%nat) as [Hjh|Hjl].
  - rewrite lookup_app_l in Hi, Hj by lia. exact (Hhere_sorted i j vi vj Hij Hi Hj).
  - rewrite (lookup_app_r _ _ j) in Hj by lia.
    rewrite Forall_lookup in Hlater_in. destruct (Hlater_in _ _ Hj) as [Hstart _].
    destruct (decide (i < length here)%nat) as [Hih|Hil].
    + rewrite lookup_app_l in Hi by lia.
      rewrite Forall_lookup in Hhere_in. specialize (Hhere_in _ _ Hi). lia.
    + rewrite lookup_app_r in Hi by lia.
      apply (IH _ _ (i - length here)%nat (j - length here)%nat Hrest Hlater); [lia|done..].
Qed.

(** X20: the arrow keys go the right way.  On a text whose paragraphs are
    empty or words separated by single spaces, with the cursor inside the
    text, Up and Home return and never move the cursor forward, Down and End
    return and never move it back, and all four leave it inside the text. *)
Theorem arrow_keys_move_the_right_way (self : EtyperApp) :
  1 ≤ chars_per_line self → plain_text (text self) = true → cursor_in_text self →
  (∃ self', _cursor_up self = Some self' ∧ 0 ≤ cursor self' ≤ cursor self) ∧
  (∃ self', _cursor_down self = Some self' ∧ cursor self ≤ cursor self' ≤ len (text self)) ∧
  (∃ self', edit_key ecodes.KEY_HOME self = Some self' ∧ 0 ≤ cursor self' ≤ cursor self) ∧
  (∃ self', edit_key ecodes.KEY_END self = Some self' ∧
            cursor self ≤ cursor self' ≤ len (text self)).
Proof.
  intros Hcpl Hplain Hin.
  destruct (plain_cursor_cell self Hcpl Hplain Hin) as (lay & i & v & Hlay & Hrun & Hv & Hk).
  pose proof (plain_text_no_tab _ Hplain) as Htab.
  pose proof (split_nl_no_tab _ Htab) as Htabs.
  destruct (layout_in_text _ _ _ _ _ Hcpl Htab Hlay Hv) as [Hv0 Hvend].
  pose proof Hin as Hin'. unfold cursor_in_text in Hin'. unfold v_end in *.
  pose proof (len_nonneg (v_text v)) as Hlen.
  split; [|split; [|split]].
  - unfold _cursor_up. rewrite Hrun. simpl.
    case_bool_decide as Hi; [exists self; split; [done|lia]|].
    destruct i as [|j]; [done|].
    replace (Z.of_nat (S j) - 1) with (Z.of_nat j) by lia.
    assert (is_Some (lay !! j)) as [v' Hv'].
    { apply lookup_lt_is_Some. apply lookup_lt_Some in Hv. lia. }
    rewrite index_of_nat, list_lookup_fmap, Hv'. simpl.
    rewrite (pos_from_line_col_hit _ _ _ _ _ _ Hlay Hv'). simpl. eexists. split; [done|].
    simpl. pose proof (layout_sorted _ _ _ _ j (S j) v' v Hcpl Htabs Hlay ltac:(lia) Hv' Hv).
    destruct (layout_in_text _ _ _ _ _ Hcpl Htab Hlay Hv') as [Hv0' _].
    pose proof (len_nonneg (v_text v')). unfold v_end in *. lia.
  - unfold _cursor_down. rewrite Hrun. simpl.
    destruct (Z.leb_spec (len (map v_text lay) - 1) (Z.of_nat i)) as [|Hi];
      [exists self; split; [done|lia]|].
    replace (Z.of_nat i + 1) with (Z.of_nat (S i)) by lia.
    assert (is_Some (lay !! S i)) as [v' Hv'].
    { apply lookup_lt_is_Some. unfold len in Hi. rewrite length_map in Hi. lia. }
    rewrite index_of_nat, list_lookup_fmap, Hv'. simpl.
    rewrite (pos_from_line_col_hit _ _ _ _ _ _ Hlay Hv'). simpl. eexists. split; [done|].
    simpl. pose proof (layout_sorted _ _ _ _ i (S i) v v' Hcpl Htabs Hlay ltac:(lia) Hv Hv').
    destruct (layout_in_text _ _ _ _ _ Hcpl Htab Hlay Hv') as [_ Hvend'].
    pose proof (len_nonneg (v_text v')). unfold v_end in *. lia.
  - unfold edit_key. simpl. rewrite Hrun. simpl.
    rewrite (pos_from_line_col_hit _ _ _ _ _ _ Hlay Hv). simpl. eexists. split; [done|].
    simpl. lia.
  - unfold edit_key. simpl. rewrite Hrun. simpl.
    rewrite index_of_nat, list_lookup_fmap, Hv. simpl.
    rewrite (pos_from_line_col_hit _ _ _ _ _ _ Hlay Hv). simpl. eexists. split; [done|].
    simpl. lia.
Qed.

Lemma arrow_keys_move_the_right_way_witness :
  (∃ self', _cursor_up (set_cursor 8 hello_world) = Some self' ∧ 0 ≤ cursor self' ≤ 8) ∧
  (∃ self', _cursor_down (set_cursor 8 hello_world) = Some self' ∧
            8 ≤ cursor self' ≤ len (text hello_world)) ∧
  (∃ self', edit_key ecodes.KEY_HOME (set_cursor 8 hello_world) = Some self' ∧
            0 ≤ cursor self' ≤ 8) ∧
  (∃ self', edit_key ecodes.KEY_END (set_cursor 8 hello_world) = Some self' ∧
            8 ≤ cursor self' ≤ len (text hello_world)).
Proof.
  apply (arrow_keys_move_the_right_way (set_cursor 8 hello_world));
    [simpl; lia|done|by vm_compute].
Defined.


(** ** The whole run *)

Lemma main_loop_typing passes self w :
  ctrl_held self = false → forallb pass_without_ctrl passes = true →
  TAB ∉ text self → 1 ≤ chars_per_line self → cursor_in_text self →
  ∃ self' w', _main_loop passes self w = Some (self', w').
Proof.
  revert self w. induction passes as [|[now p] passes IH];
    intros self w Hctrl Hpasses Htab Hcpl Hin; simpl.
  - by exists self, w.
  - simpl in Hpasses. apply andb_prop in Hpasses as [Hp Hpasses].
    destruct (running self); [|by exists self, w].
    destruct (main_loop_pass_typing (now, p) self (set_clock now w) Hp Hctrl Htab Hcpl Hin)
      as (self1 & w1 & Hpass & Hctrl1 & Htab1 & Hcpl1 & Hin1 & Hp1).
    simpl in Hpass. rewrite Hpass. simpl. by apply IH.
Qed.

(** X21: a whole run of typing.  When the start of [run] goes through and
    the text it opened holds no tab, with Ctrl not held and no Ctrl key
    event in any pass, [run] goes through the passes and shuts down with the
    display closed.  The document it ends with is not dirty, and either its
    file holds the text it ends with or that text is the one the start
    opened. *)
Theorem run_of_typing_is_saved
    (ascent descent advance : Z) (passes : list (Z * poll)) (self : EtyperApp) (w : World)
    (m : metrics) (self1 : EtyperApp) (w1 : World) :
  ctrl_held self = false → forallb pass_without_ctrl passes = true →
  startup ascent descent advance self w = Some (m, self1, w1) →
  TAB ∉ text self1 →
  ∃ self2 w2 p,
    run ascent descent advance passes self w = Some (self2, w2, true) ∧
    doc_path self2 = Some p ∧ dirty self2 = false ∧
    (files w2 !! p = Some (text self2) ∨ text self2 = text self1).
Proof.
  intros Hctrl Hpasses Hstart Htab.
  assert (advance ≠ 0) as Hadv.
  { intros ->. by vm_compute in Hstart. }
  destruct (startup_state ascent descent advance self w Hadv)
    as (m0 & s & v & p & img & Hstart' & Hctrl1 & Hcpl & _ & _ & Hclean & _ & Hcur & _ &
        Hp & Hne & _).
  rewrite Hstart in Hstart'. injection Hstart' as <- <- <-.
  assert (cursor_in_text self1) as Hin.
  { unfold cursor_in_text. rewrite Hcur. pose proof (len_nonneg (text self1)). lia. }
  rewrite Hctrl in Hctrl1.
  destruct (main_loop_typing passes self1 w1 Hctrl1 Hpasses Htab Hcpl Hin)
    as (self' & w' & Hloop).
  destruct (main_loop_in_sync self1 p passes self1 w1 self' w' Hctrl1 Hpasses Hp Hne
              ltac:(by right) Hloop) as [Hp' Hsync].
  unfold run. rewrite Hstart. cbn [mbind option_bind].
  rewrite Hloop. cbn [mbind option_bind]. unfold _shutdown.
  destruct (dirty self') eqn:Hd.
  - rewrite (save_document_stored _ _ _ Hp' Hne). do 2 eexists. exists p.
    split; [done|]. simpl. split_and!; try done.
    left. by rewrite lookup_insert_eq.
  - do 2 eexists. exists p. split; [done|]. simpl.
    split_and!; try done. destruct (Hsync eq_refl) as [?|[? _]]; [by left|by right].
Qed.

Lemma run_of_typing_is_saved_witness :
  ∃ m self1 w1 self2 w2 p,
    startup 12 4 9 (__init__ 100) two_docs = Some (m, self1, w1) ∧
    run 12 4 9 six_minutes (__init__ 100) two_docs = Some (self2, w2, true) ∧
    doc_path self2 = Some p ∧ dirty self2 = false ∧
    (files w2 !! p = Some (text self2) ∨ text self2 = text self1).
Proof.
  destruct (startup 12 4 9 (__init__ 100) two_docs) as [[[m s] v]|] eqn:Hstart;
    [|by vm_compute in Hstart].
  exists m, s, v.
  assert (TAB ∉ text s) as Htab.
  { vm_compute in Hstart. injection Hstart as _ <- _.
    apply (bool_decide_unpack _). by vm_compute. }
  destruct (run_of_typing_is_saved 12 4 9 six_minutes (__init__ 100) two_docs m s v
              eq_refl ltac:(by vm_compute) Hstart Htab) as (self2 & w2 & p & Hrun).
  by exists self2, w2, p.
Defined.


(** ** The shortcuts that leave the document *)

(** X23: the Ctrl shortcuts save first.  With Ctrl held, a press of Q, S, N,
    Left or Right on a document with a path writes the text under that path
    before anything else: whatever the shortcut then does - sleep, a new
    document, another document - the file of the document that was open
    holds the text it had. *)
Theorem ctrl_shortcuts_save_first
    (keycode value : Z) (self : EtyperApp) (w : World) (p : str)
    (self' : EtyperApp) (w' : World) :
  ctrl_held self = true → value ≠ 0 →
  keycode ∈ [ecodes.KEY_Q; ecodes.KEY_S; ecodes.KEY_N; ecodes.KEY_LEFT; ecodes.KEY_RIGHT] →
  doc_path self = Some p → p ≠ [] → p ≠ LAST_DOC_FILE w →
  _handle_key keycode value self w = Some (self', w') →
  files w' !! p = Some (text self).
Proof.
  intros Hctrl Hv Hkey Hp Hne Hlast. unfold _handle_key. rewrite Hctrl.
  destruct (Z.eqb_spec value 0); [done|].
  assert (∀ d, _switch_document d self w = Some (self', w') → files w' !! p = Some (text self))
    as Hswitch.
  { intros d. unfold _switch_document. rewrite (save_document_stored _ _ _ Hp Hne).
    destruct (bool_decide (_list_docs _ = []));
      [intros [= _ <-]; simpl; by rewrite lookup_insert_eq|].
    destruct (_ || _); [intros [= _ <-]; simpl; by rewrite lookup_insert_eq|].
    destruct (index _ _) as [target|]; simpl; [|done].
    destruct (load_document_result (Some target)
                (set_last_save_time (clock w) (set_dirty false self))
                (set_files (<[p:=text self]> (files w)) w)) as (q & t & ->).
    cbv iota beta. intros [= _ <-]. simpl.
    change (LAST_DOC_FILE (set_files (<[p:=text self]> (files w)) w)) with (LAST_DOC_FILE w).
    rewrite lookup_insert_ne by done. by rewrite lookup_insert_eq. }
  repeat (apply elem_of_cons in Hkey as [->|Hkey]); [| | | | |by apply elem_of_nil in Hkey];
    simpl.
  - rewrite (save_document_stored _ _ _ Hp Hne). unfold _sleep_mode.
    destruct (render _) as [[img s]|]; simpl; [|done].
    intros [= _ <-]. simpl. by rewrite lookup_insert_eq.
  - rewrite (save_document_stored _ _ _ Hp Hne). intros [= _ <-]. simpl.
    by rewrite lookup_insert_eq.
  - unfold new_document. rewrite (save_document_stored _ _ _ Hp Hne). intros [= _ <-]. simpl.
    change (LAST_DOC_FILE (set_files (<[p:=text self]> (files w)) w)) with (LAST_DOC_FILE w).
    rewrite lookup_insert_ne by done. by rewrite lookup_insert_eq.
  - apply Hswitch.
  - apply Hswitch.
Qed.

Lemma ctrl_shortcuts_save_first_witness :
  files (_set_last_doc (_new_doc_path two_docs)
           (set_files (<[py "/home/user/etyper_docs/doc_20260102_090000.txt" :=
                           text second_doc_edited]> (files two_docs)) two_docs))
    !! py "/home/user/etyper_docs/doc_20260102_090000.txt" = Some (text second_doc_edited).
Proof.
  apply (ctrl_shortcuts_save_first ecodes.KEY_N 1 (set_ctrl_held true second_doc_edited)
           two_docs (py "/home/user/etyper_docs/doc_20260102_090000.txt")
           (new_document (set_ctrl_held true second_doc_edited) two_docs).1);
    [done|done| |done|done|by vm_compute|by vm_compute].
  apply (bool_decide_unpack _). by vm_compute.
Defined.


(** ** The wrap points of a plain text *)

(** Where [para_layout] puts a line, and the test it makes after it. *)
Lemma para_layout_space_test para wrapped tp pc nl (i : nat) v :
  para_layout para wrapped tp pc nl !! i = Some v →
  v_space v = space_consumed para (v_end v - tp).
Proof.
  revert pc i. induction wrapped as [|w_line rest IH]; intros pc i; [done|].
  cbn [para_layout]. destruct i as [|i]; simpl.
  - intros [= <-]. unfold v_end. simpl. f_equal. lia.
  - apply IH.
Qed.

Lemma rejoin_cons v lay :
  rejoin (v :: lay) =
    v_text v ++ (if v_space v then [SPACE] else [])
             ++ (if v_newline v then [NL] else []) ++ rejoin lay.
Proof. unfold rejoin. simpl. by rewrite <- !app_assoc. Qed.

Lemma para_layout_start wrapped q :
  rejoins wrapped q →
  ∀ pre tp nl (i : nat) v,
    para_layout (pre ++ q) wrapped tp (len pre) nl !! i = Some v →
    v_start v = tp + len pre + len (rejoin (take i (para_layout (pre ++ q) wrapped tp (len pre) nl))).
Proof.
  induction 1 as [w|w ws tail Hws IH|w ws tail Hws IH Hhead]; intros pre tp nl i v.
  - cbn [para_layout]. destruct i as [|i]; [|done]. simpl. intros [= <-]. unfold rejoin, len. simpl. lia.
  - pose proof (rejoins_nonempty _ _ Hws) as Hne.
    cbn [para_layout]. rewrite bool_decide_eq_false_2 by done.
    unfold next_char. rewrite space_consumed_after. simpl bool_decide. cbv iota.
    destruct i as [|i].
    + simpl. intros [= <-]. unfold rejoin, len. simpl. lia.
    + cbn [lookup list_lookup take]. intros Hv.
      specialize (IH (pre ++ w ++ [SPACE]) tp nl i v).
      replace ((pre ++ w ++ [SPACE]) ++ tail) with (pre ++ w ++ SPACE :: tail) in IH
        by (by rewrite <- !app_assoc).
      replace (len (pre ++ w ++ [SPACE])) with (len pre + len w + 1) in IH
        by (rewrite !len_app, len_cons, len_nil; lia).
      rewrite (IH Hv), rejoin_cons. cbn [v_text v_space v_newline].
      rewrite ?len_app, ?len_cons, ?len_nil. lia.
  - pose proof (rejoins_nonempty _ _ Hws) as Hne.
    cbn [para_layout]. rewrite bool_decide_eq_false_2 by done.
    unfold next_char. rewrite space_consumed_after.
    rewrite (bool_decide_eq_false_2 (head tail = Some SPACE)) by done.
    destruct i as [|i].
    + simpl. intros [= <-]. unfold rejoin, len. simpl. lia.
    + cbn [lookup list_lookup take]. intros Hv.
      specialize (IH (pre ++ w) tp nl i v).
      replace ((pre ++ w) ++ tail) with (pre ++ w ++ tail) in IH by (by rewrite <- !app_assoc).
      replace (len (pre ++ w)) with (len pre + len w) in IH by (by rewrite len_app).
      rewrite (IH Hv), rejoin_cons. cbn [v_text v_space v_newline].
      rewrite ?len_app, ?len_cons, ?len_nil. lia.
Qed.

(** In a layout of well wrapped paragraphs, a line starts where the lines
    before it, re-joined, end. *)
Lemma layout_start cpl paragraphs tp lay (i : nat) v :
  Forall (well_wrapped cpl) paragraphs →
  layout cpl paragraphs tp = Some lay → lay !! i = Some v →
  v_start v = tp + len (rejoin (take i lay)).
Proof.
  intros Hwell. revert tp lay i v.
  induction Hwell as [|para rest Hpara Hrest IH]; intros tp lay i v.
  - by intros [= <-].
  - intros (here & later & Hhere & Hlater & ->)%layout_cons Hv.
    apply lookup_app_Some in Hv as [Hv|[Hlen Hv]].
    + rewrite take_app_le by (apply lookup_lt_Some in Hv; lia).
      unfold here_layout in Hhere. case_bool_decide as Hempty.
      * injection Hhere as <-. destruct i as [|i]; [|done]. simpl in Hv.
        injection Hv as <-. unfold rejoin, len. simpl. lia.
      * destruct Hpara as [->|(wrapped & Hwrap & Hre)]; [done|].
        rewrite Hwrap in Hhere. simpl in Hhere. injection Hhere as <-.
        pose proof (para_layout_start _ _ Hre [] tp _ i v Hv) as Hs.
        rewrite len_nil in Hs. simpl in Hs. rewrite Hs. lia.
    + rewrite take_app_ge by lia. rewrite rejoin_app, len_app.
      assert (rest ≠ []) as Hne by (intros ->; simpl in Hlater; by simplify_eq).
      destruct (here_layout_well_wrapped _ _ _ _ _ Hpara Hhere) as [-> _].
      rewrite bool_decide_eq_false_2 by done. simpl negb. cbv iota.
      rewrite (IH _ _ _ _ Hlater Hv), len_app, len_cons, len_nil. lia.
Qed.

(** Where the text has a space at the end of a line, the walk finds it. *)
Lemma layout_space_test cpl paragraphs tp lay (i : nat) v :
  1 ≤ cpl → Forall (λ para, TAB ∉ para) paragraphs →
  layout cpl paragraphs tp = Some lay → lay !! i = Some v →
  index (join_nl paragraphs) (v_end v - tp) = Some SPACE → v_space v = true.
Proof.
  intros Hcpl Htab. revert tp lay i v.
  induction Htab as [|para rest Hpara Hrest IH]; intros tp lay i v.
  - by intros [= <-].
  - intros (here & later & Hhere & Hlater & ->)%layout_cons Hv Hidx.
    pose proof (len_nonneg para) as Hp.
    apply lookup_app_Some in Hv as [Hv|[Hlen Hv]].
    + unfold here_layout in Hhere. case_bool_decide as Hempty.
      { injection Hhere as <-. destruct i as [|i]; [|done]. simpl in Hv.
        injection Hv as <-. subst para. unfold v_end in Hidx. simpl in Hidx.
        rewrite len_nil in Hidx. replace (tp + 0 - tp) with 0 in Hidx by lia.
        destruct rest; done. }
      destruct (wrap_para para cpl) as [wrapped|] eqn:Hwrap; simpl in Hhere; [|done].
      injection Hhere as <-.
      pose proof (wrap_para_fits _ _ _ Hpara Hcpl Hwrap) as Hfits.
      pose proof (para_layout_fits para wrapped tp 0 (negb (bool_decide (rest = [])))
                    (Z.le_refl 0) Hfits) as Hin.
      rewrite Forall_forall in Hin.
      destruct (Hin v (list_elem_of_lookup_2 _ _ _ Hv)) as [Hlo Hhi].
      assert (tp ≤ v_end v) as Hge by (unfold v_end; pose proof (len_nonneg (v_text v)); lia).
      rewrite (para_layout_space_test _ _ _ _ _ _ _ Hv). unfold space_consumed.
      destruct (Z.ltb_spec (v_end v - tp) (len para)) as [Hlt|Hlast].
      * simpl. apply bool_decide_eq_true.
        destruct rest as [|q rest]; [done|].
        rewrite join_nl_cons in Hidx by done. by rewrite index_app_l in Hidx by lia.
      * exfalso. assert (v_end v - tp = len para) as Heq by lia. rewrite Heq in Hidx.
        destruct rest as [|q rest].
        -- simpl in Hidx. apply index_Some_lt in Hidx; lia.
        -- rewrite join_nl_cons in Hidx by done.
           rewrite <- (Z.add_0_r (len para)) in Hidx. by rewrite index_app_r in Hidx.
    + assert (rest ≠ []) as Hne by (intros ->; simpl in Hlater; by simplify_eq).
      apply (IH _ _ _ _ Hlater Hv).
      pose proof (layout_within _ _ _ _ Hcpl Hrest Hlater) as Hin.
      rewrite Forall_forall in Hin.
      destruct (Hin v (list_elem_of_lookup_2 _ _ _ Hv)) as [Hlo Hhi].
      assert (tp + len para + 1 ≤ v_end v)
        by (unfold v_end; pose proof (len_nonneg (v_text v)); lia).
      rewrite join_nl_cons in Hidx by done.
      replace (v_end v - tp) with (len para + (1 + (v_end v - (tp + len para + 1))))
        in Hidx by lia.
      rewrite index_app_r in Hidx by lia.
      rewrite index_nonneg in Hidx by lia.
      replace (Z.to_nat (1 + (v_end v - (tp + len para + 1))))
        with (S (Z.to_nat (v_end v - (tp + len para + 1)))) in Hidx by lia.
      simpl in Hidx. by rewrite index_nonneg by lia.
Qed.

(** What is left of the text when the whitespace goes. *)
Lemma ink_app a b : ink (a ++ b) = ink a ++ ink b.
Proof. apply filter_app. Qed.

Lemma ink_rejoin lay : ink (rejoin lay) = ink (concat (map v_text lay)).
Proof.
  induction lay as [|v lay IH]; [done|].
  rewrite rejoin_cons. cbn [map concat]. rewrite !ink_app, IH.
  destruct (v_space v), (v_newline v); by rewrite ?app_nil_r.
Qed.

(** A prefix of a text is known by its ink when a character that is no
    whitespace comes after it. *)
Lemma ink_prefix_unique (a b x y : str) c :
  a ++ c :: x = b ++ c :: y → ink a = ink b → isspace c = false → a = b.
Proof.
  intros Heq Hink Hc. revert b Heq Hink.
  induction a as [|d a IH]; intros [|e b]; simpl.
  - done.
  - intros [= <- _]. unfold ink. by rewrite filter_cons_True.
  - intros [= -> _]. unfold ink. by rewrite filter_cons_True.
  - intros [= <- Heq]. unfold ink. destruct (isspace d) eqn:Hd.
    + rewrite !filter_cons_False by (by rewrite Hd). intros Hink.
      f_equal. by apply IH.
    + rewrite !filter_cons_True by done. intros [= Hink]. f_equal. by apply IH.
Qed.

(** The lines of a paragraph of spaced words begin with a word. *)
Lemma spaced_words_head c p : spaced_words (c :: p) false = true → isspace c = false.
Proof. simpl. destruct (isspace c); [by rewrite andb_false_r|done]. Qed.

Lemma spaced_words_after_space w tail b :
  spaced_words (w ++ SPACE :: tail) b = true → spaced_words tail false = true.
Proof.
  revert b. induction w as [|c w IH]; intros b; simpl.
  - by intros [_ ?]%andb_prop.
  - destruct (isspace c); [intros [_ ?]%andb_prop|intros ?]; by eapply IH.
Qed.

Lemma spaced_words_after_break w c tail b :
  spaced_words (w ++ c :: tail) b = true → c ≠ SPACE →
  spaced_words (c :: tail) false = true.
Proof.
  intros Hsp Hc. revert b Hsp. induction w as [|d w IH]; intros b; simpl.
  - destruct (isspace c); [|done].
    intros [[Heq%N.eqb_eq _]%andb_prop _]%andb_prop. done.
  - destruct (isspace d); [intros [_ ?]%andb_prop|intros ?]; by eapply IH.
Qed.

Lemma rejoins_line_heads ls para :
  rejoins ls para → para = [] ∨ spaced_words para false = true →
  Forall (λ l, ∀ c l', l = c :: l' → isspace c = false) ls.
Proof.
  induction 1 as [w|w ws tail Hws IH|w ws tail Hws IH Hhead]; intros Hpara.
  - constructor; [|done]. intros c l' ->. destruct Hpara as [|Hpara]; [done|].
    by eapply spaced_words_head.
  - destruct Hpara as [Hpara|Hpara]; [by destruct w|]. constructor.
    + intros c l' ->. by eapply spaced_words_head.
    + apply IH. right. by eapply spaced_words_after_space.
  - constructor.
    + intros c l' ->. destruct Hpara as [|Hpara]; [done|]. by eapply spaced_words_head.
    + apply IH. destruct tail as [|c tail]; [by left|]. right.
      destruct Hpara as [Hpara|Hpara]; [by destruct w|].
      eapply spaced_words_after_break; [done|]. by intros ->.
Qed.

Lemma layout_line_heads cpl paragraphs tp lay :
  1 ≤ cpl →
  forallb (λ para, bool_decide (para = []) || spaced_words para false) paragraphs = true →
  layout cpl paragraphs tp = Some lay →
  Forall (λ l, ∀ c l', l = c :: l' → isspace c = false) (map v_text lay).
Proof.
  intros Hcpl. revert tp lay. induction paragraphs as [|para rest IH]; intros tp lay.
  - by intros _ [= <-].
  - cbn [forallb]. intros [Hpara Hrest]%andb_prop.
    intros (here & later & Hhere & Hlater & ->)%layout_cons.
    rewrite map_app. apply Forall_app. split; [|by eapply IH].
    unfold here_layout in Hhere. case_bool_decide as Hempty.
    + injection Hhere as <-. simpl. constructor; [|done]. by intros c l'.
    + apply orb_prop in Hpara as [?|Hpara]; [done|].
      destruct (wrap_para_plain para cpl Hcpl Hpara) as (wrapped & Hwrap & Hre).
      rewrite Hwrap in Hhere. simpl in Hhere. injection Hhere as <-.
      rewrite para_layout_text. apply (rejoins_line_heads _ _ Hre). by right.
Qed.

(** C3 (as amended): in a plain text - every paragraph empty or words with
    single spaces between them - at a width of at least 1, take a wrap point
    where a space was consumed: a line of the layout that is not empty, at
    its place in the text ([before] holds the characters of the lines before
    it, whitespace apart), with a space after it.  The offset of that space
    - the insertion point right after the last character of the line - maps
    to that line at the column of the line's length, and the inverse mapping
    at that cell (what End computes) gives back this offset, just before the
    consumed space. *)
Theorem consumed_space_maps_to_line_end
    (self : EtyperApp) (lines : list str) (cursor_line cursor_col : Z)
    (i : nat) (before line after : str) :
  1 ≤ chars_per_line self → plain_text (text self) = true →
  _wrap_with_cursor self = Some (lines, cursor_line, cursor_col) →
  lines !! i = Some line → line ≠ [] →
  text self = before ++ line ++ SPACE :: after →
  ink before = ink (concat (take i lines)) →
  forward self (len before + len line) = Some (Z.of_nat i, len line) ∧
  inverse self (Z.of_nat i, len line) = Some (len before + len line).
Proof.
  intros Hcpl Hplain Hwrap Hline Hne Htext Hink.
  destruct (wrap_with_cursor_total self Hcpl) as (lay & cl & cc & Hlay & _ & Hwrap').
  rewrite Hwrap in Hwrap'. injection Hwrap' as -> -> ->.
  rewrite list_lookup_fmap in Hline.
  destruct (lay !! i) as [v|] eqn:Hv; [|done]. injection Hline as <-.
  pose proof (plain_text_well_wrapped _ _ Hcpl Hplain) as Hwell.
  pose proof (plain_text_no_tab _ Hplain) as Htab.
  pose proof (rejoin_layout _ _ _ _ Hwell Hlay) as Hjoin. rewrite join_split_nl in Hjoin.
  pose proof (layout_start _ _ _ _ _ _ Hwell Hlay Hv) as Hstart.
  pose proof (layout_line_heads _ _ _ _ Hcpl Hplain Hlay) as Hheads.
  rewrite Forall_forall in Hheads.
  destruct (v_text v) as [|c l] eqn:Hl; [done|].
  assert (isspace c = false) as Hc.
  { apply (Hheads (c :: l)) with l; [|done]. rewrite <- Hl.
    apply list_elem_of_fmap. exists v. split; [done|]. by eapply list_elem_of_lookup_2. }
  assert (before = rejoin (take i lay)) as Hbefore.
  { rewrite <- (take_drop_middle _ _ _ Hv) in Hjoin. rewrite rejoin_app in Hjoin.
    rewrite rejoin_cons, Hl in Hjoin. simpl in Hjoin.
    rewrite Htext in Hjoin. simpl in Hjoin.
    eapply ink_prefix_unique; [symmetry; exact Hjoin| |done].
    by rewrite Hink, ink_rejoin, fmap_take. }
  assert (v_start v = len before) as Hstart' by (rewrite Hstart, Hbefore; lia).
  assert (v_end v = len before + len (c :: l)) as Hend
    by (unfold v_end; by rewrite Hstart', Hl).
  assert (index (text self) (v_end v) = Some SPACE) as Hidx.
  { rewrite Hend, Htext, app_assoc, <- len_app.
    rewrite <- (Z.add_0_r (len (before ++ c :: l))). by rewrite index_app_r. }
  assert (v_space v = true) as Hsp.
  { apply (layout_space_test _ _ 0 _ _ _ Hcpl (split_nl_no_tab _ Htab) Hlay Hv).
    by rewrite join_split_nl, Z.sub_0_r. }
  destruct (walk_space_maps_to_line_end self lay cl cc i v Hlay Hwrap Hv Hsp)
    as (_ & Hfwd & Hinv).
  rewrite Hend, Hl in *. done.
Qed.

Lemma consumed_space_maps_to_line_end_witness :
  forward hello_world 5 = Some (0, 5) ∧ inverse hello_world (0, 5) = Some 5.
Proof.
  exact (consumed_space_maps_to_line_end hello_world [py "hello"; py "world"] 0 0
           0%nat [] (py "hello") (py "world")
           ltac:(simpl; lia) eq_refl eq_refl eq_refl ltac:(done) eq_refl eq_refl).
Defined.

(** Outside the plain texts the walk loses the wrap points: in
    "hello  world foo" at width 5 the lines are "hello", "world" and "foo";
    the space after "world", offset 12, is the one the wrap consumed, but
    that offset maps to column 1 of the line "foo", and the inverse mapping
    at the end of the line "world" gives 11. *)
Example walk_drifts_after_two_spaces :
  _wrap_with_cursor two_spaces_three_words = Some ([py "hello"; py "world"; py "foo"], 0, 0) ∧
  text two_spaces_three_words = py "hello  " ++ py "world" ++ SPACE :: py "foo" ∧
  forward two_spaces_three_words 12 = Some (2, 1) ∧
  inverse two_spaces_three_words (1, 5) = Some 11.
Proof. by vm_compute. Qed.
